(** * proxy-switcheroo: the rule evaluation engine and its probe layer

    A shallow embedding of [extension/background/probes.js] (class
    [ProbeService]) and of the rule engine bundled after the proxy service in
    [extension/background/proxy.js] (class [RuleEngine], source map
    [rules.js]), followed by the properties proved about them.

    Conventions of the embedding.
    - A JavaScript string is a [string]; one character stands for one UTF-16
      code unit below 256.
    - A JavaScript number is an integer [Z]; [NaN] is [None] in an
      [option Z].  The numbers the engine meets (priorities, status codes,
      week days, prefix lengths, epoch milliseconds) are integers, and
      integers are exact in JavaScript up to 2^53.
    - Rules, triggers and provider answers are JSON values, [JsValue]; the
      operations on them follow JavaScript also where a value does not have
      the type [models.d.ts] declares for it.
    - [async]/[await] is sequential composition: one call is one computation
      in the state-and-exception monad [M], and no other task of the event
      loop runs in between.
    - The browser (clock, [fetch], DNS, captive portal) is a record of
      oracles [Env], indexed by the number of interactions made so far, so
      that successive calls may answer differently. *)

From Stdlib Require Import ZArith Ascii String List Lia Bool Permutation Sorted.
From stdpp Require Import base option strings gmap list pretty.

Local Open Scope string_scope.
Local Open Scope Z_scope.

(* ================================================================== *)
(** * JavaScript strings and numbers *)
(* ================================================================== *)

Definition code (c : ascii) : Z := Z.of_nat (nat_of_ascii c).

(** [String.prototype.split(sep)] for a one-character separator. *)
Fixpoint split (sep : ascii) (s : string) : list string :=
  match s with
  | EmptyString => [EmptyString]
  | String c r =>
      if Ascii.eqb c sep then EmptyString :: split sep r
      else match split sep r with
           | p :: ps => String c p :: ps
           | [] => [String c EmptyString]
           end
  end.

(** White space skipped by [parseInt] (the code units below 256 of
    [StrWhiteSpaceChar]). *)
Definition isWhiteSpace (c : ascii) : bool :=
  let n := code c in
  ((9 <=? n) && (n <=? 13)) || (n =? 32) || (n =? 160).

Fixpoint trimStart (s : string) : string :=
  match s with
  | String c r => if isWhiteSpace c then trimStart r else s
  | EmptyString => EmptyString
  end.

Definition digitVal (c : ascii) : option Z :=
  let n := code c in
  if (48 <=? n) && (n <=? 57) then Some (n - 48) else None.

(** The longest prefix of decimal digits, most significant first. *)
Fixpoint leadingDigits (s : string) : list Z :=
  match s with
  | String c r =>
      match digitVal c with
      | Some d => d :: leadingDigits r
      | None => []
      end
  | EmptyString => []
  end.

Definition digitsValue (ds : list Z) : Z :=
  fold_left (fun acc d => 10 * acc + d) ds 0.

(** [parseInt(s, 10)]; [None] is [NaN]. *)
Definition parseInt (s : string) : option Z :=
  let s1 := trimStart s in
  let '(sign, s2) :=
    match s1 with
    | String "-"%char r => (-1, r)
    | String "+"%char r => (1, r)
    | _ => (1, s1)
    end in
  match leadingDigits s2 with
  | [] => None
  | ds => Some (sign * digitsValue ds)
  end.

(** [Number.prototype.toString()]. *)
Definition numToString (n : option Z) : string :=
  match n with
  | None => "NaN"
  | Some z => pretty z
  end.

(** [ToInt32] and [ToUint32]. *)
Definition toUint32 (n : option Z) : Z :=
  match n with
  | None => 0
  | Some z => z mod 2 ^ 32
  end.

Definition toInt32 (n : option Z) : Z :=
  let u := toUint32 n in
  if u <? 2 ^ 31 then u else u - 2 ^ 32.

(** [a << k]: both operands converted, the count taken modulo 32. *)
Definition shl (a k : option Z) : Z :=
  toInt32 (Some (toInt32 a * 2 ^ (toUint32 k mod 32))).

(** [a & b]. *)
Definition band (a b : option Z) : Z := Z.land (toInt32 a) (toInt32 b).

(** [a + b] on numbers. *)
Definition nadd (a b : option Z) : option Z :=
  match a, b with
  | Some x, Some y => Some (x + y)
  | _, _ => None
  end.

Definition lowerChar (c : ascii) : ascii :=
  let n := code c in
  if ((65 <=? n) && (n <=? 90))
     || ((192 <=? n) && (n <=? 222) && negb (n =? 215))
  then ascii_of_nat (Z.to_nat (n + 32)) else c.

(** [String.prototype.toLowerCase()]. *)
Fixpoint toLowerCase (s : string) : string :=
  match s with
  | EmptyString => EmptyString
  | String c r => String (lowerChar c) (toLowerCase r)
  end.

(** [s.startsWith(p)]. *)
Definition startsWith (s p : string) : bool := String.prefix p s.

(** [s.substring(0, n)]: the end index is clamped to [0 .. s.length]. *)
Fixpoint takeStr (n : nat) (s : string) : string :=
  match n, s with
  | S k, String c r => String c (takeStr k r)
  | _, _ => EmptyString
  end.

Definition substring0 (s : string) (n : Z) : string := takeStr (Z.to_nat n) s.

(** [s.includes(t)]. *)
Fixpoint strIncludes (s t : string) : bool :=
  String.prefix t s ||
  match s with
  | EmptyString => false
  | String _ r => strIncludes r t
  end.

(** [s.padStart(2, '0')]. *)
Definition padStart2 (s : string) : string :=
  match s with
  | EmptyString => "00"
  | String c EmptyString => String "0"%char s
  | _ => s
  end.

(** [a >= b] and [a <= b] on two strings: code unit order. *)
Definition strLe (a b : string) : bool :=
  match String.compare a b with
  | Gt => false
  | _ => true
  end.

(* ================================================================== *)
(** * JavaScript values *)
(* ================================================================== *)

(** Rules, triggers and provider answers are JSON-like data.  The
    properties of an object are listed in enumeration order, the order
    [Object.keys] and [JSON.stringify] follow. *)
#[warnings="-register-all"]
Inductive JsValue : Type :=
| JUndefined
| JNull
| JBool (b : bool)
| JNum (n : Z)
| JStr (s : string)
| JArr (items : list JsValue)
| JObj (props : list (string * JsValue)).

(** What a [throw] carries: an [Error] with its message, or another value. *)
Inductive Thrown : Type :=
| ErrorObj (message : string)
| NonError.

(** Outcome of a block that may throw. *)
Inductive Res (A : Type) : Type :=
| Ok (a : A)
| Throw (e : Thrown).
Arguments Ok {A} a.
Arguments Throw {A} e.

(** The [TypeError] the runtime raises on a property read of [undefined] or
    [null] and on a call of something that is not a function.  The wording of
    its message belongs to the JavaScript engine and is not modelled. *)
Definition TypeError : Thrown := ErrorObj "TypeError".

(** [error instanceof Error ? error.message : fallback]. *)
Definition errorMessageOf (e : Thrown) (fallback : string) : string :=
  match e with
  | ErrorObj m => m
  | NonError => fallback
  end.

(** Truthiness, as tested by [if (v)], [!v], [a && b] and [a || b]. *)
Definition truthy (v : JsValue) : bool :=
  match v with
  | JUndefined | JNull => false
  | JBool b => b
  | JNum n => negb (n =? 0)
  | JStr s => negb (String.eqb s "")
  | JArr _ | JObj _ => true
  end.

(** [a || b]. *)
Definition orElse (a b : JsValue) : JsValue := if truthy a then a else b.

(** [a === b] where one side is a primitive value.  Two arrays or objects
    are equal only if they are the same object, which never is the case
    between rule data and a value obtained from the browser. *)
Definition strictEq (a b : JsValue) : bool :=
  match a, b with
  | JUndefined, JUndefined => true
  | JNull, JNull => true
  | JBool x, JBool y => Bool.eqb x y
  | JNum x, JNum y => x =? y
  | JStr x, JStr y => String.eqb x y
  | _, _ => false
  end.

Fixpoint lookupProp (k : string) (props : list (string * JsValue)) : JsValue :=
  match props with
  | [] => JUndefined
  | (k', v) :: rest => if String.eqb k k' then v else lookupProp k rest
  end.

(** The position named by an array index key below [len]. *)
Definition arrayIndex (k : string) (len : nat) : option nat :=
  List.find (fun i => String.eqb (pretty (Z.of_nat i)) k) (seq 0 len).

Definition charAt (s : string) (i : nat) : JsValue :=
  match String.get i s with
  | Some c => JStr (String c EmptyString)
  | None => JUndefined
  end.

(** [v.k] and [v[k]] for the own properties of [v].  None of the names the
    engine reads ([url], [hostname], [org], ...) is inherited from a
    prototype, so own properties are all there is to find. *)
Definition getProp (v : JsValue) (k : string) : Res JsValue :=
  match v with
  | JUndefined | JNull => Throw TypeError
  | JBool _ | JNum _ => Ok JUndefined
  | JStr s =>
      if String.eqb k "length" then Ok (JNum (Z.of_nat (String.length s)))
      else match arrayIndex k (String.length s) with
           | Some i => Ok (charAt s i)
           | None => Ok JUndefined
           end
  | JArr l =>
      if String.eqb k "length" then Ok (JNum (Z.of_nat (length l)))
      else match arrayIndex k (length l) with
           | Some i => Ok (nth i l JUndefined)
           | None => Ok JUndefined
           end
  | JObj props => Ok (lookupProp k props)
  end.

Definition indexKeys (len : nat) : list string :=
  map (fun i => pretty (Z.of_nat i)) (seq 0 len).

(** [Object.keys(v)]. *)
Definition objectKeys (v : JsValue) : Res (list string) :=
  match v with
  | JUndefined | JNull => Throw TypeError
  | JBool _ | JNum _ => Ok []
  | JStr s => Ok (indexKeys (String.length s))
  | JArr l => Ok (indexKeys (length l))
  | JObj props => Ok (map fst props)
  end.

(** [String(v)], as [Array.prototype.join] and [ToPrimitive] apply it. *)
Fixpoint toStringJs (v : JsValue) : string :=
  match v with
  | JUndefined => "undefined"
  | JNull => "null"
  | JBool true => "true"
  | JBool false => "false"
  | JNum n => pretty n
  | JStr s => s
  | JArr l =>
      String.concat ","
        (map (fun x => match x with
                       | JUndefined | JNull => ""
                       | _ => toStringJs x
                       end) l)
  | JObj _ => "[object Object]"
  end.

(** ** [JSON.stringify] *)

Definition dquote : ascii := "034"%char.
Definition backslash : ascii := "092"%char.

Definition hexChar (n : Z) : ascii :=
  if n <? 10 then ascii_of_nat (Z.to_nat (48 + n))
  else ascii_of_nat (Z.to_nat (87 + n)).

Definition escapeChar (c : ascii) : string :=
  let n := code c in
  if n =? 34 then String backslash (String dquote EmptyString)
  else if n =? 92 then String backslash (String backslash EmptyString)
  else if n =? 8 then String backslash "b"
  else if n =? 12 then String backslash "f"
  else if n =? 10 then String backslash "n"
  else if n =? 13 then String backslash "r"
  else if n =? 9 then String backslash "t"
  else if n <? 32 then
    String backslash
      ("u00" ++ String (hexChar (n / 16)) (String (hexChar (n mod 16)) EmptyString))
  else String c EmptyString.

Fixpoint escapeString (s : string) : string :=
  match s with
  | EmptyString => EmptyString
  | String c r => escapeChar c ++ escapeString r
  end.

(** [QuoteJSONString]. *)
Definition quoteJSON (s : string) : string :=
  String dquote (escapeString s ++ String dquote EmptyString).

(** [JSON.stringify(v)]; [None] is the [undefined] it returns for
    [undefined].  A property whose value is [undefined] is left out of an
    object, an [undefined] element of an array is written [null]. *)
Fixpoint stringify (v : JsValue) : option string :=
  match v with
  | JUndefined => None
  | JNull => Some "null"
  | JBool true => Some "true"
  | JBool false => Some "false"
  | JNum n => Some (pretty n)
  | JStr s => Some (quoteJSON s)
  | JArr l =>
      Some ("[" ++ String.concat ","
                     (map (fun x => match stringify x with
                                    | Some t => t
                                    | None => "null"
                                    end) l) ++ "]")
  | JObj props =>
      Some ("{" ++ String.concat ","
                     (omap (fun kv => match stringify (snd kv) with
                                      | Some t => Some (quoteJSON (fst kv) ++ ":" ++ t)
                                      | None => None
                                      end) props) ++ "}")
  end.

(** A value interpolated in a template literal: [`${JSON.stringify(v)}`]. *)
Definition stringifyText (v : JsValue) : string :=
  match stringify v with
  | Some t => t
  | None => "undefined"
  end.

(* ================================================================== *)
(** * CIDR / address matcher ([probes.js], [isIPInCIDR] and helpers) *)
(* ================================================================== *)

Definition isIPv4Part (part : string) : bool :=
  match parseInt part with
  | None => false
  | Some num =>
      (0 <=? num) && (num <=? 255) && String.eqb part (numToString (Some num))
  end.

(** [isIPv4(ip)] on a string. *)
Definition isIPv4 (ip : string) : bool :=
  let parts := split "."%char ip in
  (length parts =? 4)%nat && forallb isIPv4Part parts.

Definition isHexDigit (c : ascii) : bool :=
  let n := code c in
  ((48 <=? n) && (n <=? 57)) || ((97 <=? n) && (n <=? 102))
  || ((65 <=? n) && (n <=? 70)).

Fixpoint allHex (s : string) : bool :=
  match s with
  | EmptyString => true
  | String c r => isHexDigit c && allHex r
  end.

Definition isHexGroup (s : string) : bool :=
  allHex s && (String.length s <=? 4)%nat.

(** The regular expression [/^([0-9a-fA-F]{0,4}:){1,7}[0-9a-fA-F]{0,4}$/]:
    hex digits never match a colon, so a string matches exactly when cutting
    it at its colons gives between two and eight groups, each of at most four
    hex digits. *)
Definition isIPv6 (ip : string) : bool :=
  let groups := split ":"%char ip in
  (2 <=? length groups)%nat && (length groups <=? 8)%nat
  && forallb isHexGroup groups.

Definition ipv4ToNumber (ip : string) : Z :=
  toUint32
    (fold_left (fun acc part => nadd (Some (shl acc (Some 8))) (parseInt part))
       (split "."%char ip) (Some 0)).

Definition isIPv4InCIDR (ip network : string) (prefix : Z) : bool :=
  let ipNum := ipv4ToNumber ip in
  let networkNum := ipv4ToNumber network in
  let mask := shl (Some 4294967295) (Some (32 - prefix)) in
  band (Some ipNum) (Some mask) =? band (Some networkNum) (Some mask).

Definition isIPv6InCIDR (ip network : string) (prefix : Z) : bool :=
  startsWith (toLowerCase ip)
    (substring0 (toLowerCase network) (prefix / 4)).

(** The receiver of a string method ([split], [toLowerCase]): anything but
    a string has no such method and the call raises a [TypeError]. *)
Definition asString (v : JsValue) : Res string :=
  match v with
  | JStr s => Ok s
  | _ => Throw TypeError
  end.

(** The body of the [try] block of [isIPInCIDR].  [cidr.split] is the first
    thing evaluated; [ip.split] is reached only through [isIPv4(ip)], after
    the two early returns. *)
Definition isIPInCIDR_try (ip cidr : JsValue) : Res bool :=
  match asString cidr with
  | Throw e => Throw e
  | Ok cidrStr =>
      match split "/"%char cidrStr with
      | [network; prefixStr] =>
          match parseInt prefixStr with
          | None => Ok false
          | Some prefix =>
              match asString ip with
              | Throw e => Throw e
              | Ok ipStr =>
                  if isIPv4 ipStr && isIPv4 network then
                    Ok (isIPv4InCIDR ipStr network prefix)
                  else if isIPv6 ipStr && isIPv6 network then
                    Ok (isIPv6InCIDR ipStr network prefix)
                  else Ok false
              end
          end
      | _ => Ok false
      end
  end.

(** [isIPInCIDR]: the [catch] turns any exception of the body into [false]. *)
Definition isIPInCIDR (ip cidr : JsValue) : Res bool :=
  match isIPInCIDR_try ip cidr with
  | Ok b => Ok b
  | Throw _ => Ok false
  end.

(* ================================================================== *)
(** * The browser, the engine state and the monad of effects *)
(* ================================================================== *)

Inductive LogLevel : Type := LDebug | LInfo | LWarn | LError.

(** A call made to a logger of [log.js]: component, level and message (the
    data object passed along is left out). *)
Record LogEntry : Type := mkLog {
  component : string;
  level : LogLevel;
  message : string
}.

(** [ProbeResult] of [models.d.ts].  [success] is kept as the value the
    probe stored ([testManualFlag] stores [trigger.value] as it is); [data]
    and [error] are [undefined] / absent when the probe does not set them. *)
Record ProbeResult : Type := mkProbeResult {
  success : JsValue;
  data : JsValue;
  error : option string;
  timestamp : Z
}.

Record CacheEntry : Type := mkCacheEntry {
  result : ProbeResult;
  expiry : Z
}.

(** What [fetch] resolves to: the fields of the [Response] the probes read,
    and what [response.json()] gives. *)
Record Response : Type := mkResponse {
  ok : bool;
  status : Z;
  statusText : string;
  json : Res JsValue
}.

(** What [browser.dns.resolve] resolves to. *)
Record DnsRecord : Type := mkDnsRecord {
  addresses : option (list string);
  canonicalName : JsValue
}.

(** The world outside the engine.  The first argument of an oracle is the
    number of interactions made before the call.  [numericStringPositive s]
    is the runtime's [Number(s) > 0] on a string, which only a malformed
    trigger can reach (an object with a string-valued [length]). *)
Record Env : Type := mkEnv {
  dateNow : nat -> Z;
  localTime : nat -> Z * Z * Z;
  fetch : nat -> JsValue -> JsValue -> Res Response;
  dnsResolve : nat -> JsValue -> Res (option DnsRecord);
  captivePortalGetState : nat -> Res JsValue;
  numericStringPositive : string -> bool
}.

(** The state of the two singletons: [ruleEngine.probeCache], the position
    in the oracles, the calls made to the loggers and, as a history
    variable, the calls made to the probe executor (trigger type and
    trigger of each [probeService.test...] call, latest last).  The
    [abortControllers] registry of [ProbeService] only serves
    [abortAllProbes] and is left out. *)
Record St : Type := mkSt {
  probeCache : gmap string CacheEntry;
  tick : nat;
  logged : list LogEntry;
  probed : list (string * JsValue)
}.

Definition M (A : Type) : Type := St -> Res A * St.

Definition ret {A} (a : A) : M A := fun s => (Ok a, s).

Definition bind {A B} (m : M A) (k : A -> M B) : M B :=
  fun s => match m s with
           | (Ok a, s') => k a s'
           | (Throw e, s') => (Throw e, s')
           end.

Definition throw {A} (e : Thrown) : M A := fun s => (Throw e, s).

(** [try { body } catch (error) { handler }]. *)
Definition tryCatch {A} (body : M A) (handler : Thrown -> M A) : M A :=
  fun s => match body s with
           | (Ok a, s') => (Ok a, s')
           | (Throw e, s') => handler e s'
           end.

(** Runs a computation and hands back its outcome instead of throwing. *)
Definition attempt {A} (m : M A) : M (Res A) :=
  fun s => match m s with
           | (r, s') => (Ok r, s')
           end.

Definition liftRes {A} (r : Res A) : M A := fun s => (r, s).

Declare Scope js_scope.
Delimit Scope js_scope with js.
Notation "x <- c ;; k" := (bind c (fun x => k))
  (at level 100, c at next level, right associativity) : js_scope.
Notation "c ;;; k" := (bind c (fun _ => k))
  (at level 100, right associativity) : js_scope.
Local Open Scope js_scope.

Definition bumpTick (s : St) : St :=
  mkSt (probeCache s) (S (tick s)) (logged s) (probed s).

Definition log (c : string) (l : LogLevel) (msg : string) : M unit :=
  fun s => (Ok tt, mkSt (probeCache s) (tick s) (logged s ++ [mkLog c l msg]) (probed s)).

Definition recordProbe (triggerType : string) (trigger : JsValue) : M unit :=
  fun s => (Ok tt, mkSt (probeCache s) (tick s) (logged s)
                     (probed s ++ [(triggerType, trigger)])).

Definition cacheGet (k : string) : M (option CacheEntry) :=
  fun s => (Ok (probeCache s !! k), s).

Definition cacheSet (k : string) (e : CacheEntry) : M unit :=
  fun s => (Ok tt, mkSt (<[k := e]> (probeCache s)) (tick s) (logged s) (probed s)).

Section WithEnv.

Variable env : Env.

(** [Date.now()]. *)
Definition now : M Z := fun s => (Ok (dateNow env (tick s)), bumpTick s).

(** [new Date()] read through [getDay()], [getHours()], [getMinutes()]. *)
Definition newDate : M (Z * Z * Z) :=
  fun s => (Ok (localTime env (tick s)), bumpTick s).

Definition doFetch (url method : JsValue) : M Response :=
  fun s => (fetch env (tick s) url method, bumpTick s).

Definition doDnsResolve (hostname : JsValue) : M (option DnsRecord) :=
  fun s => (dnsResolve env (tick s) hostname, bumpTick s).

Definition doCaptivePortalGetState : M JsValue :=
  fun s => (captivePortalGetState env (tick s), bumpTick s).

(** [v > 0]. *)
Definition gtZero (v : JsValue) : bool :=
  match v with
  | JUndefined | JNull | JObj _ => false
  | JBool b => b
  | JNum n => 0 <? n
  | JStr s => numericStringPositive env s
  | JArr _ => numericStringPositive env (toStringJs v)
  end.

(** [v && v.length > 0]. *)
Definition nonEmpty (v : JsValue) : bool :=
  truthy v &&
  match getProp v "length" with
  | Ok len => gtZero len
  | Throw _ => false
  end.

(* ================================================================== *)
(** * The probe executor ([probes.js], class [ProbeService]) *)
(* ================================================================== *)

Definition failure (msg : string) (t : Z) : ProbeResult :=
  mkProbeResult (JBool false) JUndefined (Some msg) t.

(** [arr.some(f)] where [f] may throw: stops at the first [true]. *)
Fixpoint someRes {A} (f : A -> Res bool) (l : list A) : Res bool :=
  match l with
  | [] => Ok false
  | x :: xs =>
      match f x with
      | Ok true => Ok true
      | Ok false => someRes f xs
      | Throw e => Throw e
      end
  end.

(** [cidrs.some(cidr => this.isIPInCIDR(address, cidr))]: only an array has
    [some]. *)
Definition someCIDR (address : string) (cidrs : JsValue) : Res bool :=
  match cidrs with
  | JArr l => someRes (fun cidr => isIPInCIDR (JStr address) cidr) l
  | _ => Throw TypeError
  end.

Definition checkIPInCIDRRanges (addrs : list string) (cidrs : JsValue) : Res bool :=
  someRes (fun address => someCIDR address cidrs) addrs.

(** [expectedIPs.includes(addr)]: membership in an array, substring search
    in a string, a [TypeError] on anything else. *)
Definition includesAddr (expectedIPs : JsValue) (addr : string) : Res bool :=
  match expectedIPs with
  | JArr l => Ok (existsb (strictEq (JStr addr)) l)
  | JStr s => Ok (strIncludes s addr)
  | _ => Throw TypeError
  end.

Definition testReachability (trigger : JsValue) : M ProbeResult :=
  _ <- now ;;
  url <- liftRes (getProp trigger "url") ;;
  method <- liftRes (getProp trigger "method") ;;
  log "Probes" LDebug "Testing reachability" ;;;
  tryCatch
    (response <- doFetch url (orElse method (JStr "HEAD")) ;;
     expect <- liftRes (getProp trigger "expectStatus") ;;
     let expectStatus := orElse expect (JNum 200) in
     let ok_ := strictEq (JNum (status response)) expectStatus in
     log "Probes" LDebug "Reachability test completed" ;;;
     t <- now ;;
     ret (mkProbeResult (JBool ok_)
            (JObj [("status", JNum (status response));
                   ("statusText", JStr (statusText response));
                   ("headers", JObj [])])
            None t))
    (fun e =>
       let errorMessage := errorMessageOf e "Unknown error" in
       log "Probes" LWarn "Reachability test failed" ;;;
       t <- now ;;
       ret (failure errorMessage t)).

Definition testDnsResolve (trigger : JsValue) : M ProbeResult :=
  hostname <- liftRes (getProp trigger "hostname") ;;
  log "Probes" LDebug "Testing DNS resolution" ;;;
  tryCatch
    (dnsResult <- doDnsResolve hostname ;;
     match dnsResult with
     | Some (mkDnsRecord (Some (a :: rest)) cname) =>
         let addrs := a :: rest in
         expect <- liftRes (getProp trigger "expectIPCIDR") ;;
         inRange <- (if nonEmpty expect
                     then liftRes (checkIPInCIDRRanges addrs expect)
                     else ret true) ;;
         matches <- liftRes (getProp trigger "matches") ;;
         ok_ <- (if strictEq matches (JStr "exact") && truthy expect
                 then liftRes (someRes (includesAddr expect) addrs)
                 else ret inRange) ;;
         log "Probes" LDebug "DNS resolution completed" ;;;
         t <- now ;;
         ret (mkProbeResult (JBool ok_)
                (JObj [("addresses", JArr (map JStr addrs));
                       ("canonicalName", cname)])
                None t)
     | _ =>
         t <- now ;;
         ret (failure "No addresses resolved" t)
     end)
    (fun e =>
       let errorMessage := errorMessageOf e "DNS resolution failed" in
       log "Probes" LWarn "DNS resolution failed" ;;;
       t <- now ;;
       ret (failure errorMessage t)).

Definition testCaptivePortal (trigger : JsValue) : M ProbeResult :=
  expected <- liftRes (getProp trigger "state") ;;
  log "Probes" LDebug "Testing captive portal state" ;;;
  tryCatch
    (state <- doCaptivePortalGetState ;;
     let ok_ := strictEq state expected in
     log "Probes" LDebug "Captive portal test completed" ;;;
     t <- now ;;
     ret (mkProbeResult (JBool ok_) (JObj [("state", state)]) None t))
    (fun e =>
       let errorMessage := errorMessageOf e "Captive portal check failed" in
       log "Probes" LWarn "Captive portal test failed" ;;;
       t <- now ;;
       ret (failure errorMessage t)).

(** [data.org.toLowerCase().includes(trigger.expectOrg.toLowerCase())]. *)
Definition orgMatches (org expectOrg : JsValue) : Res bool :=
  match asString org with
  | Throw e => Throw e
  | Ok o =>
      match asString expectOrg with
      | Throw e => Throw e
      | Ok x => Ok (strIncludes (toLowerCase o) (toLowerCase x))
      end
  end.

(** [data.country.toLowerCase() === trigger.expectCountry.toLowerCase()]. *)
Definition countryMatches (country expectCountry : JsValue) : Res bool :=
  match asString country with
  | Throw e => Throw e
  | Ok c =>
      match asString expectCountry with
      | Throw e => Throw e
      | Ok x => Ok (String.eqb (toLowerCase c) (toLowerCase x))
      end
  end.

(** [trigger.expectX && data.x]: the provider's field is read only when the
    expectation is truthy. *)
Definition expectedAndPresent (expectX : JsValue) (dataV : JsValue) (field : string)
  : Res (option JsValue) :=
  if truthy expectX then
    match getProp dataV field with
    | Throw e => Throw e
    | Ok x => Ok (if truthy x then Some x else None)
    end
  else Ok None.

Definition testIpInfo (trigger : JsValue) : M ProbeResult :=
  providerUrl <- liftRes (getProp trigger "providerUrl") ;;
  let url := orElse providerUrl (JStr "https://ipinfo.io/json") in
  _ <- now ;;
  expectOrg <- liftRes (getProp trigger "expectOrg") ;;
  expectCountry <- liftRes (getProp trigger "expectCountry") ;;
  log "Probes" LDebug "Testing IP info" ;;;
  tryCatch
    (response <- doFetch url JUndefined ;;
     (if ok response then ret tt
      else throw (ErrorObj ("HTTP " ++ pretty (status response) ++ ": "
                              ++ statusText response))) ;;;
     dataV <- liftRes (json response) ;;
     org <- liftRes (expectedAndPresent expectOrg dataV "org") ;;
     ok1 <- (match org with
             | Some o => liftRes (orgMatches o expectOrg)
             | None => ret true
             end) ;;
     country <- liftRes (expectedAndPresent expectCountry dataV "country") ;;
     ok2 <- (match country with
             | Some c => if ok1 then liftRes (countryMatches c expectCountry)
                         else ret false
             | None => ret ok1
             end) ;;
     _ <- liftRes (getProp dataV "org") ;;
     log "Probes" LDebug "IP info test completed" ;;;
     t <- now ;;
     ret (mkProbeResult (JBool ok2) dataV None t))
    (fun e =>
       let errorMessage := errorMessageOf e "IP info request failed" in
       log "Probes" LWarn "IP info test failed" ;;;
       t <- now ;;
       ret (failure errorMessage t)).

(** [trigger.days.includes(currentDay)]. *)
Definition includesDay (days : JsValue) (currentDay : Z) : Res bool :=
  match days with
  | JArr l => Ok (existsb (strictEq (JNum currentDay)) l)
  | JStr s => Ok (strIncludes s (pretty currentDay))
  | _ => Throw TypeError
  end.

(** [currentTime >= v] and [currentTime <= v].  A string, and the string an
    array or object converts to, is compared by code units; against a number
    or boolean the text [HH:MM] converts to [NaN] and the comparison is
    false. *)
Definition timeGe (currentTime : string) (v : JsValue) : bool :=
  match v with
  | JStr s => strLe s currentTime
  | JArr _ | JObj _ => strLe (toStringJs v) currentTime
  | _ => false
  end.

Definition timeLe (currentTime : string) (v : JsValue) : bool :=
  match v with
  | JStr s => strLe currentTime s
  | JArr _ | JObj _ => strLe currentTime (toStringJs v)
  | _ => false
  end.

Definition testTimeWindow (trigger : JsValue) : M ProbeResult :=
  d <- newDate ;;
  let '(day, hours, minutes) := d in
  let currentDay := if day =? 0 then 7 else day in
  let currentTime := padStart2 (pretty hours) ++ ":" ++ padStart2 (pretty minutes) in
  days <- liftRes (getProp trigger "days") ;;
  ok1 <- (if nonEmpty days then liftRes (includesDay days currentDay)
          else ret true) ;;
  from <- liftRes (getProp trigger "from") ;;
  to <- liftRes (getProp trigger "to") ;;
  let ok2 := if truthy from && truthy to
             then ok1 && timeGe currentTime from && timeLe currentTime to
             else ok1 in
  log "Probes" LDebug "Time window test completed" ;;;
  tz <- liftRes (getProp trigger "tz") ;;
  t <- now ;;
  ret (mkProbeResult (JBool ok2)
         (JObj [("currentDay", JNum currentDay);
                ("currentTime", JStr currentTime);
                ("timezone", orElse tz (JStr "system"))])
         None t).

Definition testManualFlag (trigger : JsValue) : M ProbeResult :=
  value <- liftRes (getProp trigger "value") ;;
  log "Probes" LDebug "Manual flag test completed" ;;;
  t <- now ;;
  ret (mkProbeResult value (JObj [("value", value)]) None t).

End WithEnv.

(* ================================================================== *)
(** * The rule engine ([rules.js], class [RuleEngine]) *)
(* ================================================================== *)

(** [Rule] of [models.d.ts].  [when] and [then] stay JSON values: the
    engine enumerates and indexes them dynamically. *)
Record Rule : Type := mkRule {
  id : string;
  name : string;
  enabled : bool;
  priority : Z;
  stopOnMatch : bool;
  when : JsValue;
  then_ : JsValue
}.

(** [Required<EvaluationOptions>]. *)
Record Options : Type := mkOptions {
  timeout : Z;
  enableCache : bool;
  cacheTimeout : Z
}.

(** [EvaluationOptions]: every field optional, absent ([None]) or holding a
    value. *)
Record EvaluationOptions : Type := mkEvaluationOptions {
  timeout_opt : option Z;
  enableCache_opt : option bool;
  cacheTimeout_opt : option Z
}.

Definition DEFAULT_OPTIONS : Options := mkOptions 30000 true 60000.

Definition noOptions : EvaluationOptions := mkEvaluationOptions None None None.

(** [{ ...this.DEFAULT_OPTIONS, ...options }]. *)
Definition withDefaults (options : EvaluationOptions) : Options :=
  mkOptions (default (timeout DEFAULT_OPTIONS) (timeout_opt options))
            (default (enableCache DEFAULT_OPTIONS) (enableCache_opt options))
            (default (cacheTimeout DEFAULT_OPTIONS) (cacheTimeout_opt options)).

(** Complete options passed where [EvaluationOptions] is expected. *)
Definition asEvaluationOptions (o : Options) : EvaluationOptions :=
  mkEvaluationOptions (Some (timeout o)) (Some (enableCache o)) (Some (cacheTimeout o)).

(** What [evaluateRule] returns. *)
Record RuleOutcome : Type := mkRuleOutcome {
  ruleMatched : bool;
  ruleResults : gmap string ProbeResult
}.

(** [RuleEvaluationResult]. *)
Record RuleEvaluationResult : Type := mkEvaluation {
  matched : bool;
  rule : option Rule;
  profileId : option JsValue;
  results : gmap string ProbeResult;
  evaluationTime : Z
}.

(** [`${triggerType}_${JSON.stringify(trigger)}`]. *)
Definition cacheKey (triggerType : string) (trigger : JsValue) : string :=
  triggerType ++ "_" ++ stringifyText trigger.

(** [obj[key] = value] on a plain object, as [results[probeKey] = result]
    does it.  The key [__proto__] reaches the setter inherited from
    [Object.prototype]: it replaces the prototype of the object and adds no
    own property, so nothing is there for [Object.keys] or a spread to see. *)
Definition setOwn (key : string) (v : ProbeResult) (m : gmap string ProbeResult)
  : gmap string ProbeResult :=
  if String.eqb key "__proto__" then m else <[key := v]> m.

(** Stable insertion by ascending priority. *)
Fixpoint insertByPriority (r : Rule) (l : list Rule) : list Rule :=
  match l with
  | [] => [r]
  | x :: xs =>
      if priority x <? priority r then x :: insertByPriority r xs
      else r :: x :: xs
  end.

(** [.sort((a, b) => a.priority - b.priority)].  [Array.prototype.sort] is
    stable, and this comparator is a consistent one on integers, so the
    outcome is the one stable ascending arrangement, whatever algorithm the
    engine runs; it is computed here by insertion. *)
Definition sortByPriority (l : list Rule) : list Rule :=
  fold_right insertByPriority [] l.

(** [Object.values(rules).filter(rule => rule.enabled).sort(...)]; [rules]
    lists the properties of the rule mapping in enumeration order. *)
Definition enabledRules (rules : list (string * Rule)) : list Rule :=
  sortByPriority (filter (fun r => enabled r = true) (map snd rules)).

Section Engine.

Variable env : Env.

(** The [switch] of [getProbeResult]: the call to the probe executor. *)
Definition execProbe (triggerType : string) (trigger : JsValue) : M ProbeResult :=
  if String.eqb triggerType "reachability" then
    recordProbe triggerType trigger ;;; testReachability env trigger
  else if String.eqb triggerType "dnsResolve" then
    recordProbe triggerType trigger ;;; testDnsResolve env trigger
  else if String.eqb triggerType "captivePortal" then
    recordProbe triggerType trigger ;;; testCaptivePortal env trigger
  else if String.eqb triggerType "ipInfo" then
    recordProbe triggerType trigger ;;; testIpInfo env trigger
  else if String.eqb triggerType "timeWindow" then
    recordProbe triggerType trigger ;;; testTimeWindow env trigger
  else if String.eqb triggerType "manualFlag" then
    recordProbe triggerType trigger ;;; testManualFlag env trigger
  else throw (ErrorObj ("Unknown trigger type: " ++ triggerType)).

(** The cache lookup at the head of [getProbeResult]:
    [cached && cached.expiry > Date.now()]; the clock is read only when an
    entry exists. *)
Definition cacheLookup (key : string) : M (option ProbeResult) :=
  cached <- cacheGet key ;;
  match cached with
  | Some c =>
      t <- now env ;;
      if t <? expiry c then
        log "RuleEngine" LDebug "Using cached probe result" ;;;
        ret (Some (result c))
      else ret None
  | None => ret None
  end.

Definition getProbeResult (triggerType : string) (trigger : JsValue)
    (options : Options) : M ProbeResult :=
  let key := cacheKey triggerType trigger in
  hit <- (if enableCache options then cacheLookup key else ret None) ;;
  match hit with
  | Some r => ret r
  | None =>
      r <- execProbe triggerType trigger ;;
      (if enableCache options then
         t <- now env ;;
         cacheSet key (mkCacheEntry r (t + cacheTimeout options))
       else ret tt) ;;;
      ret r
  end.

(** One turn of the [for (const triggerType of triggerKeys)] loop of
    [evaluateRule], on the loop variables [overallMatch] and [results]. *)
Definition evaluateTrigger (r : Rule) (opts : Options) (triggerType : string)
    (acc : bool * gmap string ProbeResult) : M (bool * gmap string ProbeResult) :=
  let '(overallMatch, res) := acc in
  trigger <- liftRes (getProp (when r) triggerType) ;;
  if negb (truthy trigger) then ret acc
  else
    let probeKey := id r ++ "_" ++ triggerType in
    outcome <- attempt (getProbeResult triggerType trigger opts) ;;
    match outcome with
    | Ok pr =>
        if negb (truthy (success pr)) then
          log "RuleEngine" LDebug "Trigger failed" ;;;
          ret (false, setOwn probeKey pr res)
        else
          log "RuleEngine" LDebug "Trigger succeeded" ;;;
          ret (overallMatch, setOwn probeKey pr res)
    | Throw e =>
        let errorMessage := errorMessageOf e "Unknown error" in
        log "RuleEngine" LError "Error testing trigger" ;;;
        t <- now env ;;
        ret (false, setOwn probeKey (failure errorMessage t) res)
    end.

Fixpoint evaluateTriggers (r : Rule) (opts : Options) (triggerKeys : list string)
    (acc : bool * gmap string ProbeResult) : M (bool * gmap string ProbeResult) :=
  match triggerKeys with
  | [] => ret acc
  | triggerType :: rest =>
      acc' <- evaluateTrigger r opts triggerType acc ;;
      evaluateTriggers r opts rest acc'
  end.

Definition evaluateRule (r : Rule) (options : EvaluationOptions) : M RuleOutcome :=
  let opts := withDefaults options in
  log "RuleEngine" LDebug "Evaluating individual rule triggers" ;;;
  triggerKeys <- liftRes (objectKeys (when r)) ;;
  match triggerKeys with
  | [] =>
      log "RuleEngine" LWarn "Rule has no triggers" ;;;
      ret (mkRuleOutcome false ∅)
  | _ =>
      acc <- evaluateTriggers r opts triggerKeys (true, ∅) ;;
      log "RuleEngine" LDebug "Rule evaluation completed" ;;;
      ret (mkRuleOutcome (fst acc) (snd acc))
  end.

(** The [catch] block of the loop of [evaluateRules]. *)
Definition ruleFailed (r : Rule) (allResults : gmap string ProbeResult) (e : Thrown)
  : M (gmap string ProbeResult) :=
  let errorMessage := errorMessageOf e "Unknown error" in
  log "RuleEngine" LError "Error evaluating rule" ;;;
  t <- now env ;;
  ret (setOwn (id r ++ "_error") (failure errorMessage t) allResults).

(** How one turn of the [for (const rule of enabledRules)] loop ends: the
    loop goes on with the accumulated results, or [evaluateRules] returns. *)
Inductive LoopStep : Type :=
| Continue (allResults : gmap string ProbeResult)
| Return (res : RuleEvaluationResult).

(** The body of the loop of [evaluateRules]: the [try] block and its
    [catch], which sees [allResults] as the [try] block left it. *)
Definition ruleTurn (opts : Options) (startTime : Z) (r : Rule)
    (allResults : gmap string ProbeResult) : M LoopStep :=
  log "RuleEngine" LDebug "Evaluating rule" ;;;
  outcome <- attempt (evaluateRule r (asEvaluationOptions opts)) ;;
  match outcome with
  | Throw e =>
      allResults' <- ruleFailed r allResults e ;;
      ret (Continue allResults')
  | Ok ruleOutcome =>
      let merged := ruleResults ruleOutcome ∪ allResults in
      if ruleMatched ruleOutcome then
        match getProp (then_ r) "setActiveProfile" with
        | Throw e =>
            allResults' <- ruleFailed r merged e ;;
            ret (Continue allResults')
        | Ok target =>
            log "RuleEngine" LInfo "Rule matched" ;;;
            t <- now env ;;
            ret (Return (mkEvaluation true (Some r) (Some target) merged
                           (t - startTime)))
        end
      else
        (if stopOnMatch r then
           log "RuleEngine" LDebug
             "Rule did not match but has stopOnMatch, continuing to next rule"
         else ret tt) ;;;
        ret (Continue merged)
  end.

(** The loop of [evaluateRules] and what follows it. *)
Fixpoint evaluateLoop (opts : Options) (startTime : Z) (rs : list Rule)
    (allResults : gmap string ProbeResult) : M RuleEvaluationResult :=
  match rs with
  | [] =>
      log "RuleEngine" LInfo "No rules matched" ;;;
      t <- now env ;;
      ret (mkEvaluation false None None allResults (t - startTime))
  | r :: rest =>
      step <- ruleTurn opts startTime r allResults ;;
      match step with
      | Continue allResults' => evaluateLoop opts startTime rest allResults'
      | Return res => ret res
      end
  end.

Definition evaluateRules (rules : list (string * Rule)) (options : EvaluationOptions)
  : M RuleEvaluationResult :=
  startTime <- now env ;;
  let opts := withDefaults options in
  log "RuleEngine" LInfo "Starting rule evaluation" ;;;
  match enabledRules rules with
  | [] =>
      log "RuleEngine" LWarn "No enabled rules found" ;;;
      t <- now env ;;
      ret (mkEvaluation false None None ∅ (t - startTime))
  | rs => evaluateLoop opts startTime rs ∅
  end.

(** [cleanExpiredCache]: collects the keys whose entry has
    [expiry <= now], then deletes them. *)
Definition cleanExpiredCache : M unit :=
  t <- now env ;;
  fun s =>
    let expired := filter (fun kv => expiry (snd kv) <= t) (probeCache s) in
    (if (0 <? size expired)%nat
     then log "RuleEngine" LDebug "Cleaned expired cache entries"
     else ret tt)
      (mkSt (probeCache s ∖ expired) (tick s) (logged s) (probed s)).

(** [clearCache]. *)
Definition clearCache : M unit :=
  log "RuleEngine" LInfo "Clearing probe cache" ;;;
  fun s => (Ok tt, mkSt ∅ (tick s) (logged s) (probed s)).

End Engine.

(** ** Testing one rule *)

(** What [testRule] returns. *)
Record RuleTestResult : Type := mkRuleTestResult {
  testSuccess : bool;
  testResults : gmap string ProbeResult;
  testError : option string
}.

Section EngineTools.

Variable env : Env.

(** [testRule]: the rule evaluated with [{ enableCache: false }]; whatever
    that throws becomes the [error] of the answer. *)
Definition testRule (r : Rule) : M RuleTestResult :=
  log "RuleEngine" LInfo "Testing rule manually" ;;;
  tryCatch
    (evaluation <- evaluateRule env r (mkEvaluationOptions None (Some false) None) ;;
     ret (mkRuleTestResult (ruleMatched evaluation) (ruleResults evaluation) None))
    (fun e =>
       let errorMessage := errorMessageOf e "Unknown error" in
       log "RuleEngine" LError "Error testing rule" ;;;
       ret (mkRuleTestResult false ∅ (Some errorMessage))).

End EngineTools.

(* ================================================================== *)
(** * The proxy service ([proxy.js], class [ProxyService]) *)
(* ================================================================== *)

(** The per-request side of the service: the listener of
    [browser.proxy.onRequest] and what it calls.  Profiles are the records
    [models.d.ts] declares.  Two services of the runtime are taken as they
    come: [new URL(text)], read through [hostname] and [protocol], and
    [new RegExp(source, 'i').test(input)]; either may throw. *)

Record Url : Type := mkUrl {
  hostname : string;
  protocol : string
}.

Record Runtime : Type := mkRuntime {
  newURL : string -> Res Url;
  regExpTest : string -> string -> Res bool
}.

(** [ProxyServer]. *)
Record ProxyServer : Type := mkProxyServer {
  host : string;
  port : Z
}.

(** [ManualProxyConfig]. *)
Record ManualProxyConfig : Type := mkManualProxyConfig {
  http : option ProxyServer;
  https : option ProxyServer;
  ftp : option ProxyServer;
  socks : option ProxyServer;
  socksVersion : option Z;
  bypassList : list string
}.

(** [browser.proxy.ProxyInfo]: the fields the service reads or writes, and
    the remaining ones, which it only carries along. *)
Record ProxyInfo : Type := mkProxyInfo {
  proxyType : string;
  proxyHost : option string;
  proxyPort : option Z;
  proxyAuthorizationHeader : option string;
  otherFields : list (string * JsValue)
}.

(** [PerRequestRule]. *)
Record PerRequestRule : Type := mkPerRequestRule {
  hostPattern : string;
  scheme : option string;
  proxy : ProxyInfo
}.

(** [Profile]; [pac] holds the URL of its [PacProxyConfig], [perRequest]
    the rules of its [PerRequestProxyConfig], [auth] the
    [basicHeaderBase64] of its [ProxyAuth], each when it is there. *)
Record Profile : Type := mkProfile {
  profileIdOf : string;
  profileName : string;
  mode : string;
  manual : option ManualProxyConfig;
  pac : option string;
  perRequest : option (list PerRequestRule);
  auth : option string
}.

(** [{ type: 'direct' }]. *)
Definition direct : ProxyInfo := mkProxyInfo "direct" None None None [].

(** [s.slice(n)] for [n] not negative. *)
Fixpoint sliceFrom (n : nat) (s : string) : string :=
  match n, s with
  | S k, String _ r => sliceFrom k r
  | _, _ => s
  end.

(** [s.endsWith(t)]. *)
Fixpoint endsWith (s t : string) : bool :=
  String.eqb s t ||
  match s with
  | EmptyString => false
  | String _ r => endsWith r t
  end.

(** [pattern.replace(/\*/g, '.*')]. *)
Fixpoint starsToRegExp (pattern : string) : string :=
  match pattern with
  | EmptyString => EmptyString
  | String c r =>
      if Ascii.eqb c "*" then String "."%char (String "*"%char (starsToRegExp r))
      else String c (starsToRegExp r)
  end.

(** An optional string as a condition: present and not empty. *)
Definition given (v : option string) : bool :=
  match v with
  | Some s => negb (String.eqb s "")
  | None => false
  end.

Section ProxyService.

Variable rt : Runtime.

Definition matchesHostPattern (hostname pattern : string) : Res bool :=
  if String.eqb pattern "*" then Ok true
  else if startsWith pattern "*." then
    let domain := sliceFrom 2 pattern in
    Ok (String.eqb hostname domain || endsWith hostname ("." ++ domain))
  else if strIncludes pattern "*" then
    regExpTest rt ("^" ++ starsToRegExp pattern ++ "$") hostname
  else Ok (String.eqb (toLowerCase hostname) (toLowerCase pattern)).

(** [!rule.scheme || url.protocol.startsWith(rule.scheme)]. *)
Definition schemeFits (url : Url) (rule : PerRequestRule) : bool :=
  negb (given (scheme rule))
  || startsWith (protocol url) (default "" (scheme rule)).

(** The loop of [findMatchingRule]. *)
Fixpoint findRule (url : Url) (rules : list PerRequestRule)
  : Res (option PerRequestRule) :=
  match rules with
  | [] => Ok None
  | rule :: rest =>
      match matchesHostPattern (hostname url) (hostPattern rule) with
      | Throw e => Throw e
      | Ok true => if schemeFits url rule then Ok (Some rule) else findRule url rest
      | Ok false => findRule url rest
      end
  end.

Definition findMatchingRule (detailsUrl : string) (rules : list PerRequestRule)
  : Res (option PerRequestRule) :=
  match newURL rt detailsUrl with
  | Throw e => Throw e
  | Ok url => findRule url rules
  end.

Definition addAuthenticationIfNeeded (proxyInfo : ProxyInfo) (profile : Profile)
  : ProxyInfo :=
  if given (auth profile) && negb (String.eqb (proxyType proxyInfo) "direct") then
    mkProxyInfo (proxyType proxyInfo) (proxyHost proxyInfo) (proxyPort proxyInfo)
      (Some ("Basic " ++ default "" (auth profile))) (otherFields proxyInfo)
  else proxyInfo.

Definition handlePerRequestRules (activeProfile : Profile) (detailsUrl : string)
    (rules : list PerRequestRule) : Res ProxyInfo :=
  match findMatchingRule detailsUrl rules with
  | Throw e => Throw e
  | Ok (Some matchingRule) =>
      Ok (addAuthenticationIfNeeded (proxy matchingRule) activeProfile)
  | Ok None => Ok direct
  end.

(** [handleProxyRequest]: the proxy to use, or [None] for [undefined],
    which leaves the request to the browser; with it, the calls made to the
    logger. *)
Definition handleProxyRequest (activeProfile : option Profile) (detailsUrl : string)
  : Res (option ProxyInfo) * list LogEntry :=
  let viaRules p rules :=
    match handlePerRequestRules p detailsUrl rules with
    | Ok info => Ok (Some info)
    | Throw e => Throw e
    end in
  match activeProfile with
  | None => (Ok (Some direct), [])
  | Some p =>
      if String.eqb (mode p) "direct" then (Ok (Some direct), [])
      else if String.eqb (mode p) "system" then (Ok None, [])
      else if String.eqb (mode p) "manual" then
        match perRequest p with
        | Some rules => (viaRules p rules, [])
        | None => (Ok (Some direct), [])
        end
      else if String.eqb (mode p) "perRequest" then
        match perRequest p with
        | None => (Ok (Some direct), [])
        | Some rules => (viaRules p rules, [])
        end
      else if String.eqb (mode p) "pac" then (Ok None, [])
      else (Ok (Some direct), [mkLog "ProxyService" LWarn "Unknown proxy mode"])
  end.

End ProxyService.

(** The rule [convertManualToPerRequestRules] makes of one server. *)
Definition serverRule (sch : option string) (type : string) (srv : ProxyServer)
  : PerRequestRule :=
  mkPerRequestRule "*" sch (mkProxyInfo type (Some (host srv)) (Some (port srv)) None []).

Definition convertManualToPerRequestRules (m : ManualProxyConfig)
  : list PerRequestRule :=
  (match http m with
   | Some srv => [serverRule (Some "http") "http" srv]
   | None => []
   end
   ++ match https m with
      | Some srv => [serverRule (Some "https") "https" srv]
      | None => []
      end
   ++ match socks m, http m, https m with
      | Some srv, None, None =>
          [serverRule None
             (if bool_decide (socksVersion m = Some 4) then "socks4" else "socks") srv]
      | _, _, _ => []
      end)%list.

(** The profile the [catch] block of [setManualProxy] puts in place of
    [profile], whose [manual] is [m], when [browser.proxy.settings.set]
    rejects the manual configuration. *)
Definition manualFallback (profile : Profile) (m : ManualProxyConfig) : Profile :=
  mkProfile (profileIdOf profile) (profileName profile) "perRequest" (manual profile)
    (pac profile) (Some (convertManualToPerRequestRules m)) (auth profile).

(* ================================================================== *)
(** * The logger ([log.js], class [Logger]) *)
(* ================================================================== *)

(** The logger behind the [log.debug], [log.info], [log.warn] and
    [log.error] calls of the services: what it keeps of them.  The batched
    save a timer triggers later is not followed; the timer is only seen
    armed or not.  A method runs to its end before another starts. *)

(** [this.config]. *)
Record LoggerConfig : Type := mkLoggerConfig {
  configLevel : LogLevel;
  maxEntries : Z;
  enableConsole : bool;
  enableStorage : bool;
  maxAge : Z;
  maxSizeBytes : Z
}.

(** [LogEntry] of [models.d.ts], as the logger stores it. *)
Record StoredLog : Type := mkStoredLog {
  entryTime : Z;
  entryLevel : LogLevel;
  entryComponent : string;
  entryMessage : string;
  entryData : JsValue
}.

(** What reaches the console: an entry, or the report of a storage
    fault. *)
Inductive ConsoleCall : Type :=
| ConsoleEntry (e : StoredLog)
| ConsoleError (text : string).

(** The logger: its fields, the calls it made to the console and the number
    of interactions with the world (clock readings, storage calls) so far. *)
Record Logger : Type := mkLogger {
  config : LoggerConfig;
  logEntries : list StoredLog;
  pendingSave : bool;
  saveTimer : bool;
  consoleCalls : list ConsoleCall;
  interactions : nat
}.

(** [browser.storage.local] under the key [logs]: what [get] finds
    ([None] when nothing truthy is there) and how [set] ends. *)
Record LogStore : Type := mkLogStore {
  storageGet : nat -> Res (option (list StoredLog));
  storageSet : nat -> list StoredLog -> Res unit
}.

(** The configuration the constructor sets. *)
Definition defaultConfig : LoggerConfig :=
  mkLoggerConfig LWarn 50 true false (1 * 60 * 60 * 1000) (100 * 1024).

(** [this.logLevels]. *)
Definition logLevels (l : LogLevel) : Z :=
  match l with
  | LDebug => 0
  | LInfo => 1
  | LWarn => 2
  | LError => 3
  end.

(** [l.slice(-n)]: the last [n] elements; all of them when [n] is 0, since
    [-0] is 0; and [l.slice(k)] when [n = -k] is negative. *)
Definition sliceLast {A} (n : Z) (l : list A) : list A :=
  if 0 <? n then drop (length l - Z.to_nat n) l
  else drop (Z.to_nat (- n)) l.

(** [l.slice(0, n)]: the first [n] elements; all but the last [k] when
    [n = -k] is negative. *)
Definition sliceFirst {A} (n : Z) (l : list A) : list A :=
  if 0 <=? n then take (Z.to_nat n) l
  else take (length l - Z.to_nat (- n)) l.

(** Stable insertion by descending time. *)
Fixpoint insertByTime (e : StoredLog) (l : list StoredLog) : list StoredLog :=
  match l with
  | [] => [e]
  | x :: xs =>
      if entryTime e <? entryTime x then x :: insertByTime e xs
      else e :: x :: xs
  end.

(** [.sort((a, b) => b.timestamp - a.timestamp)]: the stable arrangement by
    descending time. *)
Definition sortByTime (l : list StoredLog) : list StoredLog :=
  fold_right insertByTime [] l.

Section LoggerMethods.

Variable env : Env.
Variable store : LogStore.

Definition cleanExpiredLogs (lg : Logger) : Logger :=
  let cutoffTime := dateNow env (interactions lg) - maxAge (config lg) in
  let kept := filter (fun e => cutoffTime < entryTime e) (logEntries lg) in
  mkLogger (config lg) kept
    (if (length kept =? length (logEntries lg))%nat then pendingSave lg else true)
    (saveTimer lg) (consoleCalls lg) (S (interactions lg)).

Definition enforceStorageSize (lg : Logger) : Logger :=
  let len := Z.of_nat (length (logEntries lg)) in
  let estimatedSize := len * 200 in
  if (maxSizeBytes (config lg) <? estimatedSize) || (maxEntries (config lg) <? len) then
    let targetSize := Z.min (maxEntries (config lg)) (maxSizeBytes (config lg) / 200) in
    mkLogger (config lg) (sliceLast targetSize (logEntries lg)) true
      (saveTimer lg) (consoleCalls lg) (interactions lg)
  else lg.

Definition scheduleBatchedSave (lg : Logger) : Logger :=
  if negb (enableStorage (config lg)) then lg
  else mkLogger (config lg) (logEntries lg) true true (consoleCalls lg) (interactions lg).

Definition addToStorage (entry : StoredLog) (lg : Logger) : Logger :=
  let pushed := mkLogger (config lg) (logEntries lg ++ [entry]) (pendingSave lg)
                  (saveTimer lg) (consoleCalls lg) (interactions lg) in
  scheduleBatchedSave (enforceStorageSize (cleanExpiredLogs pushed)).

Definition logToConsole (entry : StoredLog) (lg : Logger) : Logger :=
  mkLogger (config lg) (logEntries lg) (pendingSave lg) (saveTimer lg)
    (consoleCalls lg ++ [ConsoleEntry entry]) (interactions lg).

(** [log(level, component, message, data)], which [debug], [info], [warn]
    and [error] call with their level. *)
Definition logCall (level : LogLevel) (component message : string) (data : JsValue)
    (lg : Logger) : Logger :=
  let shouldLog := logLevels (configLevel (config lg)) <=? logLevels level in
  if negb shouldLog then lg
  else
    let entry := mkStoredLog (dateNow env (interactions lg)) level component message data in
    let lg0 := mkLogger (config lg) (logEntries lg) (pendingSave lg) (saveTimer lg)
                 (consoleCalls lg) (S (interactions lg)) in
    let lg1 := if enableConsole (config lg0) then logToConsole entry lg0 else lg0 in
    if enableStorage (config lg1) then addToStorage entry lg1 else lg1.

Definition saveLogsToStorage (lg : Logger) : Logger :=
  match storageSet store (interactions lg) (logEntries lg) with
  | Ok _ =>
      mkLogger (config lg) (logEntries lg) (pendingSave lg) (saveTimer lg)
        (consoleCalls lg) (S (interactions lg))
  | Throw _ =>
      mkLogger (config lg) (logEntries lg) (pendingSave lg) (saveTimer lg)
        (consoleCalls lg ++ [ConsoleError "Error saving logs to storage:"])
        (S (interactions lg))
  end.

Definition loadLogsFromStorage (lg : Logger) : Logger :=
  match storageGet store (interactions lg) with
  | Ok found =>
      mkLogger (config lg) (default (logEntries lg) found) (pendingSave lg)
        (saveTimer lg) (consoleCalls lg) (S (interactions lg))
  | Throw _ =>
      mkLogger (config lg) (logEntries lg) (pendingSave lg) (saveTimer lg)
        (consoleCalls lg ++ [ConsoleError "Error loading logs from storage:"])
        (S (interactions lg))
  end.

(** [getLogs(level, component, limit)]: what it returns and the logger it
    leaves.  [filteredLogs] starts as [this.logEntries] itself; [filter]
    makes a new array, [sort] rearranges the array it is called on: with no
    filter asked for, that array is [this.logEntries]. *)
Definition getLogs (level : option LogLevel) (component : option string) (limit : Z)
    (lg : Logger) : list StoredLog * Logger :=
  let lg1 := if pendingSave lg then saveLogsToStorage lg else lg in
  let lg2 := if (length (logEntries lg1) =? 0)%nat then loadLogsFromStorage lg1 else lg1 in
  let lg3 := cleanExpiredLogs lg2 in
  let byLevel :=
    match level with
    | Some l => Some (filter (fun e => logLevels l <= logLevels (entryLevel e))
                        (logEntries lg3))
    | None => None
    end in
  let byComponent :=
    if given component then
      Some (filter (fun e => entryComponent e = default "" component)
              (default (logEntries lg3) byLevel))
    else byLevel in
  match byComponent with
  | Some filteredLogs => (sliceFirst limit (sortByTime filteredLogs), lg3)
  | None =>
      let sorted := sortByTime (logEntries lg3) in
      (sliceFirst limit sorted,
       mkLogger (config lg3) sorted (pendingSave lg3) (saveTimer lg3)
         (consoleCalls lg3) (interactions lg3))
  end.

End LoggerMethods.

(* ================================================================== *)
(** * Vocabulary of the statements *)
(* ================================================================== *)

(** ** Values *)

(** [v] is neither [undefined] nor [null]: its properties can be read. *)
Definition notNullish (v : JsValue) : bool :=
  match v with
  | JUndefined | JNull => false
  | _ => true
  end.

(** [v] is not [undefined]. *)
Definition isDefined (v : JsValue) : bool :=
  match v with
  | JUndefined => false
  | _ => true
  end.

(** A field that holds a string or is absent, and the text it holds. *)
Definition strOrAbsent (v : JsValue) : bool :=
  match v with
  | JUndefined | JStr _ => true
  | _ => false
  end.

Definition textOf (v : JsValue) : string :=
  match v with
  | JStr s => s
  | _ => ""
  end.

(** Structural equality of two values: the same content, whatever the
    order in which the defined keys of an object were inserted (a property
    holding [undefined] counts as absent). *)
Fixpoint structEq (a b : JsValue) {struct a} : bool :=
  match a, b with
  | JUndefined, JUndefined => true
  | JNull, JNull => true
  | JBool x, JBool y => Bool.eqb x y
  | JNum x, JNum y => x =? y
  | JStr x, JStr y => String.eqb x y
  | JArr l1, JArr l2 =>
      (fix go (xs ys : list JsValue) {struct xs} : bool :=
         match xs, ys with
         | [], [] => true
         | x :: xs', y :: ys' => structEq x y && go xs' ys'
         | _, _ => false
         end) l1 l2
  | JObj p1, JObj p2 =>
      forallb (fun kv => negb (isDefined (snd kv))
                         || structEq (snd kv) (lookupProp (fst kv) p2)) p1
      && forallb (fun kv => negb (isDefined (snd kv))
                            || isDefined (lookupProp (fst kv) p1)) p2
  | _, _ => false
  end.

(** What [JSON.stringify] looks at: the properties holding [undefined]
    dropped from every object, the [undefined] elements of every array read
    as [null], the order of what remains kept. *)
Fixpoint serialForm (v : JsValue) : JsValue :=
  match v with
  | JArr l =>
      JArr (map (fun x => match x with
                          | JUndefined => JNull
                          | _ => serialForm x
                          end) l)
  | JObj props =>
      JObj (omap (fun kv => match snd kv with
                            | JUndefined => None
                            | _ => Some (fst kv, serialForm (snd kv))
                            end) props)
  | _ => v
  end.

(** ** Probes *)

(** The addresses a DNS answer carries; none when the lookup throws or
    answers without an address list. *)
Definition resolvedAddresses (o : Res (option DnsRecord)) : list string :=
  match o with
  | Ok (Some (mkDnsRecord (Some l) _)) => l
  | _ => []
  end.

(** [address] lies in the range [cidr], as [isIPInCIDR] decides it. *)
Definition inCIDR (address : string) (cidr : JsValue) : bool :=
  match isIPInCIDR (JStr address) cidr with
  | Ok b => b
  | Throw _ => false
  end.

(** The organisation condition of the IP-info probe: it binds only when
    both the expectation and the returned field hold a non-empty string. *)
Definition orgCondition (expectOrg org : JsValue) : bool :=
  negb (truthy expectOrg && truthy org)
  || strIncludes (toLowerCase (textOf org)) (toLowerCase (textOf expectOrg)).

(** The country condition, likewise. *)
Definition countryCondition (expectCountry country : JsValue) : bool :=
  negb (truthy expectCountry && truthy country)
  || String.eqb (toLowerCase (textOf country)) (toLowerCase (textOf expectCountry)).

(** The six trigger types the [switch] of [getProbeResult] knows. *)
Definition recognised (triggerType : string) : bool :=
  existsb (String.eqb triggerType)
    ["reachability"; "dnsResolve"; "captivePortal"; "ipInfo"; "timeWindow";
     "manualFlag"].

(** [days] of a time-window trigger is not an object: it is absent, or a
    list as [models.d.ts] declares it. *)
Definition daysListed (trigger : JsValue) : bool :=
  match getProp trigger "days" with
  | Ok (JObj _) => false
  | Ok _ => true
  | Throw _ => false
  end.

(** A probe request the executor can serve: a recognised trigger type, a
    trigger whose properties can be read and, for a time window, a list of
    days. *)
Definition answerable (triggerType : string) (trigger : JsValue) : bool :=
  recognised triggerType && notNullish trigger
  && (negb (String.eqb triggerType "timeWindow") || daysListed trigger).

(** From [s] to [s'] the cache and the record of probe calls are
    unchanged. *)
Definition frame (s s' : St) : Prop :=
  probeCache s' = probeCache s /\ probed s' = probed s.

(** A computation that changes neither of them. *)
Definition keeps {A} (m : M A) : Prop := forall s, frame s (snd (m s)).

(** ** The cache *)

(** The state after the cache lookup of [getProbeResult] missed: the clock
    was read if, and only if, an entry was found. *)
Definition afterMiss (key : string) (s : St) : St :=
  match probeCache s !! key with
  | Some _ => bumpTick s
  | None => s
  end.

(** ** Rules and the evaluation pass *)

(** The trigger named [k] is present in the [when] set of [r]: the loop of
    [evaluateRule] does not skip it. *)
Definition present (r : Rule) (k : string) : bool :=
  match getProp (when r) k with
  | Ok trigger => truthy trigger
  | Throw _ => false
  end.

(** The key of the result entry of trigger [k] of rule [r]. *)
Definition probeKey (r : Rule) (k : string) : string := id r ++ "_" ++ k.


(** [a] may be visited before [b]. *)
Definition byPriority (a b : Rule) : Prop := priority a <= priority b.

(** The state in which the loop of [evaluateRules] starts: the clock was
    read for [startTime] and the start was logged. *)
Definition started (s : St) : St :=
  mkSt (probeCache s) (S (tick s))
    (logged s ++ [mkLog "RuleEngine" LInfo "Starting rule evaluation"]) (probed s).

(** The state in which a rule's turn evaluates the rule: the turn has
    logged that it starts. *)
Definition entering (s : St) : St :=
  mkSt (probeCache s) (tick s)
    (logged s ++ [mkLog "RuleEngine" LDebug "Evaluating rule"]) (probed s).

(** The state after the [catch] block of the loop ran from [s]. *)
Definition caught (s : St) : St :=
  mkSt (probeCache s) (S (tick s))
    (logged s ++ [mkLog "RuleEngine" LError "Error evaluating rule"]) (probed s).

(** The entry the [catch] block of the loop writes. *)
Definition errorEntry (env : Env) (e : Thrown) (s : St) : ProbeResult :=
  failure (errorMessageOf e "Unknown error") (dateNow env (tick s)).

(** The rules [rs] are evaluated in turn and none of them makes
    [evaluateRules] return: the accumulated results and the state the next
    rule will see. *)
Fixpoint passOver (env : Env) (opts : Options) (startTime : Z) (rs : list Rule)
    (allResults : gmap string ProbeResult) (s : St)
  : option (gmap string ProbeResult * St) :=
  match rs with
  | [] => Some (allResults, s)
  | r :: rest =>
      match ruleTurn env opts startTime r allResults s with
      | (Ok (Continue allResults'), s') =>
          passOver env opts startTime rest allResults' s'
      | _ => None
      end
  end.

(** ** Runs that differ in [stopOnMatch] only *)

(** The debug note that reading [stopOnMatch] can emit. *)
Definition stopNote : LogEntry :=
  mkLog "RuleEngine" LDebug
    "Rule did not match but has stopOnMatch, continuing to next rule".

Definition isStopNote (l : LogEntry) : bool :=
  String.eqb (message l) (message stopNote).

(** The log without the notes about [stopOnMatch]. *)
Definition otherNotes (l : list LogEntry) : list LogEntry :=
  List.filter (fun x => negb (isStopNote x)) l.

(** Two engine states that differ, if at all, by notes about
    [stopOnMatch] in the log. *)
Definition sameButStopNotes (s s' : St) : Prop :=
  probeCache s = probeCache s' /\ tick s = tick s' /\ probed s = probed s'
  /\ otherNotes (logged s) = otherNotes (logged s').

(** Two rules that differ, if at all, in [stopOnMatch]. *)
Definition sameButStop (r r' : Rule) : Prop :=
  id r = id r' /\ name r = name r' /\ enabled r = enabled r'
  /\ priority r = priority r' /\ when r = when r' /\ then_ r = then_ r'.

(** Two rule mappings with the same keys in the same order, whose rules
    differ, if at all, in [stopOnMatch]. *)
Definition sameRulesButStop (rules rules' : list (string * Rule)) : Prop :=
  Forall2 (fun a b => fst a = fst b /\ sameButStop (snd a) (snd b)) rules rules'.

(** [r] with its [stopOnMatch] flipped. *)
Definition flipStop (r : Rule) : Rule :=
  mkRule (id r) (name r) (enabled r) (priority r) (negb (stopOnMatch r))
    (when r) (then_ r).

(** A computation that does not look at the log: from two states that
    differ by [stopOnMatch] notes only, it gives the same outcome and two
    states that again differ by such notes only. *)
Definition oblivious {A} (m : M A) : Prop :=
  forall s s', sameButStopNotes s s' ->
               fst (m s) = fst (m s') /\ sameButStopNotes (snd (m s)) (snd (m s')).

(** Two results of [evaluateRules] that agree on everything but the
    [stopOnMatch] of the rule they carry. *)
Definition sameVerdict (a b : RuleEvaluationResult) : Prop :=
  matched a = matched b /\ profileId a = profileId b /\ results a = results b
  /\ evaluationTime a = evaluationTime b
  /\ option_Forall2 sameButStop (rule a) (rule b).

Definition sameStep (a b : LoopStep) : Prop :=
  match a, b with
  | Continue x, Continue y => x = y
  | Return x, Return y => sameVerdict x y
  | _, _ => False
  end.

(** ** IPv4 addresses *)

(** The dotted quad of four numbers, each written in decimal. *)
Definition dotted (a b c d : Z) : string :=
  pretty a ++ "." ++ pretty b ++ "." ++ pretty c ++ "." ++ pretty d.

(** The 32-bit number whose four bytes are [a], [b], [c], [d]. *)
Definition quadValue (a b c d : Z) : Z := a * 2 ^ 24 + b * 2 ^ 16 + c * 2 ^ 8 + d.

Definition isOctet (n : Z) : bool := (0 <=? n) && (n <=? 255).

(** The character [c] does not occur in [s]. *)
Fixpoint lacks (c : ascii) (s : string) : bool :=
  match s with
  | EmptyString => true
  | String x r => negb (Ascii.eqb x c) && lacks c r
  end.

(** The decimal text of [n] reads back as [n] and holds neither a dot, a
    slash nor a colon. *)
Definition octetText (n : Z) : bool :=
  match parseInt (pretty n) with
  | Some m => m =? n
  | None => false
  end
  && lacks "." (pretty n) && lacks "/" (pretty n) && lacks ":" (pretty n).

(** ** Times of day *)

Definition twoDigits (n : Z) : string := padStart2 (pretty n).

(** The text [HH:MM] of a time of day. *)
Definition hhmm (h m : Z) : string :=
  padStart2 (pretty h) ++ ":" ++ padStart2 (pretty m).

Definition minuteOfDay (h m : Z) : Z := 60 * h + m.

Definition isHour (h : Z) : bool := (0 <=? h) && (h <=? 23).

Definition isMinute (m : Z) : bool := (0 <=? m) && (m <=? 59).

(** The day of the week as the time-window probe counts it: [getDay()]
    with Sunday as 7. *)
Definition dayNumber (getDay : Z) : Z := if getDay =? 0 then 7 else getDay.

(** A [TimeWindowTrigger] with its three conditions: the listed days and
    the two ends of the window. *)
Definition timeWindowTrigger (days : list Z) (fh fm th tm : Z) : JsValue :=
  JObj [("days", JArr (map JNum days));
        ("from", JStr (hhmm fh fm));
        ("to", JStr (hhmm th tm))].

(** The day condition of a time window: no day listed, or today among
    them. *)
Definition dayListed (days : list Z) (today : Z) : bool :=
  match days with
  | [] => true
  | _ => existsb (Z.eqb today) days
  end.

(** ** The cache as a bystander *)

(** The state [s] with the cache [c] in place of its own. *)
Definition withCache (c : gmap string CacheEntry) (s : St) : St :=
  mkSt c (tick s) (logged s) (probed s).

(** A computation that neither reads nor writes the cache: whatever cache
    it is given, it does the same and hands that cache back. *)
Definition cacheBlind {A} (m : M A) : Prop :=
  forall s c, m (withCache c s) = (fst (m s), withCache c (snd (m s))).

(** From [s] to [s'] the position in the oracles has not gone back and no
    cache key has gone. *)
Definition grows (s s' : St) : Prop :=
  (tick s <= tick s')%nat
  /\ forall k, is_Some (probeCache s !! k) -> is_Some (probeCache s' !! k).

Definition growing {A} (m : M A) : Prop := forall s, grows s (snd (m s)).

(** The clock of [env] never goes back. *)
Definition monotoneClock (env : Env) : Prop :=
  forall n m, (n <= m)%nat -> dateNow env n <= dateNow env m.

(** The switched-off copy of a rule. *)
Definition disabledCopy (r : Rule) : Rule :=
  mkRule (id r) (name r) false (priority r) (stopOnMatch r) (when r) (then_ r).

(** ** Requests handled per request *)

(** A rule applies to a URL: its host pattern matches and its scheme
    fits. *)
Definition applies (rt : Runtime) (url : Url) (rule : PerRequestRule) : bool :=
  match matchesHostPattern rt (hostname url) (hostPattern rule) with
  | Ok true => schemeFits url rule
  | _ => false
  end.

(** A host pattern that is never handed to a regular expression: it is
    [*], starts with [*.] or holds no star. *)
Definition plainPattern (pattern : string) : bool :=
  String.eqb pattern "*" || startsWith pattern "*." || negb (strIncludes pattern "*").

(** The proxy of a server rule with the credentials of [profile], if it
    has any. *)
Definition viaServer (type : string) (srv : ProxyServer) (profile : Profile) : ProxyInfo :=
  mkProxyInfo type (Some (host srv)) (Some (port srv))
    (if given (auth profile) then Some ("Basic " ++ default "" (auth profile)) else None)
    [].

(** ** Cache entries, the stored log and JSON texts *)

(** From [s] to [s'] the position in the oracles has not gone back and, if
    it has not gone past [upTo], the cache entry [c] under [key] has stayed
    where it was. *)
Definition stays (key : string) (c : CacheEntry) (upTo : nat) (s s' : St) : Prop :=
  (tick s <= tick s')%nat
  /\ ((tick s' <= upTo)%nat -> probeCache s !! key = Some c ->
      probeCache s' !! key = Some c).

(** [a] may be listed before [b]: it is not older. *)
Definition newerFirst (a b : StoredLog) : Prop := entryTime b <= entryTime a.

(** What [enforceStorageSize] trims to. *)
Definition targetSize (c : LoggerConfig) : Z :=
  Z.min (maxEntries c) (maxSizeBytes c / 200).

(** The logger as [getLogs] finds it after its storage calls and the
    removal of expired entries. *)
Definition settled (env : Env) (store : LogStore) (lg : Logger) : Logger :=
  let lg1 := if pendingSave lg then saveLogsToStorage store lg else lg in
  let lg2 := if (length (logEntries lg1) =? 0)%nat
             then loadLogsFromStorage store lg1 else lg1 in
  cleanExpiredLogs env lg2.

(** A value [JSON.stringify] writes in full: no [undefined] in it. *)
Fixpoint writable (v : JsValue) : bool :=
  match v with
  | JUndefined => false
  | JArr l => forallb writable l
  | JObj props => forallb (fun kv => writable (snd kv)) props
  | _ => true
  end.

Definition isDigit (c : ascii) : bool := (48 <=? code c) && (code c <=? 57).

Fixpoint allDigits (s : string) : bool :=
  match s with
  | EmptyString => true
  | String c r => isDigit c && allDigits r
  end.

(** What may follow a number in a JSON text: nothing, or a character that
    is not a digit. *)
Definition stops (r : string) : bool :=
  match r with
  | EmptyString => true
  | String c _ => negb (isDigit c)
  end.

(** The kind of value a JSON text starts, told by its first character. *)
Definition kindOfChar (c : ascii) : Z :=
  if Ascii.eqb c "n" then 1
  else if Ascii.eqb c "t" then 2
  else if Ascii.eqb c "f" then 3
  else if isDigit c || Ascii.eqb c "-" then 4
  else if Ascii.eqb c dquote then 5
  else if Ascii.eqb c "[" then 6
  else if Ascii.eqb c "{" then 7
  else 0.

Definition kindOfText (s : string) : Z :=
  match s with
  | EmptyString => 0
  | String c _ => kindOfChar c
  end.

Definition kindOf (v : JsValue) : Z :=
  match v with
  | JUndefined => 0
  | JNull => 1
  | JBool true => 2
  | JBool false => 3
  | JNum _ => 4
  | JStr _ => 5
  | JArr _ => 6
  | JObj _ => 7
  end.

Definition unhex (c : ascii) : option Z :=
  let n := code c in
  if (48 <=? n) && (n <=? 57) then Some (n - 48)
  else if (97 <=? n) && (n <=? 102) then Some (n - 87)
  else None.

(** Reads back the character at the head of an escaped string, and what
    follows it; nothing at a closing quote. *)
Definition unescapeHead (s : string) : option (ascii * string) :=
  match s with
  | EmptyString => None
  | String c r =>
      if Ascii.eqb c dquote then None
      else if Ascii.eqb c backslash then
        match r with
        | String e r' =>
            if Ascii.eqb e dquote then Some (dquote, r')
            else if Ascii.eqb e backslash then Some (backslash, r')
            else if Ascii.eqb e "b" then Some ("008"%char, r')
            else if Ascii.eqb e "f" then Some ("012"%char, r')
            else if Ascii.eqb e "n" then Some ("010"%char, r')
            else if Ascii.eqb e "r" then Some ("013"%char, r')
            else if Ascii.eqb e "t" then Some ("009"%char, r')
            else
              match r' with
              | String _ (String _ (String h1 (String h2 r''))) =>
                  match unhex h1, unhex h2 with
                  | Some a, Some b => Some (ascii_of_nat (Z.to_nat (16 * a + b)), r'')
                  | _, _ => None
                  end
              | _ => None
              end
        | EmptyString => None
        end
      else Some (c, r)
  end.

(** The text of a list of items after its first one. *)
Definition joinTail {A} (T : A -> string) (xs : list A) : string :=
  match xs with
  | [] => ""
  | _ => "," ++ String.concat "," (map T xs)
  end.

(** The text of a property as [JSON.stringify] writes it. *)
Definition propertyText (kv : string * JsValue) : string :=
  quoteJSON (fst kv) ++ ":" ++ stringifyText (snd kv).

(* ================================================================== *)
(** * Sample worlds, triggers and rules *)
(* ================================================================== *)

(** ** Worlds *)

(** An engine that has done nothing yet. *)
Definition initialState : St := mkSt ∅ 0 [] [].

(** A world where the clock advances one second per reading from 1000000,
    it is Wednesday 10:00, the network is down, DNS knows no host and the
    captive portal is unlocked. *)
Definition offlineWorld : Env :=
  mkEnv (fun n => 1000000 + 1000 * Z.of_nat n)
        (fun _ => (3, 10, 0))
        (fun _ _ _ => Throw (ErrorObj "NetworkError when attempting to fetch resource."))
        (fun _ _ => Throw (ErrorObj "NS_ERROR_UNKNOWN_HOST"))
        (fun _ => Ok (JStr "unlocked"))
        (fun _ => false).

(** The offline world, except that every host name resolves to [addrs]. *)
Definition dnsWorld (addrs : list string) : Env :=
  mkEnv (dateNow offlineWorld) (localTime offlineWorld) (fetch offlineWorld)
        (fun _ _ => Ok (Some (mkDnsRecord (Some addrs) JUndefined)))
        (captivePortalGetState offlineWorld)
        (numericStringPositive offlineWorld).

(** The offline world, except that every [fetch] answers [200 OK] with the
    JSON document [body]. *)
Definition httpWorld (body : JsValue) : Env :=
  mkEnv (dateNow offlineWorld) (localTime offlineWorld)
        (fun _ _ _ => Ok (mkResponse true 200 "OK" (Ok body)))
        (dnsResolve offlineWorld)
        (captivePortalGetState offlineWorld)
        (numericStringPositive offlineWorld).

(** ** Triggers *)

(** A manual flag that is off, and one that is on. *)
Definition flagOff : JsValue := JObj [("value", JBool false)].

Definition flagOn : JsValue := JObj [("value", JBool true)].

Definition workdays : JsValue :=
  JObj [("days", JArr [JNum 1; JNum 2; JNum 3; JNum 4; JNum 5])].

(** A DNS trigger that gives an empty list of ranges. *)
Definition dnsTriggerNoRanges : JsValue :=
  JObj [("hostname", JStr "intranet.corp"); ("expectIPCIDR", JArr [])].

(** A DNS trigger with two ranges. *)
Definition dnsTriggerRanges : JsValue :=
  JObj [("hostname", JStr "intranet.corp");
        ("expectIPCIDR", JArr [JStr "192.168.0.0/16"; JStr "10.0.0.0/8"])].

(** A DNS trigger asking for an exact address. *)
Definition dnsTriggerExact : JsValue :=
  JObj [("hostname", JStr "intranet.corp");
        ("matches", JStr "exact");
        ("expectIPCIDR", JArr [JStr "10.0.0.5"])].

(** The same DNS trigger written with its keys in two orders, and with a
    key holding [undefined]. *)
Definition dnsTriggerHostFirst : JsValue :=
  JObj [("hostname", JStr "intranet.corp"); ("matches", JStr "exact")].

Definition dnsTriggerMatchesFirst : JsValue :=
  JObj [("matches", JStr "exact"); ("hostname", JStr "intranet.corp")].

Definition dnsTriggerHostOnly : JsValue :=
  JObj [("hostname", JStr "intranet.corp")].

Definition dnsTriggerHostUndefinedMatches : JsValue :=
  JObj [("hostname", JStr "intranet.corp"); ("matches", JUndefined)].

(** An IP-info trigger expecting an organisation, and a provider answer
    that names a country but no organisation. *)
Definition ipInfoTriggerOrg : JsValue := JObj [("expectOrg", JStr "Acme")].

Definition ipInfoAnswerNoOrg : JsValue :=
  JObj [("ip", JStr "203.0.113.7"); ("country", JStr "US")].

Definition ipInfoTriggerBoth : JsValue :=
  JObj [("expectOrg", JStr "acme"); ("expectCountry", JStr "us")].

Definition ipInfoAnswerFull : JsValue :=
  JObj [("ip", JStr "203.0.113.7"); ("org", JStr "AS64500 ACME Networks");
        ("country", JStr "US")].

(** ** Rules *)

(** The [then] of a rule that activates [profile]. *)
Definition activate (profile : string) : JsValue :=
  JObj [("setActiveProfile", JStr profile)].

(** A rule whose first trigger fails and whose second succeeds (on the
    Wednesday of [offlineWorld]). *)
Definition ruleFlagOffWorkdays : Rule :=
  mkRule "r1" "Office hours" true 10 false
    (JObj [("manualFlag", flagOff); ("timeWindow", workdays)])
    (activate "office").


Definition ruleAlways (ruleId : string) (prio : Z) (profile : string) : Rule :=
  mkRule ruleId ruleId true prio false (JObj [("manualFlag", flagOn)])
    (activate profile).

(** A rule whose [when] is [null], and a rule with a trigger type the
    engine does not know. *)
Definition ruleBroken : Rule :=
  mkRule "bad" "Broken" true 1 false JNull (activate "nowhere").

Definition ruleUnknownTrigger : Rule :=
  mkRule "r1" "VPN" true 1 false (JObj [("vpn", JObj [])]) (activate "vpn").

(** Three rules that always match, met in the order 200, 50, 100. *)
Definition threeRules : list (string * Rule) :=
  [("a", ruleAlways "a" 200 "slow"); ("b", ruleAlways "b" 50 "fast");
   ("c", ruleAlways "c" 100 "middle")].

(** A rule that does not match, ahead of one that does. *)
Definition officeThenHome : list (string * Rule) :=
  [("r1", ruleFlagOffWorkdays); ("r2", ruleAlways "r2" 20 "home")].

(** ** More worlds, rules and profiles *)

(** A world where it is Wednesday, 23:30. *)
Definition lateWorld : Env :=
  mkEnv (dateNow offlineWorld) (fun _ => (3, 23, 30)) (fetch offlineWorld)
    (dnsResolve offlineWorld) (captivePortalGetState offlineWorld)
    (numericStringPositive offlineWorld).

(** A rule with a manual flag that is on and a trigger of a type the
    engine does not know. *)
Definition ruleFlagAndWifi : Rule :=
  mkRule "r7" "Office Wi-Fi" true 1 false
    (JObj [("manualFlag", flagOn); ("wifiName", JObj [("ssid", JStr "office")])])
    (activate "office").

(** An engine state whose cache holds one entry, long expired. *)
Definition staleState : St :=
  mkSt (<["k" := mkCacheEntry (failure "stale" 0) 5]> ∅) 0 [] [].

(** A runtime that knows two addresses and no regular expression. *)
Definition sampleRuntime : Runtime :=
  mkRuntime
    (fun u =>
       if String.eqb u "https://example.com/" then Ok (mkUrl "example.com" "https:")
       else if String.eqb u "ftp://example.com/" then Ok (mkUrl "example.com" "ftp:")
       else Throw TypeError)
    (fun _ _ => Throw (ErrorObj "SyntaxError")).

Definition officeProxies : ManualProxyConfig :=
  mkManualProxyConfig (Some (mkProxyServer "proxy.example" 3128))
    (Some (mkProxyServer "secure.example" 3129)) None
    (Some (mkProxyServer "socks.example" 1080)) None [].

Definition socksOnly : ManualProxyConfig :=
  mkManualProxyConfig None None None (Some (mkProxyServer "socks.example" 1080))
    (Some 4) [].

Definition officeProfile : Profile :=
  mkProfile "office" "Office" "manual" (Some officeProxies) None None
    (Some "dXNlcjpwdw==").

Definition tunnelProfile : Profile :=
  mkProfile "tunnel" "Tunnel" "manual" (Some socksOnly) None None
    (Some "dXNlcjpwdw==").

(** ** A warm cache and a logger *)

(** A state whose cache holds, for the manual flag that is off, a result
    that lasts longer than any pass of the samples. *)
Definition warmState : St :=
  mkSt (<[cacheKey "manualFlag" flagOff := mkCacheEntry (failure "cached" 0) 5000000]> ∅)
       0 [] [].

(** A logger that stores, with three entries in the order they were
    logged. *)
Definition storingConfig : LoggerConfig :=
  mkLoggerConfig LInfo 2 false true 3600000 102400.

Definition busyLogger : Logger :=
  mkLogger storingConfig
    [mkStoredLog 999100 LInfo "RuleEngine" "first" JUndefined;
     mkStoredLog 999200 LWarn "Probes" "second" JUndefined;
     mkStoredLog 999300 LError "RuleEngine" "third" JUndefined]
    false false [] 0.

(** A store that holds nothing and accepts everything. *)
Definition emptyStore : LogStore :=
  mkLogStore (fun _ => Ok None) (fun _ _ => Ok tt).

(* ================================================================== *)
(** * Properties *)
(* ================================================================== *)

(** ** The CIDR matcher *)

Lemma isIPInCIDR_returns (ip cidr : JsValue) : exists b, isIPInCIDR ip cidr = Ok b.
Proof.
  unfold isIPInCIDR. destruct (isIPInCIDR_try ip cidr) as [b|e]; eauto.
Qed.

Lemma isIPInCIDR_not_string (ip cidr : JsValue) :
  (forall s, cidr <> JStr s) -> isIPInCIDR ip cidr = Ok false.
Proof.
  intros H. unfold isIPInCIDR, isIPInCIDR_try.
  destruct cidr; simpl; try reflexivity. exfalso. eapply H. reflexivity.
Qed.



Lemma isIPInCIDR_ipv4 (ip cidr network prefixStr : string) (prefix : Z) :
  split "/"%char cidr = [network; prefixStr] ->
  parseInt prefixStr = Some prefix ->
  isIPv4 ip = true -> isIPv4 network = true ->
  let mask := shl (Some 4294967295) (Some (32 - prefix)) in
  isIPInCIDR (JStr ip) (JStr cidr)
  = Ok (band (Some (ipv4ToNumber ip)) (Some mask)
        =? band (Some (ipv4ToNumber network)) (Some mask)).
Proof.
  intros Hs Hp Hi Hn mask. unfold isIPInCIDR, isIPInCIDR_try. simpl.
  rewrite Hs, Hp, Hi, Hn. reflexivity.
Qed.

Lemma toInt32_cong (z : Z) : toInt32 (Some z) mod 2 ^ 32 = z mod 2 ^ 32.
Proof.
  unfold toInt32, toUint32.
  destruct (Z.ltb_spec (z mod 2 ^ 32) (2 ^ 31)).
  - apply Z.mod_mod. lia.
  - replace (z mod 2 ^ 32 - 2 ^ 32) with (z mod 2 ^ 32 + (-1) * 2 ^ 32) by lia.
    rewrite Z.mod_add by lia. apply Z.mod_mod. lia.
Qed.

Lemma shl8_cong (x x' d : Z) :
  x mod 2 ^ 32 = x' mod 2 ^ 32 ->
  (shl (Some x) (Some 8) + d) mod 2 ^ 32 = (x' * 256 + d) mod 2 ^ 32.
Proof.
  intros H. unfold shl.
  change (toUint32 (Some 8) mod 32) with 8. change (2 ^ 8) with 256.
  rewrite Z.add_mod by lia. rewrite toInt32_cong.
  rewrite Z.mul_mod by lia. rewrite toInt32_cong, H.
  rewrite <- Z.mul_mod by lia. rewrite <- Z.add_mod by lia. reflexivity.
Qed.

(** The number of a dotted quad is its four octets in base 256. *)
Lemma ipv4ToNumber_octets (ip p1 p2 p3 p4 : string) (a b c d : Z) :
  split "."%char ip = [p1; p2; p3; p4] ->
  parseInt p1 = Some a -> parseInt p2 = Some b ->
  parseInt p3 = Some c -> parseInt p4 = Some d ->
  0 <= a <= 255 -> 0 <= b <= 255 -> 0 <= c <= 255 -> 0 <= d <= 255 ->
  ipv4ToNumber ip = a * 2 ^ 24 + b * 2 ^ 16 + c * 2 ^ 8 + d.
Proof.
  intros Hs H1 H2 H3 H4 Ha Hb Hc Hd.
  unfold ipv4ToNumber. rewrite Hs. cbn [fold_left].
  rewrite H1, H2, H3, H4. cbn [nadd]. unfold toUint32 at 1.
  rewrite (shl8_cong _ (((0 * 256 + a) * 256 + b) * 256 + c)).
  - rewrite Z.mod_small by lia. lia.
  - rewrite (shl8_cong _ ((0 * 256 + a) * 256 + b)); [reflexivity|].
    rewrite (shl8_cong _ (0 * 256 + a)); [reflexivity|].
    rewrite (shl8_cong _ 0); reflexivity.
Qed.

Lemma land_neg_pow2 (x k : Z) : 0 <= k -> Z.land x (- 2 ^ k) = x / 2 ^ k * 2 ^ k.
Proof.
  intros Hk.
  replace (- 2 ^ k) with (Z.lnot (Z.ones k)).
  - rewrite <- Z.ldiff_land, Z.ldiff_ones_r by lia.
    rewrite Z.shiftl_mul_pow2, Z.shiftr_div_pow2 by lia. reflexivity.
  - unfold Z.lnot. rewrite Z.ones_equiv. lia.
Qed.

Lemma toInt32_small (z : Z) : - 2 ^ 31 <= z < 2 ^ 31 -> toInt32 (Some z) = z.
Proof.
  intros H. unfold toInt32, toUint32.
  destruct (Z.le_gt_cases 0 z).
  - rewrite Z.mod_small by lia.
    destruct (Z.ltb_spec z (2 ^ 31)); lia.
  - replace (z mod 2 ^ 32) with (z + 2 ^ 32).
    + destruct (Z.ltb_spec (z + 2 ^ 32) (2 ^ 31)); lia.
    + apply Z.mod_unique with (q := -1); lia.
Qed.

(** For a prefix length from 1 to 32 the mask is [-2^(32-prefix)]. *)
Lemma cidr_mask (prefix : Z) :
  1 <= prefix <= 32 ->
  shl (Some 4294967295) (Some (32 - prefix)) = - 2 ^ (32 - prefix).
Proof.
  intros H. unfold shl.
  assert (Hk : toUint32 (Some (32 - prefix)) mod 32 = 32 - prefix).
  { unfold toUint32. rewrite (Z.mod_small (32 - prefix)) by lia.
    apply Z.mod_small. lia. }
  rewrite Hk.
  change (toInt32 (Some 4294967295)) with (-1).
  apply toInt32_small.
  assert (0 < 2 ^ (32 - prefix)) by (apply Z.pow_pos_nonneg; lia).
  assert (2 ^ (32 - prefix) <= 2 ^ 31) by (apply Z.pow_le_mono_r; lia).
  lia.
Qed.

(** With a prefix length from 1 to 32, the masked comparison holds exactly
    when the two addresses agree on their [prefix] leading bits. *)
Lemma masked_compare (x y prefix : Z) :
  0 <= x < 2 ^ 32 -> 0 <= y < 2 ^ 32 -> 1 <= prefix <= 32 ->
  let mask := shl (Some 4294967295) (Some (32 - prefix)) in
  (band (Some x) (Some mask) =? band (Some y) (Some mask))
  = (x / 2 ^ (32 - prefix) =? y / 2 ^ (32 - prefix)).
Proof.
  intros Hx Hy Hp mask. subst mask. rewrite cidr_mask by assumption.
  set (k := 32 - prefix). assert (Hk : 0 <= k <= 31) by (subst k; lia).
  unfold band.
  assert (Hpk : 0 < 2 ^ k) by (apply Z.pow_pos_nonneg; lia).
  assert (Hm : toInt32 (Some (- 2 ^ k)) = - 2 ^ k).
  { apply toInt32_small.
    assert (2 ^ k <= 2 ^ 31) by (apply Z.pow_le_mono_r; lia). lia. }
  rewrite Hm, !land_neg_pow2 by lia.
  assert (H32 : 2 ^ 32 = 2 ^ (32 - k) * 2 ^ k).
  { rewrite <- Z.pow_add_r by lia. f_equal. lia. }
  assert (H31 : 2 ^ 31 = 2 ^ (31 - k) * 2 ^ k).
  { rewrite <- Z.pow_add_r by lia. f_equal. lia. }
  assert (Hq : 2 ^ (32 - k) = 2 * 2 ^ (31 - k)).
  { replace (32 - k) with (Z.succ (31 - k)) by lia. apply Z.pow_succ_r. lia. }
  assert (Hq0 : 0 < 2 ^ (31 - k)) by (apply Z.pow_pos_nonneg; lia).
  assert (Hsh : forall z, (z - 2 ^ 32) / 2 ^ k = z / 2 ^ k - 2 ^ (32 - k)).
  { intros z. rewrite H32.
    replace (z - 2 ^ (32 - k) * 2 ^ k) with (z + (- 2 ^ (32 - k)) * 2 ^ k) by lia.
    rewrite Z.div_add by lia. lia. }
  assert (Hlo : forall z, 0 <= z < 2 ^ 31 -> 0 <= z / 2 ^ k < 2 ^ (31 - k)).
  { intros z Hz. split.
    - apply Z.div_pos; lia.
    - apply Z.div_lt_upper_bound; lia. }
  assert (Hhi : forall z, 2 ^ 31 <= z < 2 ^ 32 ->
                          2 ^ (31 - k) <= z / 2 ^ k < 2 ^ (32 - k)).
  { intros z Hz. split.
    - apply Z.div_le_lower_bound; lia.
    - apply Z.div_lt_upper_bound; lia. }
  unfold toInt32, toUint32. rewrite !Z.mod_small by lia.
  destruct (Z.ltb_spec x (2 ^ 31)) as [Hx'|Hx'];
    destruct (Z.ltb_spec y (2 ^ 31)) as [Hy'|Hy'];
    rewrite ?Hsh.
  - destruct (Z.eqb_spec (x / 2 ^ k) (y / 2 ^ k)) as [E|E].
    + rewrite E. apply Z.eqb_refl.
    + apply Z.eqb_neq. nia.
  - pose proof (Hlo x ltac:(lia)). pose proof (Hhi y ltac:(lia)).
    transitivity false; [|symmetry]; apply Z.eqb_neq; nia.
  - pose proof (Hhi x ltac:(lia)). pose proof (Hlo y ltac:(lia)).
    transitivity false; [|symmetry]; apply Z.eqb_neq; nia.
  - destruct (Z.eqb_spec (x / 2 ^ k) (y / 2 ^ k)) as [E|E].
    + rewrite E. apply Z.eqb_refl.
    + apply Z.eqb_neq. nia.
Qed.

Lemma ipv4ToNumber_range (ip : string) : 0 <= ipv4ToNumber ip < 2 ^ 32.
Proof.
  unfold ipv4ToNumber, toUint32.
  destruct (fold_left _ _ _); [apply Z.mod_pos_bound|]; lia.
Qed.

(** What the masked comparison means for a prefix length from 1 to 32: the
    address and the network agree on their [prefix] leading bits. *)
Lemma isIPInCIDR_ipv4_prefix (ip cidr network prefixStr : string) (prefix : Z) :
  split "/"%char cidr = [network; prefixStr] ->
  parseInt prefixStr = Some prefix ->
  isIPv4 ip = true -> isIPv4 network = true ->
  1 <= prefix <= 32 ->
  isIPInCIDR (JStr ip) (JStr cidr)
  = Ok (ipv4ToNumber ip / 2 ^ (32 - prefix) =? ipv4ToNumber network / 2 ^ (32 - prefix)).
Proof.
  intros Hs Hp Hi Hn Hr.
  rewrite (isIPInCIDR_ipv4 ip cidr network prefixStr prefix Hs Hp Hi Hn).
  cbv zeta. f_equal.
  apply masked_compare; [apply ipv4ToNumber_range|apply ipv4ToNumber_range|exact Hr].
Qed.

(** With prefix length 0 the shift count 32 wraps to 0, the mask keeps all
    32 bits, and only the network address itself is inside. *)
Lemma isIPInCIDR_ipv4_prefix_zero (ip cidr network prefixStr : string) :
  split "/"%char cidr = [network; prefixStr] ->
  parseInt prefixStr = Some 0 ->
  isIPv4 ip = true -> isIPv4 network = true ->
  isIPInCIDR (JStr ip) (JStr cidr) = Ok (ipv4ToNumber ip =? ipv4ToNumber network).
Proof.
  intros Hs Hp Hi Hn.
  rewrite (isIPInCIDR_ipv4 ip cidr network prefixStr 0 Hs Hp Hi Hn).
  cbv zeta. f_equal.
  change (shl (Some 4294967295) (Some (32 - 0))) with (-1).
  unfold band. change (toInt32 (Some (-1))) with (-1). rewrite !Z.land_m1_r.
  pose proof (ipv4ToNumber_range ip) as Ha.
  pose proof (ipv4ToNumber_range network) as Hb.
  unfold toInt32, toUint32. rewrite !Z.mod_small by lia.
  destruct (Z.ltb_spec (ipv4ToNumber ip) (2 ^ 31)),
    (Z.ltb_spec (ipv4ToNumber network) (2 ^ 31)),
    (Z.eqb_spec (ipv4ToNumber ip) (ipv4ToNumber network));
    try lia; try reflexivity;
    first [apply Z.eqb_eq; lia | apply Z.eqb_neq; lia].
Qed.






(** ** Running the monad *)

Ltac mrun :=
  unfold bind, ret, liftRes, log, now, newDate, doFetch, doDnsResolve,
    doCaptivePortalGetState, tryCatch, attempt, throw, cacheGet, cacheSet,
    recordProbe, bumpTick in *;
  cbn beta iota zeta in *.

#[local] Arguments someRes : simpl never.
#[local] Arguments checkIPInCIDRRanges : simpl never.
#[local] Arguments isIPInCIDR : simpl never.
#[local] Arguments nonEmpty : simpl never.
#[local] Arguments getProp : simpl never.
#[local] Arguments strictEq : simpl never.
#[local] Arguments truthy : simpl never.

Lemma someRes_total {A} (f : A -> Res bool) (g : A -> bool) (l : list A) :
  (forall x, f x = Ok (g x)) -> someRes f l = Ok (existsb g l).
Proof.
  intros H. induction l as [|x xs IH]; [reflexivity|].
  unfold someRes; fold (@someRes A). rewrite H.
  cbn [existsb]. destruct (g x); [reflexivity|exact IH].
Qed.

Lemma isIPInCIDR_inCIDR (address : string) (cidr : JsValue) :
  isIPInCIDR (JStr address) cidr = Ok (inCIDR address cidr).
Proof.
  unfold inCIDR. destruct (isIPInCIDR_returns (JStr address) cidr) as [b Hb].
  rewrite Hb. reflexivity.
Qed.

Lemma checkIPInCIDRRanges_array (addrs : list string) (cidrs : list JsValue) :
  checkIPInCIDRRanges addrs (JArr cidrs)
  = Ok (existsb (fun address => existsb (inCIDR address) cidrs) addrs).
Proof.
  unfold checkIPInCIDRRanges. apply someRes_total. intros address.
  unfold someCIDR. apply someRes_total. intros cidr. apply isIPInCIDR_inCIDR.
Qed.

Lemma includesAddr_array (addrs : list string) (l : list JsValue) :
  someRes (includesAddr (JArr l)) addrs
  = Ok (existsb (fun addr => existsb (strictEq (JStr addr)) l) addrs).
Proof. apply someRes_total. intros addr. reflexivity. Qed.

(** ** Probes that catch everything return a result *)

Lemma getProp_notNullish (v : JsValue) (k : string) :
  notNullish v = true -> exists x, getProp v k = Ok x.
Proof.
  unfold getProp. destruct v; cbn; try discriminate; intros _; eauto.
  - destruct (String.eqb k "length"); eauto.
    destruct (arrayIndex k (String.length s)); eauto.
  - destruct (String.eqb k "length"); eauto.
    destruct (arrayIndex k (length items)); eauto.
Qed.

Lemma getProp_Ok_notNullish (v : JsValue) (k : string) (x : JsValue) :
  getProp v k = Ok x -> notNullish v = true.
Proof. destruct v; cbn; intros H; try reflexivity; discriminate. Qed.

Lemma tryCatch_returns {A} (body : M A) (handler : Thrown -> M A) (s : St) :
  (forall e s0, exists a s', handler e s0 = (Ok a, s')) ->
  exists a s', tryCatch body handler s = (Ok a, s').
Proof.
  intros H. unfold tryCatch. destruct (body s) as [[a|e] s0]; eauto.
Qed.

Lemma testDnsResolve_returns (env : Env) (trigger : JsValue) (s : St) :
  notNullish trigger = true ->
  exists r s', testDnsResolve env trigger s = (Ok r, s').
Proof.
  intros Hn. destruct (getProp_notNullish trigger "hostname" Hn) as [h Hh].
  unfold testDnsResolve, bind at 1, liftRes at 1. rewrite Hh.
  unfold bind at 1, log at 1.
  apply tryCatch_returns. intros e s0. mrun. eauto.
Qed.

Lemma testReachability_returns (env : Env) (trigger : JsValue) (s : St) :
  notNullish trigger = true ->
  exists r s', testReachability env trigger s = (Ok r, s').
Proof.
  intros Hn.
  destruct (getProp_notNullish trigger "url" Hn) as [u Hu].
  destruct (getProp_notNullish trigger "method" Hn) as [m Hm].
  unfold testReachability, bind at 1, now at 1, bind at 1, liftRes at 1.
  rewrite Hu. unfold bind at 1, liftRes at 1. rewrite Hm.
  unfold bind at 1, log at 1.
  apply tryCatch_returns. intros e s0. mrun. eauto.
Qed.

Lemma testCaptivePortal_returns (env : Env) (trigger : JsValue) (s : St) :
  notNullish trigger = true ->
  exists r s', testCaptivePortal env trigger s = (Ok r, s').
Proof.
  intros Hn. destruct (getProp_notNullish trigger "state" Hn) as [x Hx].
  unfold testCaptivePortal, bind at 1, liftRes at 1. rewrite Hx.
  unfold bind at 1, log at 1.
  apply tryCatch_returns. intros e s0. mrun. eauto.
Qed.

Lemma testIpInfo_returns (env : Env) (trigger : JsValue) (s : St) :
  notNullish trigger = true ->
  exists r s', testIpInfo env trigger s = (Ok r, s').
Proof.
  intros Hn.
  destruct (getProp_notNullish trigger "providerUrl" Hn) as [u Hu].
  destruct (getProp_notNullish trigger "expectOrg" Hn) as [o Ho].
  destruct (getProp_notNullish trigger "expectCountry" Hn) as [c Hc].
  unfold testIpInfo, bind at 1, liftRes at 1. rewrite Hu.
  unfold bind at 1, now at 1, bind at 1, liftRes at 1. rewrite Ho.
  unfold bind at 1, liftRes at 1. rewrite Hc.
  unfold bind at 1, log at 1.
  apply tryCatch_returns. intros e s0. mrun. eauto.
Qed.

Lemma testManualFlag_returns (env : Env) (trigger : JsValue) (s : St) :
  notNullish trigger = true ->
  exists r s', testManualFlag env trigger s = (Ok r, s').
Proof.
  intros Hn. destruct (getProp_notNullish trigger "value" Hn) as [x Hx].
  unfold testManualFlag. mrun. rewrite Hx. cbn. eauto.
Qed.

(** ** The DNS probe *)

Section DnsProbe.

Variable env : Env.
Variables (trigger hostname expect matches : JsValue).
Hypothesis Hhost : getProp trigger "hostname" = Ok hostname.
Hypothesis Hexpect : getProp trigger "expectIPCIDR" = Ok expect.
Hypothesis Hmatches : getProp trigger "matches" = Ok matches.

Lemma testDnsResolve_no_address (s : St) :
  resolvedAddresses (dnsResolve env (tick s) hostname) = [] ->
  exists r s', testDnsResolve env trigger s = (Ok r, s') /\ success r = JBool false.
Proof.
  intros Hres. unfold testDnsResolve. mrun. rewrite Hhost. cbn.
  destruct (dnsResolve env (tick s) hostname) as [[[[[|a l]|] cname]|]|e];
    cbn in *; try discriminate; eauto.
Qed.

Lemma testDnsResolve_ranges (s : St) (cidrs : list JsValue) :
  resolvedAddresses (dnsResolve env (tick s) hostname) <> [] ->
  expect = JArr cidrs -> cidrs <> [] ->
  strictEq matches (JStr "exact") = false ->
  exists r s',
    testDnsResolve env trigger s = (Ok r, s')
    /\ success r
       = JBool (existsb (fun address => existsb (inCIDR address) cidrs)
                  (resolvedAddresses (dnsResolve env (tick s) hostname))).
Proof.
  intros Hres -> Hne Hex. unfold testDnsResolve. mrun. rewrite Hhost. cbn.
  destruct (dnsResolve env (tick s) hostname) as [[[[[|a l]|] cname]|]|e];
    cbn in *; try congruence.
  rewrite Hexpect, Hmatches. cbn. rewrite Hex.
  assert (Hn : nonEmpty env (JArr cidrs) = true).
  { unfold nonEmpty, truthy, getProp. cbn.
    destruct cidrs as [|c cs]; [congruence|]. apply Z.ltb_lt. cbn [length]. lia. }
  rewrite Hn, checkIPInCIDRRanges_array. cbn. eauto.
Qed.

Lemma testDnsResolve_exact (s : St) (listed : list JsValue) :
  resolvedAddresses (dnsResolve env (tick s) hostname) <> [] ->
  expect = JArr listed ->
  strictEq matches (JStr "exact") = true ->
  exists r s',
    testDnsResolve env trigger s = (Ok r, s')
    /\ success r
       = JBool (existsb (fun addr => existsb (strictEq (JStr addr)) listed)
                  (resolvedAddresses (dnsResolve env (tick s) hostname))).
Proof.
  intros Hres -> Hex. unfold testDnsResolve. mrun. rewrite Hhost. cbn.
  destruct (dnsResolve env (tick s) hostname) as [[[[[|a l]|] cname]|]|e];
    cbn in *; try congruence.
  rewrite Hexpect, Hmatches. cbn. rewrite Hex.
  destruct (nonEmpty env (JArr listed)).
  - rewrite checkIPInCIDRRanges_array. cbn.
    rewrite includesAddr_array. cbn. eauto.
  - cbn. rewrite includesAddr_array. cbn. eauto.
Qed.

End DnsProbe.

(** C6 (amended). [testDnsResolve] reports [success:false] whenever no
    address is resolved.  With addresses resolved and [matches] other than
    ['exact'], a non-empty [expectIPCIDR] list makes success mean that some
    resolved address lies in some listed range.  With [matches = 'exact']
    and an [expectIPCIDR] list, empty or not, success means instead that some
    resolved address is, as a string, a member of the list; the range check
    plays no part. *)
Theorem testDnsResolve_success
    (env : Env) (trigger hostname expect matches : JsValue) (s : St) :
  getProp trigger "hostname" = Ok hostname ->
  getProp trigger "expectIPCIDR" = Ok expect ->
  getProp trigger "matches" = Ok matches ->
  let resolved := resolvedAddresses (dnsResolve env (tick s) hostname) in
  exists r s',
    testDnsResolve env trigger s = (Ok r, s')
    /\ (resolved = [] -> success r = JBool false)
    /\ (forall cidrs,
          resolved <> [] -> expect = JArr cidrs -> cidrs <> [] ->
          strictEq matches (JStr "exact") = false ->
          success r
          = JBool (existsb (fun address => existsb (inCIDR address) cidrs) resolved))
    /\ (forall listed,
          resolved <> [] -> expect = JArr listed ->
          strictEq matches (JStr "exact") = true ->
          success r
          = JBool (existsb (fun addr => existsb (strictEq (JStr addr)) listed) resolved)).
Proof.
  intros Hh He Hm resolved.
  destruct (testDnsResolve_returns env trigger s
              (getProp_Ok_notNullish _ _ _ Hh)) as (r & s' & Hrun).
  exists r, s'. split; [exact Hrun|]. split; [|split].
  - intros Hres.
    destruct (testDnsResolve_no_address env trigger hostname Hh s Hres)
      as (r0 & s0 & Hrun0 & Hs0).
    congruence.
  - intros cidrs Hres Heq Hne Hex.
    destruct (testDnsResolve_ranges env trigger hostname expect matches
                Hh He Hm s cidrs Hres Heq Hne Hex) as (r0 & s0 & Hrun0 & Hs0).
    subst resolved. congruence.
  - intros listed Hres Heq Hex.
    destruct (testDnsResolve_exact env trigger hostname expect matches
                Hh He Hm s listed Hres Heq Hex) as (r0 & s0 & Hrun0 & Hs0).
    subst resolved. congruence.
Qed.

Lemma testDnsResolve_success_witness :
  exists r s',
    testDnsResolve (dnsWorld ["10.0.0.5"]) dnsTriggerRanges initialState = (Ok r, s')
    /\ success r = JBool true.
Proof.
  destruct (testDnsResolve_success (dnsWorld ["10.0.0.5"]) dnsTriggerRanges
              (JStr "intranet.corp")
              (JArr [JStr "192.168.0.0/16"; JStr "10.0.0.0/8"]) JUndefined
              initialState eq_refl eq_refl eq_refl)
    as (r & s' & Hrun & _ & Hranges & _).
  exists r, s'. split; [exact Hrun|].
  rewrite (Hranges [JStr "192.168.0.0/16"; JStr "10.0.0.0/8"]).
  - vm_compute. reflexivity.
  - vm_compute. discriminate.
  - reflexivity.
  - discriminate.
  - reflexivity.
Defined.

Example testDnsResolve_exact_address :
  exists r s',
    testDnsResolve (dnsWorld ["10.0.0.7"; "10.0.0.5"]) dnsTriggerExact initialState
    = (Ok r, s')
    /\ success r = JBool true.
Proof. eexists _, _. split; [vm_compute; reflexivity|reflexivity]. Qed.

(** C6 as stated fails on an empty list: [expectIPCIDR: []] is given and no
    resolved address lies in a listed range, there being none, yet the probe
    reports success. *)
Lemma testDnsResolve_empty_list_succeeds :
  getProp dnsTriggerNoRanges "expectIPCIDR" = Ok (JArr [])
  /\ (exists r s',
        testDnsResolve (dnsWorld ["10.0.0.5"]) dnsTriggerNoRanges initialState
        = (Ok r, s')
        /\ success r = JBool true)
  /\ existsb (fun address => existsb (inCIDR address) []) ["10.0.0.5"] = false.
Proof.
  split; [reflexivity|]. split; [|reflexivity].
  eexists _, _. split; [vm_compute; reflexivity|reflexivity].
Qed.

(** ** The IP-info probe *)

Section IpInfoProbe.

Variable env : Env.
Variables (trigger providerUrl expectOrg expectCountry : JsValue).
Hypothesis Hurl : getProp trigger "providerUrl" = Ok providerUrl.
Hypothesis Horg : getProp trigger "expectOrg" = Ok expectOrg.
Hypothesis Hcountry : getProp trigger "expectCountry" = Ok expectCountry.

Let url := orElse providerUrl (JStr "https://ipinfo.io/json").

Lemma testIpInfo_fetch_throws (s : St) (e : Thrown) :
  fetch env (S (tick s)) url JUndefined = Throw e ->
  exists r s', testIpInfo env trigger s = (Ok r, s') /\ success r = JBool false.
Proof.
  intros Hf. unfold testIpInfo. mrun. rewrite Hurl. cbn. rewrite Horg, Hcountry. cbn.
  fold url. rewrite Hf. cbn. eauto.
Qed.

Lemma testIpInfo_not_ok (s : St) (resp : Response) :
  fetch env (S (tick s)) url JUndefined = Ok resp -> ok resp = false ->
  exists r s', testIpInfo env trigger s = (Ok r, s') /\ success r = JBool false.
Proof.
  intros Hf Hok. unfold testIpInfo. mrun. rewrite Hurl. cbn. rewrite Horg, Hcountry. cbn.
  fold url. rewrite Hf, Hok. cbn. eauto.
Qed.

Lemma testIpInfo_bad_json (s : St) (resp : Response) (e : Thrown) :
  fetch env (S (tick s)) url JUndefined = Ok resp -> ok resp = true ->
  json resp = Throw e ->
  exists r s', testIpInfo env trigger s = (Ok r, s') /\ success r = JBool false.
Proof.
  intros Hf Hok Hj. unfold testIpInfo. mrun. rewrite Hurl. cbn. rewrite Horg, Hcountry. cbn.
  fold url. rewrite Hf, Hok. cbn. rewrite Hj. cbn. eauto.
Qed.

Lemma testIpInfo_conditions (s : St) (resp : Response) (body org country : JsValue) :
  fetch env (S (tick s)) url JUndefined = Ok resp -> ok resp = true ->
  json resp = Ok body ->
  getProp body "org" = Ok org -> getProp body "country" = Ok country ->
  strOrAbsent expectOrg = true -> strOrAbsent expectCountry = true ->
  strOrAbsent org = true -> strOrAbsent country = true ->
  exists r s',
    testIpInfo env trigger s = (Ok r, s')
    /\ success r
       = JBool (orgCondition expectOrg org && countryCondition expectCountry country).
Proof.
  intros Hf Hok Hj Hbo Hbc Teo Tec To Tc.
  unfold testIpInfo. mrun. rewrite Hurl. cbn. rewrite Horg, Hcountry. cbn.
  fold url. rewrite Hf, Hok. cbn. rewrite Hj. cbn.
  unfold expectedAndPresent, orgCondition, countryCondition.
  rewrite Hbo, Hbc.
  destruct expectOrg as [| | | |eo| |]; try discriminate;
    destruct expectCountry as [| | | |ec| |]; try discriminate;
    destruct org as [| | | |o| |]; try discriminate;
    destruct country as [| | | |c| |]; try discriminate;
    unfold truthy; cbn;
    repeat match goal with
           | |- context [String.eqb ?x ""] => destruct (String.eqb x ""); cbn
           | |- context [strIncludes ?a ?b] => destruct (strIncludes a b); cbn
           end;
    eauto.
Qed.

End IpInfoProbe.

(** C7 (amended). For an IP-info probe whose expectations are strings or
    absent: when the provider answers OK with a document whose [org] and
    [country] are strings or absent, the probe reports success exactly when
    both conditions hold, where the organisation condition binds only if
    [expectOrg] and the returned [org] are both non-empty (then [expectOrg]
    must occur in [org], ignoring case) and the country condition binds only
    if [expectCountry] and the returned [country] are both non-empty (then
    they must be equal, ignoring case); a condition that does not bind is
    true.  A non-OK status, a network failure and an unreadable body give
    [success:false]. *)
Theorem testIpInfo_success
    (env : Env) (trigger providerUrl expectOrg expectCountry : JsValue) (s : St) :
  getProp trigger "providerUrl" = Ok providerUrl ->
  getProp trigger "expectOrg" = Ok expectOrg ->
  getProp trigger "expectCountry" = Ok expectCountry ->
  strOrAbsent expectOrg = true -> strOrAbsent expectCountry = true ->
  let url := orElse providerUrl (JStr "https://ipinfo.io/json") in
  let answer := fetch env (S (tick s)) url JUndefined in
  exists r s',
    testIpInfo env trigger s = (Ok r, s')
    /\ (forall resp body org country,
          answer = Ok resp -> ok resp = true -> json resp = Ok body ->
          getProp body "org" = Ok org -> getProp body "country" = Ok country ->
          strOrAbsent org = true -> strOrAbsent country = true ->
          success r
          = JBool (orgCondition expectOrg org
                   && countryCondition expectCountry country))
    /\ (forall resp, answer = Ok resp -> ok resp = false -> success r = JBool false)
    /\ (forall resp e, answer = Ok resp -> ok resp = true -> json resp = Throw e ->
                       success r = JBool false)
    /\ (forall e, answer = Throw e -> success r = JBool false).
Proof.
  intros Hu Ho Hc Teo Tec url answer.
  destruct (testIpInfo_returns env trigger s (getProp_Ok_notNullish _ _ _ Hu))
    as (r & s' & Hrun).
  exists r, s'. split; [exact Hrun|]. split; [|split; [|split]].
  - intros resp body org country Hf Hok Hj Hbo Hbc To Tc.
    destruct (testIpInfo_conditions env trigger providerUrl expectOrg expectCountry
                Hu Ho Hc s resp body org country Hf Hok Hj Hbo Hbc Teo Tec To Tc)
      as (r0 & s0 & Hrun0 & Hs0).
    congruence.
  - intros resp Hf Hok.
    destruct (testIpInfo_not_ok env trigger providerUrl expectOrg expectCountry
                Hu Ho Hc s resp Hf Hok) as (r0 & s0 & Hrun0 & Hs0).
    congruence.
  - intros resp e Hf Hok Hj.
    destruct (testIpInfo_bad_json env trigger providerUrl expectOrg expectCountry
                Hu Ho Hc s resp e Hf Hok Hj) as (r0 & s0 & Hrun0 & Hs0).
    congruence.
  - intros e Hf.
    destruct (testIpInfo_fetch_throws env trigger providerUrl expectOrg expectCountry
                Hu Ho Hc s e Hf) as (r0 & s0 & Hrun0 & Hs0).
    congruence.
Qed.

Lemma testIpInfo_success_witness :
  exists r s',
    testIpInfo (httpWorld ipInfoAnswerFull) ipInfoTriggerBoth initialState = (Ok r, s')
    /\ success r = JBool true.
Proof.
  destruct (testIpInfo_success (httpWorld ipInfoAnswerFull) ipInfoTriggerBoth
              JUndefined (JStr "acme") (JStr "us") initialState
              eq_refl eq_refl eq_refl eq_refl eq_refl)
    as (r & s' & Hrun & Hcond & _).
  exists r, s'. split; [exact Hrun|].
  rewrite (Hcond (mkResponse true 200 "OK" (Ok ipInfoAnswerFull)) ipInfoAnswerFull
             (JStr "AS64500 ACME Networks") (JStr "US")
             eq_refl eq_refl eq_refl eq_refl eq_refl eq_refl eq_refl).
  vm_compute. reflexivity.
Defined.

(** C7 as stated fails when the provider returns no [org]: [expectOrg] is
    given and occurs in no returned organisation, yet the probe reports
    success. *)
Lemma testIpInfo_missing_org_succeeds :
  getProp ipInfoTriggerOrg "expectOrg" = Ok (JStr "Acme")
  /\ getProp ipInfoAnswerNoOrg "org" = Ok JUndefined
  /\ exists r s',
       testIpInfo (httpWorld ipInfoAnswerNoOrg) ipInfoTriggerOrg initialState
       = (Ok r, s')
       /\ success r = JBool true.
Proof.
  split; [reflexivity|]. split; [reflexivity|].
  eexists _, _. split; [vm_compute; reflexivity|reflexivity].
Qed.

(** ** What the probes leave alone *)

(** The probe executor touches neither the cache nor the record of its own
    invocations; it only reads the world and writes to the log. *)

Lemma frame_refl (s : St) : frame s s.
Proof. split; reflexivity. Qed.

Lemma frame_trans (s1 s2 s3 : St) : frame s1 s2 -> frame s2 s3 -> frame s1 s3.
Proof. intros [H1 H2] [H3 H4]. split; congruence. Qed.

Lemma keeps_ret {A} (a : A) : keeps (ret a).
Proof. intros s. apply frame_refl. Qed.

Lemma keeps_throw {A} (e : Thrown) : keeps (@throw A e).
Proof. intros s. apply frame_refl. Qed.

Lemma keeps_liftRes {A} (r : Res A) : keeps (liftRes r).
Proof. intros s. apply frame_refl. Qed.

Lemma keeps_log (c : string) (l : LogLevel) (msg : string) : keeps (log c l msg).
Proof. intros s. split; reflexivity. Qed.

Lemma keeps_now (env : Env) : keeps (now env).
Proof. intros s. split; reflexivity. Qed.

Lemma keeps_newDate (env : Env) : keeps (newDate env).
Proof. intros s. split; reflexivity. Qed.

Lemma keeps_doFetch (env : Env) (u m : JsValue) : keeps (doFetch env u m).
Proof. intros s. split; reflexivity. Qed.

Lemma keeps_doDnsResolve (env : Env) (h : JsValue) : keeps (doDnsResolve env h).
Proof. intros s. split; reflexivity. Qed.

Lemma keeps_doCaptivePortalGetState (env : Env) : keeps (doCaptivePortalGetState env).
Proof. intros s. split; reflexivity. Qed.

Lemma keeps_bind {A B} (m : M A) (k : A -> M B) :
  keeps m -> (forall a, keeps (k a)) -> keeps (bind m k).
Proof.
  intros Hm Hk s. unfold bind. specialize (Hm s).
  destruct (m s) as [[a|e] s1]; cbn in *; [|exact Hm].
  eapply frame_trans; [exact Hm|apply Hk].
Qed.

Lemma keeps_tryCatch {A} (body : M A) (handler : Thrown -> M A) :
  keeps body -> (forall e, keeps (handler e)) -> keeps (tryCatch body handler).
Proof.
  intros Hb Hh s. unfold tryCatch. specialize (Hb s).
  destruct (body s) as [[a|e] s1]; cbn in *; [exact Hb|].
  eapply frame_trans; [exact Hb|apply Hh].
Qed.

Create HintDb keeps discriminated.
#[local] Hint Resolve keeps_ret keeps_throw keeps_liftRes keeps_log keeps_now
  keeps_newDate keeps_doFetch keeps_doDnsResolve keeps_doCaptivePortalGetState
  : keeps.

Ltac keeps_step :=
  match goal with
  | |- keeps (bind _ _) => apply keeps_bind; [|intros]
  | |- keeps (tryCatch _ _) => apply keeps_tryCatch; [|intros]
  | |- keeps (match ?x with _ => _ end) => destruct x
  | |- keeps _ => solve [auto with keeps]
  end.

Lemma keeps_testReachability (env : Env) (t : JsValue) : keeps (testReachability env t).
Proof. unfold testReachability. repeat keeps_step. Qed.

Lemma keeps_testDnsResolve (env : Env) (t : JsValue) : keeps (testDnsResolve env t).
Proof. unfold testDnsResolve. repeat keeps_step. Qed.

Lemma keeps_testCaptivePortal (env : Env) (t : JsValue) : keeps (testCaptivePortal env t).
Proof. unfold testCaptivePortal. repeat keeps_step. Qed.

Lemma keeps_testIpInfo (env : Env) (t : JsValue) : keeps (testIpInfo env t).
Proof. unfold testIpInfo. repeat keeps_step. Qed.

Lemma keeps_testTimeWindow (env : Env) (t : JsValue) : keeps (testTimeWindow env t).
Proof. unfold testTimeWindow. repeat keeps_step. Qed.

Lemma keeps_testManualFlag (env : Env) (t : JsValue) : keeps (testManualFlag env t).
Proof. unfold testManualFlag. repeat keeps_step. Qed.

Lemma testTimeWindow_returns (env : Env) (trigger : JsValue) (s : St) :
  notNullish trigger = true -> daysListed trigger = true ->
  exists r s', testTimeWindow env trigger s = (Ok r, s').
Proof.
  intros Hn Hd.
  destruct (getProp_notNullish trigger "days" Hn) as [days Hdays].
  destruct (getProp_notNullish trigger "from" Hn) as [from Hfrom].
  destruct (getProp_notNullish trigger "to" Hn) as [to Hto].
  destruct (getProp_notNullish trigger "tz" Hn) as [tz Htz].
  unfold daysListed in Hd. rewrite Hdays in Hd.
  unfold testTimeWindow. mrun.
  destruct (localTime env (tick s)) as [[day hours] minutes].
  rewrite Hdays. cbn.
  assert (Hne : nonEmpty env days = true ->
                exists b, includesDay days (if day =? 0 then 7 else day) = Ok b).
  { unfold nonEmpty, truthy, getProp, gtZero, includesDay.
    destruct days as [| |b|n|d|l|props]; cbn; try discriminate; eauto.
    - rewrite andb_false_r. discriminate.
    - rewrite andb_false_r. discriminate. }
  destruct (nonEmpty env days); [destruct (Hne eq_refl) as [b Hb]; rewrite Hb|];
    cbn.
  all: rewrite Hfrom; cbn; rewrite Hto; cbn; rewrite Htz; cbn; eauto.
Qed.

Lemma recognised_cases (triggerType : string) :
  recognised triggerType = true ->
  triggerType = "reachability" \/ triggerType = "dnsResolve"
  \/ triggerType = "captivePortal" \/ triggerType = "ipInfo"
  \/ triggerType = "timeWindow" \/ triggerType = "manualFlag".
Proof.
  unfold recognised. cbn [existsb]. rewrite !orb_true_iff, !String.eqb_eq.
  intuition discriminate.
Qed.

(** On a request it can serve, the executor returns a result: no probe
    throws. *)
Lemma execProbe_returns (env : Env) (triggerType : string) (trigger : JsValue) (s : St) :
  answerable triggerType trigger = true ->
  exists r s', execProbe env triggerType trigger s = (Ok r, s').
Proof.
  unfold answerable. rewrite !andb_true_iff, orb_true_iff, negb_true_iff.
  intros [[Hrec Hn] Hd].
  destruct (recognised_cases _ Hrec) as [-> | [-> | [-> | [-> | [-> | ->]]]]];
    unfold execProbe; cbn [String.eqb Ascii.eqb Bool.eqb andb];
    unfold bind at 1, recordProbe at 1.
  - apply testReachability_returns; exact Hn.
  - apply testDnsResolve_returns; exact Hn.
  - apply testCaptivePortal_returns; exact Hn.
  - apply testIpInfo_returns; exact Hn.
  - apply testTimeWindow_returns; [exact Hn|].
    destruct Hd as [Hd|Hd]; [discriminate Hd|exact Hd].
  - apply testManualFlag_returns; exact Hn.
Qed.

(** A call to the executor leaves the cache alone and is recorded once. *)
Lemma execProbe_frame (env : Env) (triggerType : string) (trigger : JsValue)
    (s s1 : St) (r : ProbeResult) :
  execProbe env triggerType trigger s = (Ok r, s1) ->
  probeCache s1 = probeCache s
  /\ probed s1 = (probed s ++ [(triggerType, trigger)])%list.
Proof.
  unfold execProbe.
  repeat match goal with
         | |- context [if String.eqb ?a ?b then _ else _] =>
             destruct (String.eqb a b)
         end;
    try (unfold throw; discriminate);
    unfold bind at 1, recordProbe at 1;
    match goal with
    | |- ?probe ?s0 = _ -> _ =>
        intros H;
        assert (F : frame s0 (snd (probe s0)))
          by (first [apply keeps_testReachability | apply keeps_testDnsResolve
                    | apply keeps_testCaptivePortal | apply keeps_testIpInfo
                    | apply keeps_testTimeWindow | apply keeps_testManualFlag]);
        rewrite H in F; destruct F as [F1 F2]; cbn in F1, F2; split; assumption
    end.
Qed.

(** ** The probe result cache *)

Section Cache.

Variable env : Env.
Variables (triggerType : string) (trigger : JsValue) (opts : Options).
Hypothesis Hcache : enableCache opts = true.

Let key := cacheKey triggerType trigger.

Lemma cacheLookup_hit (s : St) (c : CacheEntry) :
  probeCache s !! key = Some c -> dateNow env (tick s) < expiry c ->
  cacheLookup env key s
  = (Ok (Some (result c)),
     mkSt (probeCache s) (S (tick s))
       (logged s ++ [mkLog "RuleEngine" LDebug "Using cached probe result"])
       (probed s)).
Proof.
  intros Hc Ht. unfold cacheLookup. mrun. rewrite Hc. cbn.
  destruct (Z.ltb_spec (dateNow env (tick s)) (expiry c)); [reflexivity|lia].
Qed.

Lemma cacheLookup_miss (s : St) :
  (forall c, probeCache s !! key = Some c -> expiry c <= dateNow env (tick s)) ->
  cacheLookup env key s = (Ok None, afterMiss key s).
Proof.
  intros Hc. unfold cacheLookup, afterMiss. mrun.
  destruct (probeCache s !! key) as [c|]; [|reflexivity].
  specialize (Hc c eq_refl). cbn.
  destruct (Z.ltb_spec (dateNow env (tick s)) (expiry c)); [lia|reflexivity].
Qed.

Lemma getProbeResult_hit (s : St) (c : CacheEntry) :
  probeCache s !! key = Some c -> dateNow env (tick s) < expiry c ->
  getProbeResult env triggerType trigger opts s
  = (Ok (result c),
     mkSt (probeCache s) (S (tick s))
       (logged s ++ [mkLog "RuleEngine" LDebug "Using cached probe result"])
       (probed s)).
Proof.
  intros Hc Ht. unfold getProbeResult. rewrite Hcache. fold key.
  unfold bind at 1. rewrite (cacheLookup_hit s c Hc Ht). reflexivity.
Qed.

(** On a miss the probe runs; its result, if it returns one, is stored under
    the key with the time of storing plus [cacheTimeout]; if it throws,
    nothing is stored. *)
Lemma getProbeResult_miss (s : St) :
  (forall c, probeCache s !! key = Some c -> expiry c <= dateNow env (tick s)) ->
  getProbeResult env triggerType trigger opts s
  = match execProbe env triggerType trigger (afterMiss key s) with
    | (Ok r, s1) =>
        (Ok r,
         mkSt (<[key := mkCacheEntry r (dateNow env (tick s1) + cacheTimeout opts)]>
                 (probeCache s1))
           (S (tick s1)) (logged s1) (probed s1))
    | (Throw e, s1) => (Throw e, s1)
    end.
Proof.
  intros Hc. unfold getProbeResult. rewrite Hcache. fold key.
  unfold bind at 1. rewrite (cacheLookup_miss s Hc).
  unfold bind at 1.
  destruct (execProbe env triggerType trigger (afterMiss key s)) as [[r|e] s1];
    reflexivity.
Qed.

Lemma afterMiss_frame (s : St) :
  probeCache (afterMiss key s) = probeCache s /\ probed (afterMiss key s) = probed s.
Proof. unfold afterMiss. destruct (probeCache s !! key); split; reflexivity. Qed.

End Cache.

(** The sweep removes exactly the entries whose expiry is not after the
    time it reads; an entry it has not yet removed is one more case of a miss
    above. *)
Lemma cleanExpiredCache_sweeps (env : Env) (s : St) :
  exists s',
    cleanExpiredCache env s = (Ok tt, s')
    /\ forall k c,
         probeCache s' !! k = Some c
         <-> probeCache s !! k = Some c /\ dateNow env (tick s) < expiry c.
Proof.
  unfold cleanExpiredCache. mrun.
  match goal with
  | |- context [if ?b then _ else _] => destruct b
  end; eexists; (split; [reflexivity|]); intros k c; cbn [probeCache];
    rewrite lookup_difference_Some, map_lookup_filter_None; cbn [snd];
    (split; [intros [Hc Hno]; split; [exact Hc|];
             destruct Hno as [Hno|Hno]; [congruence|];
             specialize (Hno c Hc); lia
            |intros [Hc Ht]; split; [exact Hc|]; right; intros c' Hc'; 
             assert (c' = c) by congruence; subst c'; lia]).
Qed.

(** C4. With caching enabled, a probe request (one of the six trigger
    types, on a trigger that can be read) whose key has a cache entry with
    expiry strictly after now is answered with the cached result, the probe
    executor not being invoked and the cache left as it is.  Otherwise, no
    entry or one whose expiry has passed (swept or not), the probe is
    executed once, its result is stored under the key with expiry the time
    of storing plus [cacheTimeout], and returned.  By default caching is
    enabled and [cacheTimeout] is 60000 ms. *)
Theorem getProbeResult_cache
    (env : Env) (triggerType : string) (trigger : JsValue) (opts : Options) (s : St) :
  enableCache opts = true ->
  answerable triggerType trigger = true ->
  let key := cacheKey triggerType trigger in
  (forall c,
      probeCache s !! key = Some c -> dateNow env (tick s) < expiry c ->
      exists s',
        getProbeResult env triggerType trigger opts s = (Ok (result c), s')
        /\ probeCache s' = probeCache s
        /\ probed s' = probed s)
  /\ ((forall c, probeCache s !! key = Some c -> expiry c <= dateNow env (tick s)) ->
      exists r s1 s',
        execProbe env triggerType trigger (afterMiss key s) = (Ok r, s1)
        /\ getProbeResult env triggerType trigger opts s = (Ok r, s')
        /\ probeCache s'
           = <[key := mkCacheEntry r (dateNow env (tick s1) + cacheTimeout opts)]>
               (probeCache s)
        /\ probed s' = (probed s ++ [(triggerType, trigger)])%list)
  /\ cacheTimeout (withDefaults noOptions) = 60000
  /\ enableCache (withDefaults noOptions) = true.
Proof.
  intros Hcache Hans key. split; [|split; [|split; reflexivity]].
  - intros c Hc Ht. eexists. split.
    + apply getProbeResult_hit; eassumption.
    + split; reflexivity.
  - intros Hmiss.
    destruct (execProbe_returns env triggerType trigger (afterMiss key s) Hans)
      as (r & s1 & Hrun).
    destruct (execProbe_frame env _ _ _ _ _ Hrun) as [Fc Fp].
    destruct (afterMiss_frame triggerType trigger s) as [Ac Ap].
    fold key in Ac, Ap.
    exists r, s1. eexists. split; [exact Hrun|]. split.
    + rewrite (getProbeResult_miss env triggerType trigger opts Hcache s Hmiss).
      fold key. rewrite Hrun. reflexivity.
    + cbn. split; congruence.
Qed.

Lemma getProbeResult_cache_witness :
  exists r s',
    getProbeResult offlineWorld "manualFlag" flagOn DEFAULT_OPTIONS initialState
    = (Ok r, s')
    /\ probeCache s' !! cacheKey "manualFlag" flagOn
       = Some (mkCacheEntry r (1001000 + 60000))
    /\ probed s' = [("manualFlag", flagOn)].
Proof.
  destruct (getProbeResult_cache offlineWorld "manualFlag" flagOn DEFAULT_OPTIONS
              initialState eq_refl eq_refl) as (_ & Hmiss & _).
  destruct Hmiss as (r & s1 & s' & Hexec & Hrun & Hc & Hp).
  - intros c Hc. vm_compute in Hc. discriminate Hc.
  - exists r, s'. split; [exact Hrun|]. split; [|exact Hp].
    rewrite Hc. rewrite lookup_insert_eq.
    vm_compute in Hexec. injection Hexec as <- <-. reflexivity.
Defined.

(** C10. With caching enabled, the result of a fresh execution is stored
    whatever its [success], a failed one included, with expiry the time of
    storing plus [cacheTimeout]; as long as that entry is in the cache and
    has not expired, the same request is answered with that result and the
    probe executor is not invoked again. *)
Theorem fresh_result_is_cached
    (env : Env) (triggerType : string) (trigger : JsValue) (opts : Options)
    (s s' : St) (r : ProbeResult) :
  enableCache opts = true ->
  (forall c, probeCache s !! cacheKey triggerType trigger = Some c ->
             expiry c <= dateNow env (tick s)) ->
  getProbeResult env triggerType trigger opts s = (Ok r, s') ->
  let key := cacheKey triggerType trigger in
  exists s1,
    execProbe env triggerType trigger (afterMiss key s) = (Ok r, s1)
    /\ probeCache s' !! key
       = Some (mkCacheEntry r (dateNow env (tick s1) + cacheTimeout opts))
    /\ forall s2,
         probeCache s2 !! key = probeCache s' !! key ->
         dateNow env (tick s2) < dateNow env (tick s1) + cacheTimeout opts ->
         exists s3,
           getProbeResult env triggerType trigger opts s2 = (Ok r, s3)
           /\ probed s3 = probed s2
           /\ probeCache s3 = probeCache s2.
Proof.
  intros Hcache Hmiss Hrun key.
  rewrite (getProbeResult_miss env triggerType trigger opts Hcache s Hmiss) in Hrun.
  fold key in Hrun.
  destruct (execProbe env triggerType trigger (afterMiss key s)) as [[r0|e] s1];
    [|discriminate Hrun].
  injection Hrun as -> <-. exists s1. split; [reflexivity|].
  cbn [probeCache]. rewrite lookup_insert_eq. split; [reflexivity|].
  intros s2 Hc Ht. eexists. split.
  - apply (getProbeResult_hit env triggerType trigger opts Hcache s2
             (mkCacheEntry r (dateNow env (tick s1) + cacheTimeout opts)));
      [exact Hc|exact Ht].
  - split; reflexivity.
Qed.

Lemma fresh_result_is_cached_witness :
  exists r s' s3,
    getProbeResult offlineWorld "manualFlag" flagOff DEFAULT_OPTIONS initialState
    = (Ok r, s')
    /\ success r = JBool false
    /\ getProbeResult offlineWorld "manualFlag" flagOff DEFAULT_OPTIONS s'
       = (Ok r, s3)
    /\ probed s3 = probed s'.
Proof.
  pose (run := getProbeResult offlineWorld "manualFlag" flagOff DEFAULT_OPTIONS
                 initialState).
  assert (Hrun : run = (fst run, snd run)) by (destruct run; reflexivity).
  assert (Hok : exists r, fst run = Ok r /\ success r = JBool false).
  { eexists. split; [vm_compute; reflexivity|reflexivity]. }
  destruct Hok as (r & Hr & Hs). rewrite Hr in Hrun.
  destruct (fresh_result_is_cached offlineWorld "manualFlag" flagOff DEFAULT_OPTIONS
              initialState (snd run) r eq_refl) as (s1 & Hexec & Hstored & Hagain).
  - intros c Hc. vm_compute in Hc. discriminate Hc.
  - exact Hrun.
  - destruct (Hagain (snd run) eq_refl) as (s3 & Hrun3 & Hp & _).
    + vm_compute in Hexec. injection Hexec as _ <-. vm_compute. reflexivity.
    + exists r, (snd run), s3. repeat split; assumption.
Defined.

(** ** The cache key *)

(** Induction on values, with the induction hypothesis for every element of
    an array and every property of an object. *)
Lemma JsValue_nested_ind (P : JsValue -> Prop) :
  P JUndefined -> P JNull -> (forall b, P (JBool b)) -> (forall n, P (JNum n)) ->
  (forall s, P (JStr s)) ->
  (forall l, Forall P l -> P (JArr l)) ->
  (forall props, Forall (fun kv => P (snd kv)) props -> P (JObj props)) ->
  forall v, P v.
Proof.
  intros Hu Hn Hb Hz Hs Ha Ho. fix IH 1. intros [| |b|n|s|l|props].
  - exact Hu.
  - exact Hn.
  - apply Hb.
  - apply Hz.
  - apply Hs.
  - apply Ha. induction l as [|x xs IHl]; constructor; [apply IH|exact IHl].
  - apply Ho. induction props as [|[k x] ps IHp]; constructor; [apply IH|exact IHp].
Qed.

Lemma omap_omap_ext {A B C} (g : A -> option B) (f : B -> option C)
    (h : A -> option C) (l : list A) :
  Forall (fun x => match g x with Some y => f y | None => None end = h x) l ->
  omap f (omap g l) = omap h l.
Proof.
  induction 1 as [|x xs Hx _ IH]; [reflexivity|].
  cbn [omap list_omap]. rewrite <- Hx.
  destruct (g x) as [y|]; [|exact IH].
  cbn [omap list_omap]. destruct (f y); [f_equal|]; exact IH.
Qed.

Lemma stringify_serialForm (v : JsValue) : stringify (serialForm v) = stringify v.
Proof.
  induction v as [| | | | |l IH|props IH] using JsValue_nested_ind;
    try reflexivity.
  - cbn [serialForm stringify]. rewrite map_map.
    do 4 f_equal. apply map_ext_Forall.
    eapply Forall_impl; [exact IH|]. intros x Hx. cbn beta in Hx.
    destruct x; try reflexivity; rewrite Hx; reflexivity.
  - cbn [serialForm stringify].
    rewrite (omap_omap_ext _ _
               (fun kv => match stringify (snd kv) with
                          | Some t => Some (quoteJSON (fst kv) ++ ":" ++ t)
                          | None => None
                          end) props); [reflexivity|].
    eapply Forall_impl; [exact IH|]. intros [k x] Hx. cbn [snd fst] in *.
    destruct x; try reflexivity; cbn [snd fst]; rewrite Hx; reflexivity.
Qed.

(** C5 (amended). The cache key is the trigger type, [_] and the JSON text
    of the trigger parameters: it depends on the trigger type, on the content
    of the parameters and on the order of their defined keys.  Two trigger
    objects that have the same defined properties in the same order, values
    included, produce the same key; properties holding [undefined] do not
    count. *)
Theorem cacheKey_same_serial_form (triggerType : string) (a b : JsValue) :
  serialForm a = serialForm b ->
  cacheKey triggerType a = cacheKey triggerType b.
Proof.
  intros H. unfold cacheKey, stringifyText.
  rewrite <- (stringify_serialForm a), <- (stringify_serialForm b), H.
  reflexivity.
Qed.

Lemma cacheKey_same_serial_form_witness :
  cacheKey "dnsResolve" dnsTriggerHostUndefinedMatches
  = cacheKey "dnsResolve" dnsTriggerHostOnly.
Proof.
  apply (cacheKey_same_serial_form "dnsResolve" dnsTriggerHostUndefinedMatches
           dnsTriggerHostOnly).
  reflexivity.
Defined.

(** C5 as stated fails: the two triggers are structurally equal and differ
    only in the order their keys were inserted, yet their cache keys
    differ. *)
Lemma cacheKey_depends_on_key_order :
  structEq dnsTriggerHostFirst dnsTriggerMatchesFirst = true
  /\ cacheKey "dnsResolve" dnsTriggerHostFirst
     <> cacheKey "dnsResolve" dnsTriggerMatchesFirst.
Proof.
  split; [reflexivity|]. vm_compute. discriminate.
Qed.

(** ** The order in which rules are visited *)

Lemma insertByPriority_Permutation (r : Rule) (l : list Rule) :
  Permutation (insertByPriority r l) (r :: l).
Proof.
  induction l as [|x xs IH]; [reflexivity|].
  cbn [insertByPriority]. destruct (priority x <? priority r).
  - rewrite IH. apply perm_swap.
  - reflexivity.
Qed.

Lemma sortByPriority_Permutation (l : list Rule) : Permutation (sortByPriority l) l.
Proof.
  induction l as [|x xs IH]; [reflexivity|].
  cbn [sortByPriority fold_right]. fold (sortByPriority xs).
  rewrite insertByPriority_Permutation, IH. reflexivity.
Qed.

Lemma insertByPriority_sorted (r : Rule) (l : list Rule) :
  StronglySorted byPriority l -> StronglySorted byPriority (insertByPriority r l).
Proof.
  induction 1 as [|x xs Hs IH Hx]; cbn [insertByPriority].
  - repeat constructor.
  - destruct (Z.ltb_spec (priority x) (priority r)).
    + constructor; [exact IH|].
      rewrite insertByPriority_Permutation. constructor; [|exact Hx].
      unfold byPriority. lia.
    + constructor; [constructor; assumption|].
      constructor; [exact H|].
      eapply Forall_impl; [exact Hx|]. unfold byPriority. intros y Hy. lia.
Qed.

Lemma sortByPriority_sorted (l : list Rule) : StronglySorted byPriority (sortByPriority l).
Proof.
  induction l as [|x xs IH]; [constructor|].
  cbn [sortByPriority fold_right]. apply insertByPriority_sorted. exact IH.
Qed.

Lemma insertByPriority_filter (r : Rule) (l : list Rule) (p : Z) :
  filter (fun x => priority x = p) (insertByPriority r l)
  = filter (fun x => priority x = p) (r :: l).
Proof.
  induction l as [|x xs IH]; [reflexivity|].
  cbn [insertByPriority]. destruct (Z.ltb_spec (priority x) (priority r)); [|reflexivity].
  rewrite filter_cons, IH, !filter_cons.
  destruct (decide (priority x = p)), (decide (priority r = p)); try reflexivity.
  lia.
Qed.

(** Rules of equal priority keep the order in which they were met. *)
Lemma sortByPriority_stable (l : list Rule) (p : Z) :
  filter (fun x => priority x = p) (sortByPriority l)
  = filter (fun x => priority x = p) l.
Proof.
  induction l as [|x xs IH]; [reflexivity|].
  cbn [sortByPriority fold_right]. fold (sortByPriority xs).
  rewrite insertByPriority_filter, !filter_cons, IH. reflexivity.
Qed.

(** The rules visited are the enabled ones, each once, by ascending
    priority, ties in encounter order. *)
Lemma enabledRules_order (rules : list (string * Rule)) :
  Permutation (enabledRules rules) (filter (fun r => enabled r = true) (map snd rules))
  /\ StronglySorted byPriority (enabledRules rules)
  /\ forall p,
       filter (fun r => priority r = p) (enabledRules rules)
       = filter (fun r => priority r = p)
           (filter (fun r => enabled r = true) (map snd rules)).
Proof.
  unfold enabledRules. split; [apply sortByPriority_Permutation|].
  split; [apply sortByPriority_sorted|]. intros p. apply sortByPriority_stable.
Qed.

Lemma enabledRules_enabled (rules : list (string * Rule)) (r : Rule) :
  r ∈ enabledRules rules <-> r ∈ map snd rules /\ enabled r = true.
Proof.
  destruct (enabledRules_order rules) as (Hp & _).
  rewrite Hp, list_elem_of_filter. tauto.
Qed.

(** ** One rule *)

#[local] Arguments getProbeResult : simpl never.
#[local] Arguments setOwn : simpl never.

Section OneRule.

Variable env : Env.
Variables (r : Rule) (opts : Options).

Lemma evaluateTrigger_absent (k : string) (acc : bool * gmap string ProbeResult) (s : St) :
  notNullish (when r) = true -> present r k = false ->
  evaluateTrigger env r opts k acc s = (Ok acc, s).
Proof.
  intros Hn Hp. destruct (getProp_notNullish (when r) k Hn) as [trig Ht].
  unfold present in Hp. rewrite Ht in Hp.
  unfold evaluateTrigger. destruct acc as [m res]. mrun. rewrite Ht. cbn.
  rewrite Hp. reflexivity.
Qed.

(** A present trigger always leaves an entry: what its probe returned, or
    a failure record if the probe threw; the match flag survives only a
    returned result whose [success] is truthy. *)
Lemma evaluateTrigger_present (k : string) (m : bool) (res : gmap string ProbeResult)
    (s : St) (trig : JsValue) :
  getProp (when r) k = Ok trig -> truthy trig = true ->
  exists entry s',
    evaluateTrigger env r opts k (m, res) s
    = (Ok (m && truthy (success entry), setOwn (probeKey r k) entry res), s')
    /\ ((exists s1, getProbeResult env k trig opts s = (Ok entry, s1))
        \/ (exists e s1 t,
              getProbeResult env k trig opts s = (Throw e, s1)
              /\ entry = failure (errorMessageOf e "Unknown error") t)).
Proof.
  intros Ht Hp. unfold evaluateTrigger, probeKey. mrun. rewrite Ht. cbn. rewrite Hp. cbn.
  destruct (getProbeResult env k trig opts s) as [[pr|e] s1] eqn:E.
  - destruct (truthy (success pr)) eqn:Hs; cbn.
    + eexists pr, _. rewrite Hs, andb_true_r. split; [reflexivity|]. left. eauto.
    + eexists pr, _. rewrite Hs, andb_false_r. split; [reflexivity|]. left. eauto.
  - eexists (failure _ _), _. cbn [success failure].
    replace (truthy (JBool false)) with false by reflexivity.
    rewrite andb_false_r. split; [reflexivity|]. right. eauto.
Qed.

Lemma evaluateTrigger_returns (k : string) (acc : bool * gmap string ProbeResult) (s : St) :
  notNullish (when r) = true ->
  exists acc' s', evaluateTrigger env r opts k acc s = (Ok acc', s').
Proof.
  intros Hn. destruct (present r k) eqn:Hp.
  - unfold present in Hp.
    destruct (getProp (when r) k) as [trig|] eqn:Ht; [|discriminate].
    destruct acc as [m res].
    destruct (evaluateTrigger_present k m res s trig Ht Hp) as (entry & s' & H & _).
    eauto.
  - rewrite evaluateTrigger_absent by assumption. eauto.
Qed.

Lemma evaluateTriggers_returns (ks : list string) (acc : bool * gmap string ProbeResult)
    (s : St) :
  notNullish (when r) = true ->
  exists acc' s', evaluateTriggers env r opts ks acc s = (Ok acc', s').
Proof.
  intros Hn. revert acc s. induction ks as [|k ks IH]; intros acc s.
  - cbn. unfold ret. eauto.
  - cbn [evaluateTriggers]. unfold bind.
    destruct (evaluateTrigger_returns k acc s Hn) as (acc1 & s1 & H1).
    rewrite H1. apply IH.
Qed.

End OneRule.

Lemma objectKeys_notNullish (v : JsValue) :
  notNullish v = true -> exists ks, objectKeys v = Ok ks.
Proof. destruct v; cbn; try discriminate; eauto. Qed.

Lemma objectKeys_nullish (v : JsValue) :
  notNullish v = false -> objectKeys v = Throw TypeError.
Proof. destruct v; cbn; try discriminate; reflexivity. Qed.

(** [evaluateRule] throws on a rule whose [when] is [undefined] or [null],
    at [Object.keys], before any trigger is looked at. *)
Lemma evaluateRule_throws (env : Env) (r : Rule) (options : EvaluationOptions) (s : St) :
  notNullish (when r) = false ->
  evaluateRule env r options s
  = (Throw TypeError,
     mkSt (probeCache s) (tick s)
       (logged s ++ [mkLog "RuleEngine" LDebug "Evaluating individual rule triggers"])
       (probed s)).
Proof.
  intros Hn. unfold evaluateRule. mrun. rewrite (objectKeys_nullish _ Hn). reflexivity.
Qed.

(** On any other rule it returns: a trigger probe that throws is caught
    inside. *)
Lemma evaluateRule_returns (env : Env) (r : Rule) (options : EvaluationOptions) (s : St) :
  notNullish (when r) = true ->
  exists out s', evaluateRule env r options s = (Ok out, s').
Proof.
  intros Hn. destruct (objectKeys_notNullish _ Hn) as [ks Hks].
  unfold evaluateRule. unfold bind at 1, log at 1. unfold bind at 1, liftRes at 1.
  rewrite Hks. destruct ks as [|k ks].
  - mrun. eauto.
  - unfold bind at 1.
    match goal with
    | |- context [evaluateTriggers env r ?o ?l ?a ?s0] =>
        destruct (evaluateTriggers_returns env r o l a s0 Hn) as (acc & s1 & H)
    end.
    rewrite H. mrun. eauto.
Qed.

(** ** The entries one rule leaves *)



Lemma setOwn_keeps (key key' : string) (v : ProbeResult) (m : gmap string ProbeResult) :
  is_Some (m !! key') -> is_Some (setOwn key v m !! key').
Proof.
  intros H. unfold setOwn. destruct (String.eqb key "__proto__"); [exact H|].
  destruct (decide (key = key')) as [->|Hne].
  - rewrite lookup_insert_eq. eauto.
  - rewrite lookup_insert_ne by exact Hne. exact H.
Qed.


Lemma string_length_app (a b : string) :
  String.length (a ++ b) = (String.length a + String.length b)%nat.
Proof. induction a as [|c a IH]; [reflexivity|]. simpl. f_equal. exact IH. Qed.


Section Entries.

Variable env : Env.
Variables (r : Rule) (opts : Options).
Hypothesis Hwhen : notNullish (when r) = true.


End Entries.





(** ** One turn of the loop of [evaluateRules] *)

#[local] Arguments evaluateRule : simpl never.

Section Turn.

Variable env : Env.
Variables (opts : Options) (startTime : Z).

Lemma ruleTurn_throw (r : Rule) (acc : gmap string ProbeResult) (s s1 : St) (e : Thrown) :
  evaluateRule env r (asEvaluationOptions opts) (entering s) = (Throw e, s1) ->
  ruleTurn env opts startTime r acc s
  = (Ok (Continue (setOwn (id r ++ "_error") (errorEntry env e s1) acc)), caught s1).
Proof.
  intros H. unfold ruleTurn, ruleFailed. mrun. fold (entering s). rewrite H. reflexivity.
Qed.

Lemma ruleTurn_no_match (r : Rule) (acc : gmap string ProbeResult) (s s1 : St)
    (out : RuleOutcome) :
  evaluateRule env r (asEvaluationOptions opts) (entering s) = (Ok out, s1) ->
  ruleMatched out = false ->
  exists s2,
    ruleTurn env opts startTime r acc s = (Ok (Continue (ruleResults out ∪ acc)), s2)
    /\ probeCache s2 = probeCache s1 /\ probed s2 = probed s1 /\ tick s2 = tick s1.
Proof.
  intros H Hm. unfold ruleTurn. mrun. fold (entering s). rewrite H, Hm.
  destruct (stopOnMatch r); eexists; (split; [reflexivity|]); repeat split.
Qed.

Lemma ruleTurn_match (r : Rule) (acc : gmap string ProbeResult) (s s1 : St)
    (out : RuleOutcome) (target : JsValue) :
  evaluateRule env r (asEvaluationOptions opts) (entering s) = (Ok out, s1) ->
  ruleMatched out = true ->
  getProp (then_ r) "setActiveProfile" = Ok target ->
  ruleTurn env opts startTime r acc s
  = (Ok (Return (mkEvaluation true (Some r) (Some target) (ruleResults out ∪ acc)
                   (dateNow env (tick s1) - startTime))),
     mkSt (probeCache s1) (S (tick s1))
       (logged s1 ++ [mkLog "RuleEngine" LInfo "Rule matched"]) (probed s1)).
Proof.
  intros H Hm Ht. unfold ruleTurn. mrun. fold (entering s). rewrite H, Hm, Ht.
  reflexivity.
Qed.

Lemma ruleTurn_match_no_target (r : Rule) (acc : gmap string ProbeResult) (s s1 : St)
    (out : RuleOutcome) (e : Thrown) :
  evaluateRule env r (asEvaluationOptions opts) (entering s) = (Ok out, s1) ->
  ruleMatched out = true ->
  getProp (then_ r) "setActiveProfile" = Throw e ->
  ruleTurn env opts startTime r acc s
  = (Ok (Continue (setOwn (id r ++ "_error") (errorEntry env e s1)
                     (ruleResults out ∪ acc))), caught s1).
Proof.
  intros H Hm Ht. unfold ruleTurn, ruleFailed. mrun. fold (entering s).
  rewrite H, Hm, Ht. reflexivity.
Qed.

(** A turn never throws: it ends the evaluation with a match or hands the
    accumulated results, which only grow, to the next turn. *)
Lemma ruleTurn_returns (r : Rule) (acc : gmap string ProbeResult) (s : St) :
  exists step s',
    ruleTurn env opts startTime r acc s = (Ok step, s')
    /\ forall key, is_Some (acc !! key) ->
         match step with
         | Continue acc' => is_Some (acc' !! key)
         | Return res => is_Some (results res !! key)
         end.
Proof.
  assert (Hunion : forall (m : gmap string ProbeResult) key,
             is_Some (acc !! key) -> is_Some ((m ∪ acc) !! key)).
  { intros m key [v Hv]. rewrite lookup_union_is_Some. right. eauto. }
  destruct (evaluateRule env r (asEvaluationOptions opts) (entering s))
    as [[out|e] s1] eqn:H.
  - destruct (ruleMatched out) eqn:Hm.
    + destruct (getProp (then_ r) "setActiveProfile") as [target|e] eqn:Ht.
      * rewrite (ruleTurn_match r acc s s1 out target H Hm Ht).
        eexists _, _. split; [reflexivity|]. intros key Hk. apply Hunion, Hk.
      * rewrite (ruleTurn_match_no_target r acc s s1 out e H Hm Ht).
        eexists _, _. split; [reflexivity|]. intros key Hk.
        apply setOwn_keeps, Hunion, Hk.
    + destruct (ruleTurn_no_match r acc s s1 out H Hm) as (s2 & Hrun & _).
      rewrite Hrun. eexists _, _. split; [reflexivity|]. intros key Hk.
      apply Hunion, Hk.
  - rewrite (ruleTurn_throw r acc s s1 e H).
    eexists _, _. split; [reflexivity|]. intros key Hk. apply setOwn_keeps. exact Hk.
Qed.

(** The loop always comes to an end with a result, and no entry gets
    lost on the way. *)
Lemma evaluateLoop_returns (rs : list Rule) :
  forall (acc : gmap string ProbeResult) (s : St),
  exists res s',
    evaluateLoop env opts startTime rs acc s = (Ok res, s')
    /\ forall key, is_Some (acc !! key) -> is_Some (results res !! key).
Proof.
  induction rs as [|r rs IH]; intros acc s.
  - cbn [evaluateLoop]. mrun. eexists _, _. split; [reflexivity|]. auto.
  - cbn [evaluateLoop]. unfold bind.
    destruct (ruleTurn_returns r acc s) as (step & s1 & Hturn & Hkeep).
    rewrite Hturn. destruct step as [acc'|res].
    + destruct (IH acc' s1) as (res & s' & Hrun & Hkeep').
      exists res, s'. split; [exact Hrun|]. intros key Hk. apply Hkeep', Hkeep, Hk.
    + unfold ret. exists res, s1. split; [reflexivity|exact Hkeep].
Qed.

(** Rules passed over leave the loop where it would be without them. *)
Lemma evaluateLoop_passOver (before rest : list Rule) :
  forall (acc acc' : gmap string ProbeResult) (s s' : St),
    passOver env opts startTime before acc s = Some (acc', s') ->
    evaluateLoop env opts startTime (before ++ rest) acc s
    = evaluateLoop env opts startTime rest acc' s'.
Proof.
  induction before as [|r rs IH]; intros acc acc' s s' H.
  - cbn in H. injection H as <- <-. reflexivity.
  - cbn [passOver] in H. cbn [app evaluateLoop]. unfold bind.
    destruct (ruleTurn env opts startTime r acc s) as [[[acc1|res]|e] s1];
      try discriminate H.
    apply IH. exact H.
Qed.

(** A turn that ends the evaluation is the turn of a rule reported matched
    whose target profile can be read. *)
Lemma ruleTurn_Return_inv (r : Rule) (acc : gmap string ProbeResult) (s s' : St)
    (res : RuleEvaluationResult) :
  ruleTurn env opts startTime r acc s = (Ok (Return res), s') ->
  exists out s2 target,
    evaluateRule env r (asEvaluationOptions opts) (entering s) = (Ok out, s2)
    /\ ruleMatched out = true
    /\ getProp (then_ r) "setActiveProfile" = Ok target
    /\ res = mkEvaluation true (Some r) (Some target) (ruleResults out ∪ acc)
               (dateNow env (tick s2) - startTime).
Proof.
  intros H.
  destruct (evaluateRule env r (asEvaluationOptions opts) (entering s))
    as [[out|e] s1] eqn:E.
  - destruct (ruleMatched out) eqn:Hm.
    + destruct (getProp (then_ r) "setActiveProfile") as [target|e] eqn:Ht.
      * rewrite (ruleTurn_match r acc s s1 out target E Hm Ht) in H.
        injection H as <- _. exists out, s1, target. repeat split; assumption.
      * rewrite (ruleTurn_match_no_target r acc s s1 out e E Hm Ht) in H.
        discriminate H.
    + destruct (ruleTurn_no_match r acc s s1 out E Hm) as (s2 & Hrun & _).
      rewrite Hrun in H. discriminate H.
  - rewrite (ruleTurn_throw r acc s s1 e E) in H. discriminate H.
Qed.

(** What the loop returns tells how it went: a match names the first rule
    that was reported matched on its turn, the rules before it having been
    passed over; no match means that every rule was passed over. *)
Lemma evaluateLoop_inv (rs : list Rule) :
  forall (acc : gmap string ProbeResult) (s s' : St) (res : RuleEvaluationResult),
    evaluateLoop env opts startTime rs acc s = (Ok res, s') ->
    (matched res = true
     /\ exists before r after acc1 s1 out s2 target,
          rs = (before ++ r :: after)%list
          /\ passOver env opts startTime before acc s = Some (acc1, s1)
          /\ evaluateRule env r (asEvaluationOptions opts) (entering s1) = (Ok out, s2)
          /\ ruleMatched out = true
          /\ getProp (then_ r) "setActiveProfile" = Ok target
          /\ rule res = Some r /\ profileId res = Some target)
    \/ (matched res = false
        /\ rule res = None /\ profileId res = None
        /\ exists s1, passOver env opts startTime rs acc s = Some (results res, s1)).
Proof.
  induction rs as [|r rs IH]; intros acc s s' res H.
  - cbn [evaluateLoop] in H. mrun. injection H as <- _. right.
    repeat split. eexists. reflexivity.
  - cbn [evaluateLoop] in H. unfold bind in H.
    destruct (ruleTurn env opts startTime r acc s) as [[[acc'|res0]|e] s0] eqn:Hturn;
      [| |discriminate H].
    + destruct (IH acc' s0 s' res H)
        as [(Hm & before & r1 & after & acc1 & s1 & out & s2 & target
             & -> & Hpass & Hrest)
           |(Hm & Hr & Hp & s1 & Hpass)].
      * left. split; [exact Hm|].
        exists (r :: before), r1, after, acc1, s1, out, s2, target.
        split; [reflexivity|]. split; [|exact Hrest].
        cbn [passOver]. rewrite Hturn. exact Hpass.
      * right. repeat split; try assumption. exists s1.
        cbn [passOver]. rewrite Hturn. exact Hpass.
    + unfold ret in H. injection H as <- <-.
      destruct (ruleTurn_Return_inv r acc s s0 res0 Hturn)
        as (out & s2 & target & Hrun & Hm & Ht & ->).
      left. split; [reflexivity|].
      exists [], r, rs, acc, s, out, s2, target. repeat split; assumption.
Qed.

End Turn.

Lemma evaluateRules_loop (env : Env) (rules : list (string * Rule))
    (options : EvaluationOptions) (s : St) :
  enabledRules rules <> [] ->
  evaluateRules env rules options s
  = evaluateLoop env (withDefaults options) (dateNow env (tick s))
      (enabledRules rules) ∅ (started s).
Proof.
  intros Hne. unfold evaluateRules. mrun. fold (started s).
  destruct (enabledRules rules); [contradiction|reflexivity].
Qed.

(** [evaluateRules] always returns a result. *)
Lemma evaluateRules_returns (env : Env) (rules : list (string * Rule))
    (options : EvaluationOptions) (s : St) :
  exists res s', evaluateRules env rules options s = (Ok res, s').
Proof.
  destruct (enabledRules rules) as [|r rs] eqn:E.
  - unfold evaluateRules. mrun. rewrite E. cbn. eauto.
  - rewrite evaluateRules_loop by (rewrite E; discriminate).
    destruct (evaluateLoop_returns env (withDefaults options) (dateNow env (tick s))
                (enabledRules rules) ∅ (started s)) as (res & s' & H & _).
    eauto.
Qed.

(** ** The evaluation pass *)

Example priority_50_wins :
  exists res s',
    evaluateRules offlineWorld threeRules noOptions initialState = (Ok res, s')
    /\ matched res = true
    /\ rule res = Some (ruleAlways "b" 50 "fast")
    /\ profileId res = Some (JStr "fast").
Proof.
  eexists _, _. split; [vm_compute; reflexivity|]. repeat split.
Qed.

(** A match returned by [evaluateRules] is a rule of the mapping that is
    enabled, and every enabled rule ordered before it was passed over. *)
Lemma evaluateRules_matched_inv (env : Env) (rules : list (string * Rule))
    (options : EvaluationOptions) (s s' : St) (res : RuleEvaluationResult) :
  evaluateRules env rules options s = (Ok res, s') ->
  matched res = true ->
  exists before r after acc s1 target,
    enabledRules rules = (before ++ r :: after)%list
    /\ passOver env (withDefaults options) (dateNow env (tick s)) before ∅ (started s)
       = Some (acc, s1)
    /\ rule res = Some r /\ profileId res = Some target
    /\ getProp (then_ r) "setActiveProfile" = Ok target
    /\ r ∈ map snd rules /\ enabled r = true.
Proof.
  intros Hrun Hm. destruct (enabledRules rules) as [|r0 rs] eqn:E.
  - unfold evaluateRules in Hrun. mrun. rewrite E in Hrun. cbn in Hrun.
    injection Hrun as <- _. discriminate Hm.
  - rewrite evaluateRules_loop in Hrun by (rewrite E; discriminate).
    destruct (evaluateLoop_inv env _ _ _ _ _ _ _ Hrun)
      as [(_ & before & r & after & acc & s1 & out & s2 & target
           & Hsplit & Hpass & _ & _ & Ht & Hr & Hp)
         |(Hm' & _)]; [|congruence].
    exists before, r, after, acc, s1, target. rewrite <- E.
    repeat split; try assumption.
    + apply (enabledRules_enabled rules r). rewrite Hsplit.
      apply elem_of_app. right. apply elem_of_cons. left. reflexivity.
    + apply (enabledRules_enabled rules r). rewrite Hsplit.
      apply elem_of_app. right. apply elem_of_cons. left. reflexivity.
Qed.

(** C1. The rules [evaluateRules] visits are exactly the enabled ones, by
    ascending priority, rules of equal priority in the order they were met.
    When the rules before [r] in that order are evaluated in turn without a
    match and [r], on its turn, is reported matched by [evaluateRule],
    [evaluateRules] returns [matched:true] with [r] and
    [profileId = r.then.setActiveProfile], the results accumulated so far,
    and the rules after [r] are not evaluated: the cache and the record of
    probe calls are as [r]'s evaluation left them.  Three always-matching
    rules of priorities 200, 50 and 100 give the rule of priority 50. *)
Theorem evaluateRules_first_match
    (env : Env) (rules : list (string * Rule)) (options : EvaluationOptions) (s : St)
    (before after : list Rule) (r : Rule)
    (acc : gmap string ProbeResult) (s1 s2 : St) (out : RuleOutcome)
    (target : JsValue) :
  let opts := withDefaults options in
  let startTime := dateNow env (tick s) in
  enabledRules rules = (before ++ r :: after)%list ->
  passOver env opts startTime before ∅ (started s) = Some (acc, s1) ->
  evaluateRule env r (asEvaluationOptions opts) (entering s1) = (Ok out, s2) ->
  ruleMatched out = true ->
  getProp (then_ r) "setActiveProfile" = Ok target ->
  (Permutation (enabledRules rules)
     (filter (fun x => enabled x = true) (map snd rules))
   /\ StronglySorted byPriority (enabledRules rules)
   /\ forall p,
        filter (fun x => priority x = p) (enabledRules rules)
        = filter (fun x => priority x = p)
            (filter (fun x => enabled x = true) (map snd rules)))
  /\ (exists res s',
        evaluateRules env rules options s = (Ok res, s')
        /\ matched res = true
        /\ rule res = Some r
        /\ profileId res = Some target
        /\ enabled r = true
        /\ results res = ruleResults out ∪ acc
        /\ probeCache s' = probeCache s2
        /\ probed s' = probed s2)
  /\ (exists res s',
        evaluateRules offlineWorld threeRules noOptions initialState = (Ok res, s')
        /\ matched res = true
        /\ rule res = Some (ruleAlways "b" 50 "fast")
        /\ profileId res = Some (JStr "fast")).
Proof.
  intros opts startTime Hsplit Hpass Hrun Hm Ht. subst opts startTime.
  split; [apply enabledRules_order|]. split; [|apply priority_50_wins].
  rewrite evaluateRules_loop by (rewrite Hsplit; destruct before; discriminate).
  rewrite Hsplit.
  rewrite (evaluateLoop_passOver env _ _ before (r :: after) ∅ acc
             (started s) s1 Hpass).
  cbn [evaluateLoop]. unfold bind.
  rewrite (ruleTurn_match env _ _ r acc s1 s2 out target Hrun Hm Ht).
  unfold ret. eexists _, _. split; [reflexivity|]. repeat split.
  apply (enabledRules_enabled rules r). rewrite Hsplit.
  apply elem_of_app. right. apply elem_of_cons. left. reflexivity.
Qed.

Lemma evaluateRules_first_match_witness :
  exists res s',
    evaluateRules offlineWorld officeThenHome noOptions initialState = (Ok res, s')
    /\ matched res = true
    /\ rule res = Some (ruleAlways "r2" 20 "home")
    /\ profileId res = Some (JStr "home").
Proof.
  edestruct (evaluateRules_first_match offlineWorld officeThenHome noOptions
               initialState [ruleFlagOffWorkdays] [] (ruleAlways "r2" 20 "home"))
    as (_ & (res & s' & Hrun & Hm & Hr & Hp & _) & _).
  - reflexivity.
  - vm_compute. reflexivity.
  - vm_compute. reflexivity.
  - reflexivity.
  - reflexivity.
  - exists res, s'. repeat split; assumption.
Defined.

(** ** Faults *)

Lemma setOwn_error (ruleId : string) (v : ProbeResult) (m : gmap string ProbeResult) :
  setOwn (ruleId ++ "_error") v m = <[ruleId ++ "_error" := v]> m.
Proof.
  unfold setOwn. destruct (String.eqb_spec (ruleId ++ "_error") "__proto__") as [E|]; [|reflexivity].
  exfalso.
  assert (Hlen : String.length (ruleId ++ "_error") = 9%nat) by (rewrite E; reflexivity).
  rewrite string_length_app in Hlen. cbn in Hlen.
  destruct ruleId as [|c1 [|c2 [|c3 [|c4 i]]]]; cbn in Hlen; try lia.
  cbn in E. discriminate E.
Qed.

Lemma evaluateRule_throw_cause (env : Env) (r : Rule) (options : EvaluationOptions)
    (s s1 : St) (e : Thrown) :
  evaluateRule env r options s = (Throw e, s1) -> notNullish (when r) = false.
Proof.
  intros H. destruct (notNullish (when r)) eqn:Hn; [|reflexivity].
  destruct (evaluateRule_returns env r options s Hn) as (out & s' & Hok).
  congruence.
Qed.

Lemma evaluateTrigger_probe_throws (env : Env) (r : Rule) (opts : Options) (k : string)
    (m : bool) (res : gmap string ProbeResult) (s s1 : St) (trig : JsValue) (e : Thrown) :
  getProp (when r) k = Ok trig -> truthy trig = true ->
  getProbeResult env k trig opts s = (Throw e, s1) ->
  exists t s',
    evaluateTrigger env r opts k (m, res) s
    = (Ok (false, setOwn (probeKey r k) (failure (errorMessageOf e "Unknown error") t) res),
       s').
Proof.
  intros Ht Hp Hthrow.
  destruct (evaluateTrigger_present env r opts k m res s trig Ht Hp)
    as (entry & s' & Hrun & [[s2 Hok]|(e0 & s2 & t & Hth & ->)]).
  - congruence.
  - rewrite Hthrow in Hth. injection Hth as <- <-.
    rewrite Hrun. cbn [success failure].
    replace (truthy (JBool false)) with false by reflexivity.
    rewrite andb_false_r. eauto.
Qed.

(** C3 (amended). If [evaluateRule] throws for a rule, which happens only
    when the rule's [when] is [undefined] or [null], the loop of
    [evaluateRules] records the entry [<ruleId>_error] with [success:false],
    does not match the rule and goes on with the next rule; the entry is
    still there in the result returned.  A trigger probe that throws does
    not make [evaluateRule] throw: it is caught there, recorded as a failure
    under [<ruleId>_<triggerType>], and the rule does not match.  Neither
    kind of fault aborts the pass: [evaluateRules] always returns a
    result. *)
Theorem rule_fault_is_isolated
    (env : Env) (opts : Options) (startTime : Z) (r : Rule) (rest : list Rule)
    (acc : gmap string ProbeResult) (s s1 : St) (e : Thrown) :
  evaluateRule env r (asEvaluationOptions opts) (entering s) = (Throw e, s1) ->
  let key := id r ++ "_error" in
  let acc' := <[key := errorEntry env e s1]> acc in
  notNullish (when r) = false
  /\ success (errorEntry env e s1) = JBool false
  /\ ruleTurn env opts startTime r acc s = (Ok (Continue acc'), caught s1)
  /\ evaluateLoop env opts startTime (r :: rest) acc s
     = evaluateLoop env opts startTime rest acc' (caught s1)
  /\ (exists res s',
        evaluateLoop env opts startTime rest acc' (caught s1) = (Ok res, s')
        /\ is_Some (results res !! key))
  /\ (forall r0 k m res0 s0 s2 trig e0,
        getProp (when r0) k = Ok trig -> truthy trig = true ->
        getProbeResult env k trig opts s0 = (Throw e0, s2) ->
        exists t s',
          evaluateTrigger env r0 opts k (m, res0) s0
          = (Ok (false,
                 setOwn (probeKey r0 k)
                   (failure (errorMessageOf e0 "Unknown error") t) res0), s'))
  /\ (forall r0 options0 s0,
        notNullish (when r0) = true ->
        exists out s', evaluateRule env r0 options0 s0 = (Ok out, s'))
  /\ (forall rules options0 s0,
        exists res s', evaluateRules env rules options0 s0 = (Ok res, s')).
Proof.
  intros Hthrow key acc'.
  assert (Hturn : ruleTurn env opts startTime r acc s = (Ok (Continue acc'), caught s1)).
  { rewrite (ruleTurn_throw env opts startTime r acc s s1 e Hthrow).
    rewrite setOwn_error. reflexivity. }
  split; [eapply evaluateRule_throw_cause; exact Hthrow|].
  split; [reflexivity|]. split; [exact Hturn|]. split.
  { cbn [evaluateLoop]. unfold bind. rewrite Hturn. reflexivity. }
  split.
  { destruct (evaluateLoop_returns env opts startTime rest acc' (caught s1))
      as (res & s' & Hrun & Hkeep).
    exists res, s'. split; [exact Hrun|]. apply Hkeep.
    subst acc'. rewrite lookup_insert_eq. eauto. }
  split.
  { intros r0 k m res0 s0 s2 trig e0 Ht Hp Hth.
    eapply evaluateTrigger_probe_throws; eassumption. }
  split.
  { intros r0 options0 s0 Hn. apply evaluateRule_returns. exact Hn. }
  intros rules options0 s0. apply evaluateRules_returns.
Qed.

Lemma rule_fault_is_isolated_witness :
  exists res s',
    evaluateLoop offlineWorld DEFAULT_OPTIONS 1000000
      [ruleBroken; ruleAlways "r2" 20 "home"] ∅ (started initialState)
    = (Ok res, s')
    /\ is_Some (results res !! "bad_error")
    /\ matched res = true.
Proof.
  edestruct (rule_fault_is_isolated offlineWorld DEFAULT_OPTIONS 1000000 ruleBroken
               [ruleAlways "r2" 20 "home"] ∅ (started initialState))
    as (_ & _ & _ & Hloop & (res & s' & Hrun & Hkey) & _).
  - apply evaluateRule_throws. reflexivity.
  - exists res, s'. rewrite Hloop. split; [exact Hrun|]. split; [exact Hkey|].
    vm_compute in Hrun. injection Hrun as Hres _. rewrite <- Hres. reflexivity.
Defined.

(** C3 as stated fails for a trigger probe that throws: the probe of the
    unknown trigger type throws, yet the results hold no [r1_error] entry;
    the failure is recorded under [r1_vpn]. *)
Lemma probe_throw_leaves_no_error_entry :
  (exists s1,
     getProbeResult offlineWorld "vpn" (JObj []) DEFAULT_OPTIONS initialState
     = (Throw (ErrorObj "Unknown trigger type: vpn"), s1))
  /\ exists res s',
       evaluateRules offlineWorld [("r1", ruleUnknownTrigger)] noOptions initialState
       = (Ok res, s')
       /\ results res !! "r1_error" = None
       /\ exists t,
            results res !! "r1_vpn" = Some (failure "Unknown trigger type: vpn" t).
Proof.
  split.
  - eexists. vm_compute. reflexivity.
  - eexists _, _. split; [vm_compute; reflexivity|]. split; [reflexivity|].
    eexists. reflexivity.
Qed.

(** ** [stopOnMatch] *)

#[local] Arguments otherNotes : simpl never.

Lemma sameButStopNotes_refl (s : St) : sameButStopNotes s s.
Proof. repeat split. Qed.

Lemma otherNotes_app (a b : list LogEntry) :
  otherNotes (a ++ b) = (otherNotes a ++ otherNotes b)%list.
Proof. apply List.filter_app. Qed.

Lemma oblivious_ret {A} (a : A) : oblivious (ret a).
Proof. intros s s' H. split; [reflexivity|exact H]. Qed.

Lemma oblivious_throw {A} (e : Thrown) : oblivious (@throw A e).
Proof. intros s s' H. split; [reflexivity|exact H]. Qed.

Lemma oblivious_liftRes {A} (r : Res A) : oblivious (liftRes r).
Proof. intros s s' H. split; [reflexivity|exact H]. Qed.

Lemma oblivious_log (c : string) (l : LogLevel) (msg : string) : oblivious (log c l msg).
Proof.
  intros s s' (Hc & Ht & Hp & Hl). split; [reflexivity|].
  unfold log. cbn. repeat split; try assumption.
  cbn [logged]. rewrite !otherNotes_app, Hl. reflexivity.
Qed.

Lemma oblivious_recordProbe (t : string) (v : JsValue) : oblivious (recordProbe t v).
Proof.
  intros s s' (Hc & Ht & Hp & Hl). split; [reflexivity|].
  unfold recordProbe. cbn. repeat split; try assumption. rewrite Hp. reflexivity.
Qed.

Lemma oblivious_cacheGet (k : string) : oblivious (cacheGet k).
Proof.
  intros s s' (Hc & Ht & Hp & Hl). unfold cacheGet. cbn. rewrite Hc.
  split; [reflexivity|]. repeat split; assumption.
Qed.

Lemma oblivious_cacheSet (k : string) (e : CacheEntry) : oblivious (cacheSet k e).
Proof.
  intros s s' (Hc & Ht & Hp & Hl). split; [reflexivity|].
  unfold cacheSet. cbn. repeat split; try assumption. rewrite Hc. reflexivity.
Qed.

Lemma oblivious_now (env : Env) : oblivious (now env).
Proof.
  intros s s' (Hc & Ht & Hp & Hl). unfold now, bumpTick. cbn. rewrite Ht.
  split; [reflexivity|]. repeat split; assumption.
Qed.

Lemma oblivious_newDate (env : Env) : oblivious (newDate env).
Proof.
  intros s s' (Hc & Ht & Hp & Hl). unfold newDate, bumpTick. cbn. rewrite Ht.
  split; [reflexivity|]. repeat split; assumption.
Qed.

Lemma oblivious_doFetch (env : Env) (u m : JsValue) : oblivious (doFetch env u m).
Proof.
  intros s s' (Hc & Ht & Hp & Hl). unfold doFetch, bumpTick. cbn. rewrite Ht.
  split; [reflexivity|]. repeat split; assumption.
Qed.

Lemma oblivious_doDnsResolve (env : Env) (h : JsValue) : oblivious (doDnsResolve env h).
Proof.
  intros s s' (Hc & Ht & Hp & Hl). unfold doDnsResolve, bumpTick. cbn. rewrite Ht.
  split; [reflexivity|]. repeat split; assumption.
Qed.

Lemma oblivious_doCaptivePortalGetState (env : Env) :
  oblivious (doCaptivePortalGetState env).
Proof.
  intros s s' (Hc & Ht & Hp & Hl). unfold doCaptivePortalGetState, bumpTick. cbn.
  rewrite Ht. split; [reflexivity|]. repeat split; assumption.
Qed.

Lemma oblivious_bind {A B} (m : M A) (k : A -> M B) :
  oblivious m -> (forall a, oblivious (k a)) -> oblivious (bind m k).
Proof.
  intros Hm Hk s s' H. unfold bind. destruct (Hm s s' H) as [Hr Hs].
  destruct (m s) as [[a|e] s1], (m s') as [[a'|e'] s1']; cbn in *;
    try discriminate.
  - injection Hr as <-. apply Hk. exact Hs.
  - injection Hr as <-. split; [reflexivity|exact Hs].
Qed.

Lemma oblivious_tryCatch {A} (body : M A) (handler : Thrown -> M A) :
  oblivious body -> (forall e, oblivious (handler e)) ->
  oblivious (tryCatch body handler).
Proof.
  intros Hb Hh s s' H. unfold tryCatch. destruct (Hb s s' H) as [Hr Hs].
  destruct (body s) as [[a|e] s1], (body s') as [[a'|e'] s1']; cbn in *;
    try discriminate.
  - split; [exact Hr|exact Hs].
  - injection Hr as <-. apply Hh. exact Hs.
Qed.

Lemma oblivious_attempt {A} (m : M A) : oblivious m -> oblivious (attempt m).
Proof.
  intros Hm s s' H. unfold attempt. destruct (Hm s s' H) as [Hr Hs].
  destruct (m s) as [r s1], (m s') as [r' s1']; cbn in *.
  split; [congruence|exact Hs].
Qed.

Create HintDb oblivious discriminated.
#[local] Hint Resolve oblivious_ret oblivious_throw oblivious_liftRes oblivious_log
  oblivious_recordProbe oblivious_cacheGet oblivious_cacheSet oblivious_now
  oblivious_newDate oblivious_doFetch oblivious_doDnsResolve
  oblivious_doCaptivePortalGetState : oblivious.

Ltac oblivious_step :=
  match goal with
  | |- oblivious (bind _ _) => apply oblivious_bind; [|intros]
  | |- oblivious (tryCatch _ _) => apply oblivious_tryCatch; [|intros]
  | |- oblivious (attempt _) => apply oblivious_attempt
  | |- oblivious (match ?x with _ => _ end) => destruct x
  | |- oblivious _ => solve [auto with oblivious]
  end.

Lemma oblivious_execProbe (env : Env) (t : string) (v : JsValue) :
  oblivious (execProbe env t v).
Proof.
  unfold execProbe, testReachability, testDnsResolve, testCaptivePortal, testIpInfo,
    testTimeWindow, testManualFlag.
  repeat oblivious_step.
Qed.

Lemma oblivious_getProbeResult (env : Env) (t : string) (v : JsValue) (o : Options) :
  oblivious (getProbeResult env t v o).
Proof.
  pose proof (oblivious_execProbe env t v).
  unfold getProbeResult, cacheLookup. repeat oblivious_step; assumption.
Qed.

Lemma oblivious_evaluateTrigger (env : Env) (r : Rule) (o : Options) (k : string)
    (acc : bool * gmap string ProbeResult) :
  oblivious (evaluateTrigger env r o k acc).
Proof.
  unfold evaluateTrigger. destruct acc as [m res].
  oblivious_step; [auto with oblivious|].
  oblivious_step; [auto with oblivious|].
  oblivious_step; [apply oblivious_attempt, oblivious_getProbeResult|].
  repeat oblivious_step.
Qed.

Lemma oblivious_evaluateTriggers (env : Env) (r : Rule) (o : Options) (ks : list string) :
  forall acc, oblivious (evaluateTriggers env r o ks acc).
Proof.
  induction ks as [|k ks IH]; intros acc; cbn [evaluateTriggers].
  - apply oblivious_ret.
  - apply oblivious_bind; [apply oblivious_evaluateTrigger|exact IH].
Qed.

Lemma oblivious_evaluateRule (env : Env) (r : Rule) (o : EvaluationOptions) :
  oblivious (evaluateRule env r o).
Proof.
  unfold evaluateRule.
  apply oblivious_bind; [auto with oblivious|intros _].
  apply oblivious_bind; [auto with oblivious|intros ks].
  destruct ks.
  - repeat oblivious_step.
  - oblivious_step; [apply oblivious_evaluateTriggers|]. repeat oblivious_step.
Qed.

Lemma oblivious_ruleFailed (env : Env) (r : Rule) (acc : gmap string ProbeResult)
    (e : Thrown) :
  oblivious (ruleFailed env r acc e).
Proof. unfold ruleFailed. repeat oblivious_step. Qed.

Section StopOnMatch.

Variable env : Env.

Lemma evaluateTriggers_ext (r r' : Rule) (o : Options) (ks : list string) :
  id r = id r' -> when r = when r' ->
  forall acc s, evaluateTriggers env r o ks acc s = evaluateTriggers env r' o ks acc s.
Proof.
  intros Hid Hw. induction ks as [|k ks IH]; intros acc s; [reflexivity|].
  cbn [evaluateTriggers]. unfold bind.
  assert (E : evaluateTrigger env r o k acc s = evaluateTrigger env r' o k acc s).
  { unfold evaluateTrigger. rewrite Hid, Hw. reflexivity. }
  rewrite E. destruct (evaluateTrigger env r' o k acc s) as [[acc1|e] s1];
    [apply IH|reflexivity].
Qed.

(** [evaluateRule] reads [id] and [when], nothing else of the rule. *)
Lemma evaluateRule_ext (r r' : Rule) (o : EvaluationOptions) (s : St) :
  sameButStop r r' -> evaluateRule env r o s = evaluateRule env r' o s.
Proof.
  intros (Hid & _ & _ & _ & Hw & _). unfold evaluateRule. rewrite Hw.
  unfold bind at 1 3, log. unfold bind at 1 3, liftRes.
  destruct (objectKeys (when r')) as [[|k ks]|e]; try reflexivity.
  unfold bind. rewrite (evaluateTriggers_ext r r' _ _ Hid Hw). reflexivity.
Qed.

Lemma sameButStopNotes_stopNote (s s' : St) :
  sameButStopNotes s s' ->
  sameButStopNotes
    (mkSt (probeCache s) (tick s) (logged s ++ [stopNote]) (probed s)) s'.
Proof.
  intros (Hc & Ht & Hp & Hl). repeat split; try assumption.
  cbn [logged]. rewrite otherNotes_app, Hl. cbn. apply app_nil_r.
Qed.

Lemma sameButStopNotes_sym (s s' : St) : sameButStopNotes s s' -> sameButStopNotes s' s.
Proof. intros (Hc & Ht & Hp & Hl). repeat split; congruence. Qed.

Lemma sameButStopNotes_caught (s s' : St) :
  sameButStopNotes s s' -> sameButStopNotes (caught s) (caught s').
Proof.
  intros (Hc & Ht & Hp & Hl). unfold caught. repeat split; cbn; try congruence.
  cbn [logged]. rewrite !otherNotes_app, Hl. reflexivity.
Qed.

Lemma sameButStopNotes_entering (s s' : St) :
  sameButStopNotes s s' -> sameButStopNotes (entering s) (entering s').
Proof.
  intros (Hc & Ht & Hp & Hl). unfold entering. repeat split; cbn; try congruence.
  cbn [logged]. rewrite !otherNotes_app, Hl. reflexivity.
Qed.

(** One turn of the loop on two rules that differ in [stopOnMatch] only,
    from states that differ in stop notes only. *)
Lemma ruleTurn_stop (opts : Options) (startTime : Z) (r r' : Rule)
    (acc : gmap string ProbeResult) (s s' : St) :
  sameButStop r r' -> sameButStopNotes s s' ->
  exists a b t t',
    ruleTurn env opts startTime r acc s = (Ok a, t)
    /\ ruleTurn env opts startTime r' acc s' = (Ok b, t')
    /\ sameStep a b /\ sameButStopNotes t t'.
Proof.
  intros Hr Hs.
  pose proof Hr as (Hid & _ & _ & _ & _ & Hthen).
  destruct (oblivious_evaluateRule env r (asEvaluationOptions opts)
              (entering s) (entering s') (sameButStopNotes_entering _ _ Hs))
    as [Hres Hst].
  rewrite (evaluateRule_ext r r' _ (entering s') Hr) in Hres, Hst.
  destruct (evaluateRule env r (asEvaluationOptions opts) (entering s))
    as [[out|e] s1] eqn:E;
    destruct (evaluateRule env r' (asEvaluationOptions opts) (entering s'))
      as [[out'|e'] s1'] eqn:E'; cbn [fst snd] in Hres, Hst; try discriminate Hres.
  - injection Hres as <-. destruct (ruleMatched out) eqn:Hm.
    + destruct (getProp (then_ r) "setActiveProfile") as [target|e] eqn:Ht.
      * rewrite (ruleTurn_match env opts startTime r acc s s1 out target E Hm Ht).
        rewrite Hthen in Ht.
        rewrite (ruleTurn_match env opts startTime r' acc s' s1' out target E' Hm Ht).
        destruct Hst as (Hc & Htk & Hp & Hl).
        eexists _, _, _, _. split; [reflexivity|]. split; [reflexivity|]. split.
        -- unfold sameStep, sameVerdict.
           cbn [matched profileId results evaluationTime rule]. rewrite Htk.
           repeat split. constructor. exact Hr.
        -- repeat split; cbn; try congruence.
           cbn [logged]. rewrite !otherNotes_app, Hl. reflexivity.
      * rewrite (ruleTurn_match_no_target env opts startTime r acc s s1 out e E Hm Ht).
        rewrite Hthen in Ht.
        rewrite (ruleTurn_match_no_target env opts startTime r' acc s' s1' out e E' Hm Ht).
        destruct Hst as (Hc & Htk & Hp & Hl).
        eexists _, _, _, _. split; [reflexivity|]. split; [reflexivity|]. split.
        -- cbn. unfold errorEntry. rewrite Hid, Htk. reflexivity.
        -- apply sameButStopNotes_caught. repeat split; assumption.
    + unfold ruleTurn. mrun. fold (entering s) (entering s'). rewrite E, E', Hm.
      destruct Hst as (Hc & Htk & Hp & Hl).
      destruct (stopOnMatch r), (stopOnMatch r');
        eexists _, _, _, _; (split; [reflexivity|]); (split; [reflexivity|]);
        (split; [reflexivity|]); repeat split; cbn; try assumption;
        cbn [logged]; rewrite ?otherNotes_app, Hl; cbn; rewrite ?app_nil_r; reflexivity.
  - injection Hres as <-.
    rewrite (ruleTurn_throw env opts startTime r acc s s1 e E).
    rewrite (ruleTurn_throw env opts startTime r' acc s' s1' e E').
    destruct Hst as (Hc & Htk & Hp & Hl).
    eexists _, _, _, _. split; [reflexivity|]. split; [reflexivity|]. split.
    + cbn. unfold errorEntry. rewrite Hid, Htk. reflexivity.
    + apply sameButStopNotes_caught. repeat split; assumption.
Qed.

Lemma evaluateLoop_stop (opts : Options) (startTime : Z) (rs rs' : list Rule) :
  Forall2 sameButStop rs rs' ->
  forall (acc : gmap string ProbeResult) (s s' : St),
    sameButStopNotes s s' ->
    exists a b t t',
      evaluateLoop env opts startTime rs acc s = (Ok a, t)
      /\ evaluateLoop env opts startTime rs' acc s' = (Ok b, t')
      /\ sameVerdict a b /\ sameButStopNotes t t'.
Proof.
  induction 1 as [|r r' rs rs' Hr Hrs IH]; intros acc s s' Hs.
  - cbn [evaluateLoop]. mrun. destruct Hs as (Hc & Htk & Hp & Hl).
    eexists _, _, _, _. split; [reflexivity|]. split; [reflexivity|]. split.
    + unfold sameVerdict. cbn [matched profileId results evaluationTime rule tick].
      rewrite Htk. repeat split. constructor.
    + repeat split; cbn; try congruence.
      cbn [logged]. rewrite !otherNotes_app, Hl. reflexivity.
  - cbn [evaluateLoop]. unfold bind.
    destruct (ruleTurn_stop opts startTime r r' acc s s' Hr Hs)
      as (a & b & t & t' & Ha & Hb & Hab & Ht).
    rewrite Ha, Hb. destruct a as [x|x], b as [y|y]; cbn in Hab; try contradiction.
    + subst y. apply IH. exact Ht.
    + unfold ret. eexists _, _, _, _. split; [reflexivity|]. split; [reflexivity|].
      split; assumption.
Qed.

End StopOnMatch.

Lemma insertByPriority_stop (r r' : Rule) (l l' : list Rule) :
  sameButStop r r' -> Forall2 sameButStop l l' ->
  Forall2 sameButStop (insertByPriority r l) (insertByPriority r' l').
Proof.
  intros Hr. induction 1 as [|x x' l l' Hx Hl IH]; cbn [insertByPriority].
  - constructor; [exact Hr|constructor].
  - pose proof Hr as (_ & _ & _ & Hp & _). pose proof Hx as (_ & _ & _ & Hpx & _).
    rewrite <- Hp, <- Hpx. destruct (priority x <? priority r).
    + constructor; assumption.
    + constructor; [exact Hr|]. constructor; assumption.
Qed.

Lemma sortByPriority_stop (l l' : list Rule) :
  Forall2 sameButStop l l' ->
  Forall2 sameButStop (sortByPriority l) (sortByPriority l').
Proof.
  induction 1 as [|x x' l l' Hx Hl IH]; [constructor|].
  cbn [sortByPriority fold_right]. apply insertByPriority_stop; assumption.
Qed.

Lemma filter_enabled_stop (l l' : list Rule) :
  Forall2 sameButStop l l' ->
  Forall2 sameButStop (filter (fun r => enabled r = true) l)
    (filter (fun r => enabled r = true) l').
Proof.
  induction 1 as [|x x' l l' Hx Hl IH]; [constructor|].
  rewrite !filter_cons. pose proof Hx as (_ & _ & He & _). rewrite <- He.
  destruct (decide (enabled x = true)); [constructor|]; assumption.
Qed.

Lemma enabledRules_stop (rules rules' : list (string * Rule)) :
  sameRulesButStop rules rules' ->
  Forall2 sameButStop (enabledRules rules) (enabledRules rules').
Proof.
  intros H. unfold enabledRules. apply sortByPriority_stop, filter_enabled_stop.
  induction H as [|a b l l' [_ Hab] Hl IH]; cbn [map]; constructor; assumption.
Qed.

Lemma sameButStop_flip (r : Rule) : sameButStop r (flipStop r).
Proof. repeat split. Qed.

(** C9. Whatever the rules and the answers of the world, flipping
    [stopOnMatch] in any of the rules changes nothing in what
    [evaluateRules] returns but the [stopOnMatch] of the rule it carries: the
    matched flag, the identifier of the chosen rule, [profileId] and the
    results (so their keys) are the same, and so are the cache and the probe
    calls made; the two runs differ at most by the debug notes about
    [stopOnMatch] in the log. *)
Theorem stopOnMatch_has_no_effect
    (env : Env) (rules rules' : list (string * Rule)) (options : EvaluationOptions)
    (s : St) :
  sameRulesButStop rules rules' ->
  exists res res' t t',
    evaluateRules env rules options s = (Ok res, t)
    /\ evaluateRules env rules' options s = (Ok res', t')
    /\ matched res = matched res'
    /\ id <$> rule res = id <$> rule res'
    /\ profileId res = profileId res'
    /\ results res = results res'
    /\ dom (results res) = dom (results res')
    /\ sameButStopNotes t t'.
Proof.
  intros Hrules. pose proof (enabledRules_stop rules rules' Hrules) as Hen.
  assert (Hmain : exists res res' t t',
             evaluateRules env rules options s = (Ok res, t)
             /\ evaluateRules env rules' options s = (Ok res', t')
             /\ sameVerdict res res' /\ sameButStopNotes t t').
  { unfold evaluateRules. mrun. fold (started s).
    destruct Hen as [|r r' rs rs' Hr Hrs].
    - eexists _, _, _, _. split; [reflexivity|]. split; [reflexivity|]. split.
      + repeat split. constructor.
      + apply sameButStopNotes_refl.
    - apply (evaluateLoop_stop env (withDefaults options) (dateNow env (tick s))
               (r :: rs) (r' :: rs')); [constructor; assumption|].
      apply sameButStopNotes_refl. }
  destruct Hmain as (res & res' & t & t' & H1 & H2 & (Hm & Hp & Hres & _ & Hrule) & Ht).
  exists res, res', t, t'. repeat split; try assumption.
  - destruct Hrule as [x y (Hid & _)|]; [cbn; rewrite Hid|]; reflexivity.
  - rewrite Hres. reflexivity.
  - apply Ht.
  - apply Ht.
  - apply Ht.
  - apply Ht.
Qed.

Lemma stopOnMatch_has_no_effect_witness :
  exists res res' t t',
    evaluateRules offlineWorld officeThenHome noOptions initialState = (Ok res, t)
    /\ evaluateRules offlineWorld
         [("r1", flipStop ruleFlagOffWorkdays); ("r2", ruleAlways "r2" 20 "home")]
         noOptions initialState = (Ok res', t')
    /\ matched res = matched res'
    /\ profileId res = profileId res'
    /\ results res = results res'
    /\ logged t <> logged t'.
Proof.
  destruct (stopOnMatch_has_no_effect offlineWorld officeThenHome
              [("r1", flipStop ruleFlagOffWorkdays); ("r2", ruleAlways "r2" 20 "home")]
              noOptions initialState)
    as (res & res' & t & t' & H1 & H2 & Hm & _ & Hp & Hr & _).
  - constructor; [split; [reflexivity|apply sameButStop_flip]|].
    constructor; [split; [reflexivity|repeat split]|constructor].
  - exists res, res', t, t'. repeat split; try assumption.
    vm_compute in H1. vm_compute in H2.
    injection H1 as _ H1. injection H2 as _ H2. rewrite <- H1, <- H2.
    vm_compute. discriminate.
Defined.

(* ================================================================== *)
(** * The address matcher, the probes and the engine, further *)
(* ================================================================== *)

(** ** Dotted quads and prefix lengths *)

Lemma append_nil (s : string) : "" ++ s = s.
Proof. reflexivity. Qed.

Lemma append_cons (c : ascii) (a b : string) : String c a ++ b = String c (a ++ b).
Proof. reflexivity. Qed.

Lemma split_lacks (sep : ascii) (p : string) : lacks sep p = true -> split sep p = [p].
Proof.
  induction p as [|x r IH]; intros H; [reflexivity|].
  cbn [lacks] in H. apply andb_true_iff in H as [Hx Hr].
  cbn [split]. destruct (Ascii.eqb x sep); [discriminate|]. rewrite (IH Hr). reflexivity.
Qed.

Lemma split_app (sep : ascii) (p r : string) :
  lacks sep p = true -> split sep (p ++ String sep r) = p :: split sep r.
Proof.
  induction p as [|x p IH]; intros H.
  - rewrite append_nil. cbn [split]. rewrite Ascii.eqb_refl. reflexivity.
  - cbn [lacks] in H. apply andb_true_iff in H as [Hx Hr].
    rewrite append_cons. cbn [split]. destruct (Ascii.eqb x sep); [discriminate|].
    rewrite (IH Hr). reflexivity.
Qed.

Lemma lacks_app (c : ascii) (a b : string) :
  lacks c (a ++ b) = lacks c a && lacks c b.
Proof.
  induction a as [|x a IH]; [reflexivity|].
  rewrite append_cons. cbn [lacks]. rewrite IH, andb_assoc. reflexivity.
Qed.

Lemma concat_cons2 (sep a b : string) (l : list string) :
  String.concat sep (a :: b :: l) = a ++ sep ++ String.concat sep (b :: l).
Proof. reflexivity. Qed.

Lemma split_nonempty (sep : ascii) (s : string) : split sep s <> [].
Proof.
  destruct s as [|x r]; [discriminate|]. cbn [split].
  destruct (Ascii.eqb x sep); [discriminate|]. destruct (split sep r); discriminate.
Qed.

(** Cutting a string at a separator and joining the pieces with it gives
    the string back. *)
Lemma concat_split (sep : ascii) (s : string) :
  String.concat (String sep "") (split sep s) = s.
Proof.
  induction s as [|x r IH]; [reflexivity|].
  cbn [split]. pose proof (split_nonempty sep r) as Hne.
  destruct (split sep r) as [|p ps]; [contradiction|].
  destruct (Ascii.eqb_spec x sep) as [->|Hx].
  - rewrite concat_cons2, IH. reflexivity.
  - destruct ps as [|q qs].
    + cbn [String.concat] in *. rewrite IH. reflexivity.
    + rewrite concat_cons2 in *. rewrite append_cons, IH. reflexivity.
Qed.

(** A property checked on each of 0 .. 255 holds of every octet. *)
Lemma octet_cases (P : Z -> bool) :
  forallb P (map Z.of_nat (seq 0 256)) = true ->
  forall n, isOctet n = true -> P n = true.
Proof.
  intros H n Hn. unfold isOctet in Hn. apply andb_true_iff in Hn as [H0 H1].
  apply Z.leb_le in H0, H1.
  rewrite forallb_forall in H. apply H.
  apply in_map_iff. exists (Z.to_nat n). split; [lia|].
  apply in_seq. lia.
Qed.

Lemma octetText_ok (n : Z) : isOctet n = true -> octetText n = true.
Proof. apply octet_cases. vm_compute. reflexivity. Qed.

Lemma octet_parseInt (n : Z) : isOctet n = true -> parseInt (pretty n) = Some n.
Proof.
  intros H. apply octetText_ok in H. unfold octetText in H.
  repeat (apply andb_true_iff in H as [H _]).
  destruct (parseInt (pretty n)) as [m|]; [|discriminate].
  apply Z.eqb_eq in H. subst m. reflexivity.
Qed.

Lemma octet_lacks (n : Z) :
  isOctet n = true ->
  lacks "." (pretty n) = true /\ lacks "/" (pretty n) = true
  /\ lacks ":" (pretty n) = true.
Proof.
  intros H. apply octetText_ok in H. unfold octetText in H.
  apply andb_true_iff in H as [H H3]. apply andb_true_iff in H as [H H2].
  apply andb_true_iff in H as [_ H1]. auto.
Qed.

Lemma isOctet_range (n : Z) : isOctet n = true <-> 0 <= n <= 255.
Proof. unfold isOctet. rewrite andb_true_iff, !Z.leb_le. reflexivity. Qed.

Lemma isIPv4Part_octet (n : Z) : isOctet n = true -> isIPv4Part (pretty n) = true.
Proof.
  intros H. unfold isIPv4Part. rewrite (octet_parseInt n H). cbn [numToString].
  fold (isOctet n). rewrite H. apply String.eqb_refl.
Qed.

Lemma isIPv4Part_inv (part : string) :
  isIPv4Part part = true -> exists n, isOctet n = true /\ part = pretty n.
Proof.
  unfold isIPv4Part. destruct (parseInt part) as [n|]; [|discriminate].
  intros H. apply andb_true_iff in H as [Hr He]. exists n. split; [exact Hr|].
  apply String.eqb_eq in He. exact He.
Qed.

Section Dotted.

Variables a b c d : Z.
Hypothesis Ha : isOctet a = true.
Hypothesis Hb : isOctet b = true.
Hypothesis Hc : isOctet c = true.
Hypothesis Hd : isOctet d = true.

Lemma split_dotted :
  split "."%char (dotted a b c d) = [pretty a; pretty b; pretty c; pretty d].
Proof.
  unfold dotted.
  destruct (octet_lacks a Ha) as (La & _). destruct (octet_lacks b Hb) as (Lb & _).
  destruct (octet_lacks c Hc) as (Lc & _). destruct (octet_lacks d Hd) as (Ld & _).
  change (pretty a ++ "." ++ pretty b ++ "." ++ pretty c ++ "." ++ pretty d)
    with (pretty a ++ String "."%char (pretty b ++ String "."%char
                                         (pretty c ++ String "."%char (pretty d)))).
  rewrite !split_app by assumption. rewrite split_lacks by assumption. reflexivity.
Qed.

Lemma isIPv4_dotted : isIPv4 (dotted a b c d) = true.
Proof.
  unfold isIPv4. rewrite split_dotted. cbn [length forallb Nat.eqb andb].
  rewrite !isIPv4Part_octet by assumption. reflexivity.
Qed.

Lemma ipv4ToNumber_dotted : ipv4ToNumber (dotted a b c d) = quadValue a b c d.
Proof.
  apply isOctet_range in Ha as Ra, Hb as Rb, Hc as Rc, Hd as Rd.
  apply (ipv4ToNumber_octets _ _ _ _ _ a b c d split_dotted);
    try (apply octet_parseInt; assumption); assumption.
Qed.

Lemma lacks_slash_dotted : lacks "/" (dotted a b c d) = true.
Proof.
  unfold dotted.
  destruct (octet_lacks a Ha) as (_ & La & _). destruct (octet_lacks b Hb) as (_ & Lb & _).
  destruct (octet_lacks c Hc) as (_ & Lc & _). destruct (octet_lacks d Hd) as (_ & Ld & _).
  rewrite !lacks_app, La, Lb, Lc, Ld. reflexivity.
Qed.

Lemma split_cidr (p : Z) :
  isOctet p = true ->
  split "/"%char (dotted a b c d ++ "/" ++ pretty p) = [dotted a b c d; pretty p].
Proof.
  intros Hp. destruct (octet_lacks p Hp) as (_ & Lp & _).
  change (dotted a b c d ++ "/" ++ pretty p)
    with (dotted a b c d ++ String "/"%char (pretty p)).
  rewrite split_app by apply lacks_slash_dotted.
  rewrite split_lacks by assumption. reflexivity.
Qed.

End Dotted.

(** X1. For two dotted quads and a prefix length from 1 to 32, [isIPInCIDR]
    answers [true] exactly when the address and the network agree on their
    [prefix] leading bits: the two 32-bit numbers have the same quotient by
    [2^(32-prefix)]. *)
Theorem ipv4_cidr_leading_bits (a b c d a' b' c' d' p : Z) :
  isOctet a = true -> isOctet b = true -> isOctet c = true -> isOctet d = true ->
  isOctet a' = true -> isOctet b' = true -> isOctet c' = true -> isOctet d' = true ->
  1 <= p <= 32 ->
  isIPInCIDR (JStr (dotted a b c d)) (JStr (dotted a' b' c' d' ++ "/" ++ pretty p))
  = Ok (quadValue a b c d / 2 ^ (32 - p) =? quadValue a' b' c' d' / 2 ^ (32 - p)).
Proof.
  intros Ha Hb Hc Hd Ha' Hb' Hc' Hd' Hp.
  assert (Op : isOctet p = true) by (apply isOctet_range; lia).
  rewrite (isIPInCIDR_ipv4_prefix (dotted a b c d) _ (dotted a' b' c' d') (pretty p) p
             (split_cidr a' b' c' d' Ha' Hb' Hc' Hd' p Op) (octet_parseInt p Op)
             (isIPv4_dotted a b c d Ha Hb Hc Hd)
             (isIPv4_dotted a' b' c' d' Ha' Hb' Hc' Hd') Hp).
  rewrite !ipv4ToNumber_dotted by assumption. reflexivity.
Qed.

Lemma ipv4_cidr_leading_bits_witness :
  isIPInCIDR (JStr "192.168.7.9") (JStr "192.168.0.0/16") = Ok true
  /\ isIPInCIDR (JStr "192.169.7.9") (JStr "192.168.0.0/16") = Ok false.
Proof.
  split.
  - exact (ipv4_cidr_leading_bits 192 168 7 9 192 168 0 0 16
             eq_refl eq_refl eq_refl eq_refl eq_refl eq_refl eq_refl eq_refl
             (conj (Zle_bool_imp_le 1 16 eq_refl) (Zle_bool_imp_le 16 32 eq_refl))).
  - exact (ipv4_cidr_leading_bits 192 169 7 9 192 168 0 0 16
             eq_refl eq_refl eq_refl eq_refl eq_refl eq_refl eq_refl eq_refl
             (conj (Zle_bool_imp_le 1 16 eq_refl) (Zle_bool_imp_le 16 32 eq_refl))).
Defined.

(** X2. With prefix length 0 the shift count 32 wraps to 0 and the mask
    keeps every bit: an IPv4 address is in [network/0] only if it is the
    network address itself, octet for octet. *)
Theorem ipv4_cidr_prefix_zero (a b c d a' b' c' d' : Z) :
  isOctet a = true -> isOctet b = true -> isOctet c = true -> isOctet d = true ->
  isOctet a' = true -> isOctet b' = true -> isOctet c' = true -> isOctet d' = true ->
  isIPInCIDR (JStr (dotted a b c d)) (JStr (dotted a' b' c' d' ++ "/0"))
  = Ok ((a =? a') && (b =? b') && (c =? c') && (d =? d')).
Proof.
  intros Ha Hb Hc Hd Ha' Hb' Hc' Hd'.
  change (dotted a' b' c' d' ++ "/0") with (dotted a' b' c' d' ++ "/" ++ pretty 0).
  rewrite (isIPInCIDR_ipv4_prefix_zero (dotted a b c d) _ (dotted a' b' c' d') (pretty 0)
             (split_cidr a' b' c' d' Ha' Hb' Hc' Hd' 0 eq_refl) eq_refl
             (isIPv4_dotted a b c d Ha Hb Hc Hd)
             (isIPv4_dotted a' b' c' d' Ha' Hb' Hc' Hd')).
  rewrite !ipv4ToNumber_dotted by assumption. f_equal.
  apply isOctet_range in Ha, Hb, Hc, Hd, Ha', Hb', Hc', Hd'.
  unfold quadValue.
  destruct (Z.eqb_spec a a'), (Z.eqb_spec b b'), (Z.eqb_spec c c'), (Z.eqb_spec d d');
    cbn [andb]; first [apply Z.eqb_eq; lia | apply Z.eqb_neq; lia].
Qed.

Lemma ipv4_cidr_prefix_zero_witness :
  isIPInCIDR (JStr "10.0.0.5") (JStr "0.0.0.0/0") = Ok false
  /\ isIPInCIDR (JStr "10.0.0.5") (JStr "10.0.0.5/0") = Ok true.
Proof.
  split.
  - exact (ipv4_cidr_prefix_zero 10 0 0 5 0 0 0 0
             eq_refl eq_refl eq_refl eq_refl eq_refl eq_refl eq_refl eq_refl).
  - exact (ipv4_cidr_prefix_zero 10 0 0 5 10 0 0 5
             eq_refl eq_refl eq_refl eq_refl eq_refl eq_refl eq_refl eq_refl).
Defined.

(** X3. [isIPv4InCIDR] reads the prefix length modulo 32: adding any
    multiple of 32 to it changes nothing, since only the low five bits of
    the shift count [32 - prefix] are used. *)
Theorem isIPv4InCIDR_prefix_mod_32 (ip network : string) (prefix k : Z) :
  isIPv4InCIDR ip network (prefix + 32 * k) = isIPv4InCIDR ip network prefix.
Proof.
  unfold isIPv4InCIDR.
  assert (Hm : forall z, (z mod 2 ^ 32) mod 32 = z mod 32).
  { intros z. apply Z.mod_mod_divide. exists (2 ^ 27). reflexivity. }
  assert (E : shl (Some 4294967295) (Some (32 - (prefix + 32 * k)))
              = shl (Some 4294967295) (Some (32 - prefix))).
  { unfold shl, toUint32. rewrite !Hm.
    replace (32 - (prefix + 32 * k)) with (32 - prefix + (- k) * 32) by lia.
    rewrite Z.mod_add by lia. reflexivity. }
  rewrite E. reflexivity.
Qed.

(** X4. [isIPv4] accepts exactly the canonical dotted quads: four
    numbers from 0 to 255 in plain decimal (no sign, no leading zero, no
    space), joined by dots. *)
Theorem isIPv4_canonical (ip : string) :
  isIPv4 ip = true
  <-> exists a b c d,
        isOctet a = true /\ isOctet b = true /\ isOctet c = true /\ isOctet d = true
        /\ ip = dotted a b c d.
Proof.
  split.
  - unfold isIPv4. intros H. apply andb_true_iff in H as [Hl Hp].
    pose proof (concat_split "."%char ip) as Hj.
    destruct (split "."%char ip) as [|p1 [|p2 [|p3 [|p4 [|p5 l]]]]]; try discriminate Hl.
    cbn [forallb] in Hp.
    apply andb_true_iff in Hp as [H1 Hp]. apply andb_true_iff in Hp as [H2 Hp].
    apply andb_true_iff in Hp as [H3 Hp]. apply andb_true_iff in Hp as [H4 _].
    destruct (isIPv4Part_inv p1 H1) as (a & Ha & ->).
    destruct (isIPv4Part_inv p2 H2) as (b & Hb & ->).
    destruct (isIPv4Part_inv p3 H3) as (c & Hc & ->).
    destruct (isIPv4Part_inv p4 H4) as (d & Hd & ->).
    exists a, b, c, d. repeat (split; [assumption|]).
    rewrite <- Hj. reflexivity.
  - intros (a & b & c & d & Ha & Hb & Hc & Hd & ->). apply isIPv4_dotted; assumption.
Qed.

Lemma prefix_takeStr (n m : nat) (s : string) :
  (n <= m)%nat -> String.prefix (takeStr n s) (takeStr m s) = true.
Proof.
  revert m s. induction n as [|n IH]; intros m s H.
  - destruct (takeStr m s); reflexivity.
  - destruct m as [|m]; [lia|]. destruct s as [|x r]; [reflexivity|].
    cbn [takeStr String.prefix]. destruct (ascii_dec x x); [|contradiction].
    apply IH. lia.
Qed.

Lemma prefix_trans (a b c : string) :
  String.prefix a b = true -> String.prefix b c = true -> String.prefix a c = true.
Proof.
  revert b c. induction a as [|x a IH]; intros b c H1 H2.
  - destruct c; reflexivity.
  - destruct b as [|y b]; [discriminate|]. destruct c as [|z c]; [discriminate|].
    cbn [String.prefix] in *.
    destruct (ascii_dec x y) as [->|]; [|discriminate].
    destruct (ascii_dec y z); [|discriminate].
    exact (IH b c H1 H2).
Qed.

(** X5. For IPv6 a shorter prefix contains whatever a longer one does:
    the comparison is on the first [floor(prefix/4)] characters of the two
    lower-cased texts. *)
Theorem isIPv6InCIDR_shorter_prefix (ip network : string) (prefix prefix' : Z) :
  prefix' <= prefix ->
  isIPv6InCIDR ip network prefix = true ->
  isIPv6InCIDR ip network prefix' = true.
Proof.
  intros Hle H. unfold isIPv6InCIDR, startsWith, substring0 in *.
  eapply prefix_trans; [|exact H]. apply prefix_takeStr.
  pose proof (Z.div_le_mono prefix' prefix 4 ltac:(lia) Hle). lia.
Qed.

Lemma isIPv6InCIDR_shorter_prefix_witness :
  isIPv6InCIDR "2001:DB8::1" "2001:db8::" 16 = true.
Proof.
  apply (isIPv6InCIDR_shorter_prefix "2001:DB8::1" "2001:db8::" 32 16).
  - apply Zle_bool_imp_le. reflexivity.
  - reflexivity.
Defined.

(** X6. An IPv6 prefix length below 4, negative ones included, compares
    no character at all: every text is inside. *)
Theorem isIPv6InCIDR_below_four (ip network : string) (prefix : Z) :
  prefix < 4 -> isIPv6InCIDR ip network prefix = true.
Proof.
  intros H. unfold isIPv6InCIDR, startsWith, substring0.
  assert (E : Z.to_nat (prefix / 4) = 0%nat).
  { pose proof (Z.div_lt_upper_bound prefix 4 1 ltac:(lia) ltac:(lia)). lia. }
  rewrite E. destruct (toLowerCase network), (toLowerCase ip); reflexivity.
Qed.

Lemma isIPv6InCIDR_below_four_witness :
  isIPv6InCIDR "fe80::1" "2001:db8::" 3 = true.
Proof.
  apply (isIPv6InCIDR_below_four "fe80::1" "2001:db8::" 3).
  apply Z.ltb_lt. reflexivity.
Defined.

(** ** The time-window probe *)

(** A property checked on each of 0 .. n-1 holds below [n]. *)
Lemma range_cases (n : nat) (P : Z -> bool) :
  forallb P (map Z.of_nat (seq 0 n)) = true ->
  forall z, 0 <= z < Z.of_nat n -> P z = true.
Proof.
  intros H z Hz. rewrite forallb_forall in H. apply H.
  apply in_map_iff. exists (Z.to_nat z). split; [lia|].
  apply in_seq. lia.
Qed.

Lemma twoDigits_compare (x y : Z) :
  0 <= x < 100 -> 0 <= y < 100 ->
  String.compare (twoDigits x) (twoDigits y) = (x ?= y)
  /\ String.length (twoDigits x) = 2%nat.
Proof.
  intros Hx Hy.
  pose (P := fun a : Z =>
               Nat.eqb (String.length (twoDigits a)) 2
               && forallb (fun b : Z =>
                    match String.compare (twoDigits a) (twoDigits b), (a ?= b) with
                    | Eq, Eq | Lt, Lt | Gt, Gt => true
                    | _, _ => false
                    end) (map Z.of_nat (seq 0 100))).
  assert (HP : P x = true).
  { apply (range_cases 100 P); [vm_compute; reflexivity|exact Hx]. }
  unfold P in HP. apply andb_true_iff in HP as [Hl Hc].
  split; [|apply Nat.eqb_eq; exact Hl].
  pose proof (range_cases 100 _ Hc y Hy) as H. cbv beta in H.
  destruct (String.compare (twoDigits x) (twoDigits y)), (x ?= y);
    first [reflexivity | discriminate H].
Qed.

Lemma compare_app (p p' q q' : string) :
  String.length p = String.length p' ->
  String.compare (p ++ q) (p' ++ q')
  = match String.compare p p' with
    | Eq => String.compare q q'
    | c => c
    end.
Proof.
  revert p'. induction p as [|x p IH]; intros [|y p'] H; try discriminate H.
  - reflexivity.
  - rewrite !append_cons. cbn [String.compare].
    destruct (Ascii.compare x y); [|reflexivity|reflexivity].
    apply IH. injection H as H. exact H.
Qed.

(** Two times of day written [HH:MM] compare, as strings, the way their
    minutes since midnight do. *)
Lemma strLe_hhmm (a b c d : Z) :
  0 <= a < 100 -> 0 <= c < 100 -> isMinute b = true -> isMinute d = true ->
  strLe (hhmm a b) (hhmm c d) = (minuteOfDay a b <=? minuteOfDay c d).
Proof.
  intros Ha Hc Hb Hd. unfold isMinute in Hb, Hd.
  apply andb_true_iff in Hb as [Hb0 Hb1]. apply andb_true_iff in Hd as [Hd0 Hd1].
  apply Z.leb_le in Hb0, Hb1, Hd0, Hd1.
  destruct (twoDigits_compare a c Ha Hc) as [Hac Hla].
  destruct (twoDigits_compare c a Hc Ha) as [_ Hlc].
  destruct (twoDigits_compare b d ltac:(lia) ltac:(lia)) as [Hbd _].
  unfold strLe, hhmm. fold (twoDigits a) (twoDigits b) (twoDigits c) (twoDigits d).
  rewrite compare_app by congruence. rewrite Hac.
  change (":" ++ twoDigits b) with (String ":"%char (twoDigits b)).
  change (":" ++ twoDigits d) with (String ":"%char (twoDigits d)).
  cbn [String.compare].
  replace (Ascii.compare ":"%char ":"%char) with Eq by reflexivity.
  rewrite Hbd. unfold minuteOfDay.
  destruct (Z.compare_spec a c); destruct (Z.compare_spec b d); symmetry;
    first [apply Z.leb_le; lia | apply Z.leb_gt; lia].
Qed.

Lemma hhmm_truthy (h m : Z) : 0 <= h < 100 -> truthy (JStr (hhmm h m)) = true.
Proof.
  intros H. destruct (twoDigits_compare h h H H) as [_ Hl].
  unfold truthy, hhmm. fold (twoDigits h).
  destruct (twoDigits h); [discriminate Hl|reflexivity].
Qed.

Lemma existsb_strictEq_JNum (x : Z) (l : list Z) :
  existsb (strictEq (JNum x)) (map JNum l) = existsb (Z.eqb x) l.
Proof. induction l as [|y l IH]; [reflexivity|]. cbn. rewrite IH. reflexivity. Qed.

(** The outcome of the time-window probe on a trigger that carries all
    three conditions. *)
Lemma testTimeWindow_run (env : Env) (days : list Z) (fh fm th tm : Z) (s : St)
    (getDay h m : Z) :
  localTime env (tick s) = (getDay, h, m) ->
  isHour h = true -> isMinute m = true ->
  isHour fh = true -> isMinute fm = true ->
  isHour th = true -> isMinute tm = true ->
  exists r s',
    testTimeWindow env (timeWindowTrigger days fh fm th tm) s = (Ok r, s')
    /\ success r
       = JBool (dayListed days (dayNumber getDay)
                && (minuteOfDay fh fm <=? minuteOfDay h m)
                && (minuteOfDay h m <=? minuteOfDay th tm))
    /\ error r = None.
Proof.
  intros Hclock Hh Hm Hfh Hfm Hth Htm.
  assert (Rh : forall x, isHour x = true -> 0 <= x < 100).
  { intros x Hx. unfold isHour in Hx. apply andb_true_iff in Hx as [H0 H1].
    apply Z.leb_le in H0, H1. lia. }
  unfold testTimeWindow, timeWindowTrigger. mrun. rewrite Hclock.
  fold (dayNumber getDay). fold (hhmm h m).
  change (getProp (JObj ?p) ?k) with (Ok (lookupProp k p)).
  cbn [lookupProp String.eqb Ascii.eqb Bool.eqb].
  rewrite !hhmm_truthy by auto. cbn [andb timeGe timeLe].
  rewrite !strLe_hhmm by auto.
  assert (Hday : (if nonEmpty env (JArr (map JNum days))
                  then liftRes (includesDay (JArr (map JNum days)) (dayNumber getDay))
                  else ret true)
                 = ret (dayListed days (dayNumber getDay))).
  { destruct days as [|d0 ds]; [reflexivity|].
    replace (nonEmpty env (JArr (map JNum (d0 :: ds)))) with true.
    - unfold includesDay, liftRes, ret, dayListed.
      rewrite existsb_strictEq_JNum. reflexivity.
    - unfold nonEmpty, truthy, getProp, gtZero.
      cbn [String.eqb Ascii.eqb Bool.eqb andb length]. symmetry. apply Z.ltb_lt.
      cbn [map length]. lia. }
  mrun.
  match goal with
  | |- context [match (if nonEmpty env ?d then ?a else ?b) ?s0 with _ => _ end] =>
      change (if nonEmpty env d then a else b)
        with (if nonEmpty env (JArr (map JNum days))
              then liftRes (includesDay (JArr (map JNum days)) (dayNumber getDay))
              else ret true)
  end.
  rewrite Hday. unfold ret. cbn.
  eexists _, _. split; [reflexivity|]. split; [|reflexivity].
  cbn [success]. reflexivity.
Qed.

(** X7. On a trigger that lists days and gives both ends of the window
    as [HH:MM], the time-window probe returns, and succeeds exactly when
    today (Sunday counted as 7) is listed, or no day is, and the minute of the
    day lies between the two ends, both included: comparing the texts is
    comparing the times. *)
Theorem testTimeWindow_minutes (env : Env) (days : list Z) (fh fm th tm : Z) (s : St)
    (getDay h m : Z) :
  localTime env (tick s) = (getDay, h, m) ->
  isHour h = true -> isMinute m = true ->
  isHour fh = true -> isMinute fm = true ->
  isHour th = true -> isMinute tm = true ->
  exists r s',
    testTimeWindow env (timeWindowTrigger days fh fm th tm) s = (Ok r, s')
    /\ success r
       = JBool (dayListed days (dayNumber getDay)
                && (minuteOfDay fh fm <=? minuteOfDay h m)
                && (minuteOfDay h m <=? minuteOfDay th tm)).
Proof.
  intros Hclock Hh Hm Hfh Hfm Hth Htm.
  destruct (testTimeWindow_run env days fh fm th tm s getDay h m
              Hclock Hh Hm Hfh Hfm Hth Htm) as (r & s' & Hrun & Hs & _).
  exists r, s'. split; assumption.
Qed.

Lemma testTimeWindow_minutes_witness :
  exists r s',
    testTimeWindow offlineWorld (timeWindowTrigger [1; 2; 3; 4; 5] 9 0 17 0) initialState
    = (Ok r, s')
    /\ success r = JBool true.
Proof.
  destruct (testTimeWindow_minutes offlineWorld [1; 2; 3; 4; 5] 9 0 17 0 initialState
              3 10 0 eq_refl eq_refl eq_refl eq_refl eq_refl eq_refl eq_refl)
    as (r & s' & Hrun & Hs).
  exists r, s'. split; [exact Hrun|exact Hs].
Defined.

(** X8. A window whose end is earlier than its start (22:00 to 06:00)
    never matches, whatever the time of day and the days listed. *)
Theorem testTimeWindow_overnight_never (env : Env) (days : list Z) (fh fm th tm : Z)
    (s : St) (getDay h m : Z) :
  localTime env (tick s) = (getDay, h, m) ->
  isHour h = true -> isMinute m = true ->
  isHour fh = true -> isMinute fm = true ->
  isHour th = true -> isMinute tm = true ->
  minuteOfDay th tm < minuteOfDay fh fm ->
  exists r s',
    testTimeWindow env (timeWindowTrigger days fh fm th tm) s = (Ok r, s')
    /\ success r = JBool false.
Proof.
  intros Hclock Hh Hm Hfh Hfm Hth Htm Hlt.
  destruct (testTimeWindow_run env days fh fm th tm s getDay h m
              Hclock Hh Hm Hfh Hfm Hth Htm) as (r & s' & Hrun & Hs & _).
  exists r, s'. split; [exact Hrun|]. rewrite Hs. f_equal.
  destruct (Z.leb_spec (minuteOfDay fh fm) (minuteOfDay h m));
    destruct (Z.leb_spec (minuteOfDay h m) (minuteOfDay th tm));
    rewrite ?andb_false_r; try reflexivity. lia.
Qed.

Lemma testTimeWindow_overnight_never_witness :
  exists r s',
    testTimeWindow lateWorld (timeWindowTrigger [] 22 0 6 0) initialState = (Ok r, s')
    /\ success r = JBool false.
Proof.
  destruct (testTimeWindow_overnight_never lateWorld [] 22 0 6 0 initialState
              3 23 30 eq_refl eq_refl eq_refl eq_refl eq_refl eq_refl eq_refl)
    as (r & s' & Hrun & Hs).
  - unfold minuteOfDay. lia.
  - exists r, s'. split; [exact Hrun|exact Hs].
Defined.

(** ** The reachability and captive-portal probes *)

(** X9. The reachability probe never throws on a trigger whose
    properties can be read.  The request is made with the trigger's method,
    [HEAD] when it gives none; the probe succeeds exactly when the status of
    the response is [expectStatus], 200 when that is absent or 0, and a
    rejected request gives a failure that carries the message of the
    error. *)
Theorem testReachability_status (env : Env) (trigger : JsValue) (s : St) :
  notNullish trigger = true ->
  exists url method expect r s',
    getProp trigger "url" = Ok url
    /\ getProp trigger "method" = Ok method
    /\ getProp trigger "expectStatus" = Ok expect
    /\ testReachability env trigger s = (Ok r, s')
    /\ match fetch env (S (tick s)) url (orElse method (JStr "HEAD")) with
       | Ok response =>
           success r = JBool (strictEq (JNum (status response)) (orElse expect (JNum 200)))
           /\ error r = None
       | Throw e =>
           success r = JBool false
           /\ error r = Some (errorMessageOf e "Unknown error")
       end.
Proof.
  intros Hn.
  destruct (getProp_notNullish trigger "url" Hn) as [u Hu].
  destruct (getProp_notNullish trigger "method" Hn) as [m Hm].
  destruct (getProp_notNullish trigger "expectStatus" Hn) as [x Hx].
  exists u, m, x.
  unfold testReachability. mrun. rewrite Hu. cbn. rewrite Hm. cbn.
  destruct (fetch env (S (tick s)) u (orElse m (JStr "HEAD"))) as [resp|e]; cbn.
  - rewrite Hx. cbn. eexists _, _. repeat split; first [assumption|reflexivity].
  - eexists _, _. repeat split; first [assumption|reflexivity].
Qed.

Lemma testReachability_status_witness :
  exists r s',
    testReachability (httpWorld JNull) (JObj [("url", JStr "https://intranet.example")])
      initialState = (Ok r, s')
    /\ success r = JBool true.
Proof.
  destruct (testReachability_status (httpWorld JNull)
              (JObj [("url", JStr "https://intranet.example")]) initialState eq_refl)
    as (url & method & expect & r & s' & Hu & Hm & Hx & Hrun & H).
  exists r, s'. split; [exact Hrun|].
  injection Hu as <-. injection Hm as <-. injection Hx as <-.
  exact (proj1 H).
Defined.

(** X10. The captive-portal probe never throws on a trigger whose
    properties can be read: it succeeds exactly when the state the browser
    reports is the trigger's [state], reports that state in [data], and turns
    a fault of the browser call into a failure that carries its message. *)
Theorem testCaptivePortal_state (env : Env) (trigger : JsValue) (s : St) :
  notNullish trigger = true ->
  exists expected r s',
    getProp trigger "state" = Ok expected
    /\ testCaptivePortal env trigger s = (Ok r, s')
    /\ match captivePortalGetState env (tick s) with
       | Ok state =>
           success r = JBool (strictEq state expected)
           /\ data r = JObj [("state", state)] /\ error r = None
       | Throw e =>
           success r = JBool false
           /\ error r = Some (errorMessageOf e "Captive portal check failed")
       end.
Proof.
  intros Hn.
  destruct (getProp_notNullish trigger "state" Hn) as [x Hx].
  exists x.
  unfold testCaptivePortal. mrun. rewrite Hx. cbn.
  destruct (captivePortalGetState env (tick s)) as [st|e]; cbn;
    eexists _, _; repeat split; first [assumption|reflexivity].
Qed.

Lemma testCaptivePortal_state_witness :
  exists r s',
    testCaptivePortal offlineWorld (JObj [("state", JStr "locked")]) initialState
    = (Ok r, s')
    /\ success r = JBool false.
Proof.
  destruct (testCaptivePortal_state offlineWorld (JObj [("state", JStr "locked")])
              initialState eq_refl)
    as (expected & r & s' & Hx & Hrun & H).
  exists r, s'. split; [exact Hrun|].
  injection Hx as <-. exact (proj1 H).
Defined.

(** ** Computations that do not touch the cache *)

Lemma cacheBlind_ret {A} (a : A) : cacheBlind (ret a).
Proof. intros s c. reflexivity. Qed.

Lemma cacheBlind_throw {A} (e : Thrown) : cacheBlind (@throw A e).
Proof. intros s c. reflexivity. Qed.

Lemma cacheBlind_liftRes {A} (r : Res A) : cacheBlind (liftRes r).
Proof. intros s c. reflexivity. Qed.

Lemma cacheBlind_log (c : string) (l : LogLevel) (msg : string) : cacheBlind (log c l msg).
Proof. intros s c0. reflexivity. Qed.

Lemma cacheBlind_recordProbe (t : string) (v : JsValue) : cacheBlind (recordProbe t v).
Proof. intros s c. reflexivity. Qed.

Lemma cacheBlind_now (env : Env) : cacheBlind (now env).
Proof. intros s c. reflexivity. Qed.

Lemma cacheBlind_newDate (env : Env) : cacheBlind (newDate env).
Proof. intros s c. reflexivity. Qed.

Lemma cacheBlind_doFetch (env : Env) (u m : JsValue) : cacheBlind (doFetch env u m).
Proof. intros s c. reflexivity. Qed.

Lemma cacheBlind_doDnsResolve (env : Env) (h : JsValue) : cacheBlind (doDnsResolve env h).
Proof. intros s c. reflexivity. Qed.

Lemma cacheBlind_doCaptivePortalGetState (env : Env) :
  cacheBlind (doCaptivePortalGetState env).
Proof. intros s c. reflexivity. Qed.

Lemma cacheBlind_bind {A B} (m : M A) (k : A -> M B) :
  cacheBlind m -> (forall a, cacheBlind (k a)) -> cacheBlind (bind m k).
Proof.
  intros Hm Hk s c. unfold bind. rewrite (Hm s c).
  destruct (m s) as [[a|e] s1]; cbn [fst snd]; [apply Hk|reflexivity].
Qed.

Lemma cacheBlind_tryCatch {A} (body : M A) (handler : Thrown -> M A) :
  cacheBlind body -> (forall e, cacheBlind (handler e)) ->
  cacheBlind (tryCatch body handler).
Proof.
  intros Hb Hh s c. unfold tryCatch. rewrite (Hb s c).
  destruct (body s) as [[a|e] s1]; cbn [fst snd]; [reflexivity|apply Hh].
Qed.

Lemma cacheBlind_attempt {A} (m : M A) : cacheBlind m -> cacheBlind (attempt m).
Proof.
  intros Hm s c. unfold attempt. rewrite (Hm s c).
  destruct (m s) as [r s1]; reflexivity.
Qed.

Create HintDb cacheBlind discriminated.
#[local] Hint Resolve cacheBlind_ret cacheBlind_throw cacheBlind_liftRes cacheBlind_log
  cacheBlind_recordProbe cacheBlind_now cacheBlind_newDate cacheBlind_doFetch
  cacheBlind_doDnsResolve cacheBlind_doCaptivePortalGetState : cacheBlind.

Ltac cacheBlind_step :=
  match goal with
  | |- cacheBlind (bind _ _) => apply cacheBlind_bind; [|intros]
  | |- cacheBlind (tryCatch _ _) => apply cacheBlind_tryCatch; [|intros]
  | |- cacheBlind (attempt _) => apply cacheBlind_attempt
  | |- cacheBlind (match ?x with _ => _ end) => destruct x
  | |- cacheBlind _ => solve [auto with cacheBlind]
  end.

Lemma cacheBlind_execProbe (env : Env) (t : string) (v : JsValue) :
  cacheBlind (execProbe env t v).
Proof.
  unfold execProbe, testReachability, testDnsResolve, testCaptivePortal, testIpInfo,
    testTimeWindow, testManualFlag.
  repeat cacheBlind_step.
Qed.

Lemma cacheBlind_getProbeResult (env : Env) (t : string) (v : JsValue) (o : Options) :
  enableCache o = false -> cacheBlind (getProbeResult env t v o).
Proof.
  intros H. unfold getProbeResult. rewrite H.
  pose proof (cacheBlind_execProbe env t v).
  repeat cacheBlind_step.
Qed.
#[local] Hint Resolve cacheBlind_execProbe cacheBlind_getProbeResult : cacheBlind.

Lemma cacheBlind_evaluateTrigger (env : Env) (r : Rule) (o : Options) (k : string)
    (acc : bool * gmap string ProbeResult) :
  enableCache o = false -> cacheBlind (evaluateTrigger env r o k acc).
Proof.
  intros H. unfold evaluateTrigger. destruct acc as [m res].
  pose proof (fun t v => cacheBlind_getProbeResult env t v o H).
  repeat cacheBlind_step.
Qed.

Lemma cacheBlind_evaluateTriggers (env : Env) (r : Rule) (o : Options) (ks : list string) :
  enableCache o = false ->
  forall acc, cacheBlind (evaluateTriggers env r o ks acc).
Proof.
  intros H. induction ks as [|k ks IH]; intros acc; cbn [evaluateTriggers].
  - apply cacheBlind_ret.
  - apply cacheBlind_bind; [apply cacheBlind_evaluateTrigger; exact H|intros; apply IH].
Qed.

Lemma cacheBlind_evaluateRule (env : Env) (r : Rule) (o : EvaluationOptions) :
  enableCache (withDefaults o) = false -> cacheBlind (evaluateRule env r o).
Proof.
  intros H. unfold evaluateRule.
  pose proof (cacheBlind_evaluateTriggers env r (withDefaults o)) as Ht.
  repeat cacheBlind_step.
Qed.

Lemma cacheBlind_ruleFailed (env : Env) (r : Rule) (acc : gmap string ProbeResult)
    (e : Thrown) : cacheBlind (ruleFailed env r acc e).
Proof. unfold ruleFailed. repeat cacheBlind_step. Qed.

Lemma cacheBlind_ruleTurn (env : Env) (o : Options) (t0 : Z) (r : Rule)
    (acc : gmap string ProbeResult) :
  enableCache o = false -> cacheBlind (ruleTurn env o t0 r acc).
Proof.
  intros H. unfold ruleTurn.
  assert (He : cacheBlind (evaluateRule env r (asEvaluationOptions o))).
  { apply cacheBlind_evaluateRule. exact H. }
  pose proof (cacheBlind_ruleFailed env r).
  repeat cacheBlind_step.
Qed.

Lemma cacheBlind_evaluateLoop (env : Env) (o : Options) (t0 : Z) (rs : list Rule) :
  enableCache o = false ->
  forall acc, cacheBlind (evaluateLoop env o t0 rs acc).
Proof.
  intros H. induction rs as [|r rs IH]; intros acc; cbn [evaluateLoop].
  - repeat cacheBlind_step.
  - apply cacheBlind_bind; [apply cacheBlind_ruleTurn; exact H|].
    intros [acc'|res]; [apply IH|apply cacheBlind_ret].
Qed.

Lemma withCache_own (s : St) : withCache (probeCache s) s = s.
Proof. destruct s; reflexivity. Qed.

Lemma cacheBlind_unchanged {A} (m : M A) (s : St) :
  cacheBlind m -> probeCache (snd (m s)) = probeCache s.
Proof.
  intros H. specialize (H s (probeCache s)). rewrite withCache_own in H.
  destruct (m s) as [a s1]. cbn [fst snd] in *. injection H as H. rewrite H at 1.
  reflexivity.
Qed.

(** X11. [testRule] neither reads nor writes the probe cache: whatever
    the cache holds, the answer, the log and the probes run are the same, and
    the cache is handed back as it was. *)
Theorem testRule_ignores_cache (env : Env) (r : Rule) (s : St)
    (c : gmap string CacheEntry) :
  testRule env r (withCache c s)
  = (fst (testRule env r s), withCache c (snd (testRule env r s)))
  /\ probeCache (snd (testRule env r s)) = probeCache s.
Proof.
  assert (H : cacheBlind (testRule env r)).
  { unfold testRule.
    assert (He : cacheBlind
                   (evaluateRule env r (mkEvaluationOptions None (Some false) None))).
    { apply cacheBlind_evaluateRule. reflexivity. }
    repeat cacheBlind_step. }
  split; [apply H|apply cacheBlind_unchanged, H].
Qed.

(** X14. With [enableCache: false] in its options, [evaluateRules]
    neither reads nor writes the probe cache. *)
Theorem evaluateRules_cache_disabled (env : Env) (rules : list (string * Rule))
    (options : EvaluationOptions) (s : St) (c : gmap string CacheEntry) :
  enableCache_opt options = Some false ->
  evaluateRules env rules options (withCache c s)
  = (fst (evaluateRules env rules options s),
     withCache c (snd (evaluateRules env rules options s)))
  /\ probeCache (snd (evaluateRules env rules options s)) = probeCache s.
Proof.
  intros Ho.
  assert (Hc : enableCache (withDefaults options) = false).
  { unfold withDefaults. rewrite Ho. reflexivity. }
  assert (H : cacheBlind (evaluateRules env rules options)).
  { unfold evaluateRules.
    pose proof (cacheBlind_evaluateLoop env (withDefaults options)) as Hl.
    apply cacheBlind_bind; [auto with cacheBlind|intros t0].
    apply cacheBlind_bind; [auto with cacheBlind|intros _].
    destruct (enabledRules rules) as [|r0 rs].
    - repeat cacheBlind_step.
    - apply Hl. exact Hc. }
  split; [apply H|apply cacheBlind_unchanged, H].
Qed.

Lemma evaluateRules_cache_disabled_witness :
  probeCache
    (snd (evaluateRules offlineWorld officeThenHome
            (mkEvaluationOptions None (Some false) None) initialState))
  = probeCache initialState.
Proof.
  exact (proj2 (evaluateRules_cache_disabled offlineWorld officeThenHome
                  (mkEvaluationOptions None (Some false) None) initialState ∅ eq_refl)).
Defined.

(** ** [testRule] *)

(** X12. [testRule] never throws.  Its answer carries an [error]
    exactly when the [when] of the rule is [null] or [undefined], and then
    [success] is [false] and [results] is empty. *)
Theorem testRule_reports_faults (env : Env) (r : Rule) (s : St) :
  exists out s',
    testRule env r s = (Ok out, s')
    /\ (is_Some (testError out) <-> notNullish (when r) = false)
    /\ (is_Some (testError out) -> testSuccess out = false /\ testResults out = ∅).
Proof.
  unfold testRule. unfold bind at 1, log at 1. unfold tryCatch, bind at 1.
  destruct (notNullish (when r)) eqn:Hn.
  - match goal with
    | |- context [evaluateRule env r ?o ?s0] =>
        destruct (evaluateRule_returns env r o s0 Hn) as (out & s1 & H)
    end.
    rewrite H. unfold ret. eexists _, _. split; [reflexivity|]. cbn [testError].
    split; [split; [intros [x Hx]; discriminate Hx|discriminate]|].
    intros [x Hx]. discriminate Hx.
  - rewrite evaluateRule_throws by exact Hn. mrun.
    eexists _, _. split; [reflexivity|]. cbn [testError testSuccess testResults].
    split; [split; [reflexivity|eauto]|]. intros _. split; reflexivity.
Qed.

Lemma execProbe_unknown (env : Env) (k : string) (trig : JsValue) (s : St) :
  recognised k = false ->
  execProbe env k trig s = (Throw (ErrorObj ("Unknown trigger type: " ++ k)), s).
Proof.
  unfold recognised. cbn [existsb]. rewrite !orb_false_iff.
  intros (H1 & H2 & H3 & H4 & H5 & H6 & _).
  unfold execProbe. rewrite H1, H2, H3, H4, H5, H6. reflexivity.
Qed.

Lemma evaluateTrigger_unknown (env : Env) (r : Rule) (o : Options) (k : string)
    (m : bool) (res : gmap string ProbeResult) (s : St) :
  enableCache o = false -> present r k = true -> recognised k = false ->
  exists entry s',
    evaluateTrigger env r o k (m, res) s = (Ok (false, setOwn (probeKey r k) entry res), s')
    /\ error entry = Some ("Unknown trigger type: " ++ k).
Proof.
  intros Ho Hp Hk. unfold present in Hp.
  destruct (getProp (when r) k) as [trig|] eqn:Ht; [|discriminate].
  unfold evaluateTrigger, probeKey. mrun. rewrite Ht. cbn. rewrite Hp. cbn.
  unfold getProbeResult. rewrite Ho. mrun. rewrite (execProbe_unknown env k trig s Hk).
  cbn. eexists _, _. split; reflexivity.
Qed.

Lemma evaluateTriggers_sticky (env : Env) (r : Rule) (o : Options) (ks : list string) :
  notNullish (when r) = true ->
  forall res s,
  exists res' s', evaluateTriggers env r o ks (false, res) s = (Ok (false, res'), s').
Proof.
  intros Hn. induction ks as [|k ks IH]; intros res s.
  - cbn. unfold ret. eauto.
  - cbn [evaluateTriggers]. unfold bind.
    destruct (present r k) eqn:Hp.
    + unfold present in Hp.
      destruct (getProp (when r) k) as [trig|] eqn:Ht; [|discriminate].
      destruct (evaluateTrigger_present env r o k false res s trig Ht Hp)
        as (entry & s1 & H & _).
      rewrite H. cbn [andb]. apply IH.
    + rewrite evaluateTrigger_absent by assumption. apply IH.
Qed.

Lemma evaluateTriggers_unknown (env : Env) (r : Rule) (o : Options) (k : string)
    (ks : list string) :
  enableCache o = false -> notNullish (when r) = true ->
  present r k = true -> recognised k = false -> In k ks ->
  forall acc s,
  exists res' s', evaluateTriggers env r o ks acc s = (Ok (false, res'), s').
Proof.
  intros Ho Hn Hp Hk. induction ks as [|k0 ks IH]; intros Hin acc s; [destruct Hin|].
  cbn [evaluateTriggers]. unfold bind.
  destruct (String.eqb_spec k0 k) as [->|Hne].
  - destruct acc as [m res].
    destruct (evaluateTrigger_unknown env r o k m res s Ho Hp Hk) as (entry & s1 & H & _).
    rewrite H. apply evaluateTriggers_sticky. exact Hn.
  - destruct Hin as [Hin|Hin]; [contradiction|].
    destruct (evaluateTrigger_returns env r o k0 acc s Hn) as (acc1 & s1 & H1).
    rewrite H1. apply IH. exact Hin.
Qed.

(** X13. A rule with a present trigger of a type the engine does not
    know never passes [testRule]: the unknown type is recorded as a failed
    probe, and the answer carries no [error]. *)
Theorem testRule_unknown_trigger_type (env : Env) (r : Rule)
    (props : list (string * JsValue)) (k : string) (s : St) :
  when r = JObj props -> In k (map fst props) ->
  truthy (lookupProp k props) = true -> recognised k = false ->
  exists out s',
    testRule env r s = (Ok out, s')
    /\ testSuccess out = false /\ testError out = None.
Proof.
  intros Hw Hin Ht Hk.
  assert (Hn : notNullish (when r) = true) by (rewrite Hw; reflexivity).
  assert (Hp : present r k = true).
  { unfold present. rewrite Hw. exact Ht. }
  unfold testRule. unfold bind at 1, log at 1. unfold tryCatch, bind at 1.
  unfold evaluateRule. unfold bind at 1, log at 1. unfold bind at 1, liftRes at 1.
  rewrite Hw. cbn [objectKeys].
  destruct (map fst props) as [|k0 ks] eqn:E; [destruct Hin|].
  unfold bind at 1.
  match goal with
  | |- context [evaluateTriggers env r ?o ?l ?a ?s0] =>
      destruct (evaluateTriggers_unknown env r o k l eq_refl Hn Hp Hk Hin a s0)
        as (res' & s1 & H)
  end.
  rewrite H. mrun. eexists _, _. split; [reflexivity|]. split; reflexivity.
Qed.

Lemma testRule_unknown_trigger_type_witness :
  exists out s',
    testRule offlineWorld ruleFlagAndWifi initialState = (Ok out, s')
    /\ testSuccess out = false /\ testError out = None.
Proof.
  apply (testRule_unknown_trigger_type offlineWorld ruleFlagAndWifi
           [("manualFlag", flagOn); ("wifiName", JObj [("ssid", JStr "office")])]
           "wifiName" initialState).
  - reflexivity.
  - cbn. right. left. reflexivity.
  - reflexivity.
  - reflexivity.
Defined.

(** ** Clearing and sweeping the cache *)

(** X15. After [clearCache] the next probe request, caching enabled, is
    not answered from the cache: the probe executor is invoked once, and the
    cache then holds that one key. *)
Theorem clearCache_forces_probe (env : Env) (triggerType : string) (trigger : JsValue)
    (opts : Options) (s : St) :
  answerable triggerType trigger = true -> enableCache opts = true ->
  exists s0 r s',
    clearCache s = (Ok tt, s0)
    /\ getProbeResult env triggerType trigger opts s0 = (Ok r, s')
    /\ probed s' = (probed s ++ [(triggerType, trigger)])%list
    /\ dom (probeCache s') = {[ cacheKey triggerType trigger ]}.
Proof.
  intros Ha Hc.
  set (s0 := mkSt ∅ (tick s)
               (logged s ++ [mkLog "RuleEngine" LInfo "Clearing probe cache"])
               (probed s)).
  assert (Hclear : clearCache s = (Ok tt, s0)) by reflexivity.
  assert (Hmiss : forall c, probeCache s0 !! cacheKey triggerType trigger = Some c ->
                            expiry c <= dateNow env (tick s0)).
  { intros c Hl. subst s0. cbn [probeCache] in Hl. rewrite lookup_empty in Hl.
    discriminate Hl. }
  pose proof (getProbeResult_miss env triggerType trigger opts Hc s0 Hmiss) as Hget.
  assert (Haf : afterMiss (cacheKey triggerType trigger) s0 = s0).
  { unfold afterMiss. subst s0. cbn [probeCache]. rewrite lookup_empty. reflexivity. }
  rewrite Haf in Hget.
  destruct (execProbe_returns env triggerType trigger s0 Ha) as (r & s1 & Hrun).
  destruct (execProbe_frame env triggerType trigger s0 s1 r Hrun) as [Hcache Hprobed].
  rewrite Hrun in Hget.
  eexists s0, r, _. split; [exact Hclear|]. split; [exact Hget|].
  cbn [probed probeCache]. split; [exact Hprobed|].
  rewrite Hcache. subst s0. cbn [probeCache].
  rewrite dom_insert_L, dom_empty_L. apply (right_id_L ∅ (∪)).
Qed.

Lemma clearCache_forces_probe_witness :
  exists s0 r s',
    clearCache initialState = (Ok tt, s0)
    /\ getProbeResult offlineWorld "manualFlag" flagOn DEFAULT_OPTIONS s0 = (Ok r, s')
    /\ probed s' = [("manualFlag", flagOn)].
Proof.
  destruct (clearCache_forces_probe offlineWorld "manualFlag" flagOn DEFAULT_OPTIONS
              initialState eq_refl eq_refl) as (s0 & r & s' & H0 & H1 & H2 & _).
  exists s0, r, s'. split; [exact H0|]. split; [exact H1|exact H2].
Defined.

(** X16. The sweep makes no probe call and, as long as the clock does
    not go back between its reading and the next, does not change what a
    cache lookup answers: with or without the sweep the lookup hits or misses
    alike, for every key. *)
Theorem cleanExpiredCache_is_unobservable (env : Env) (s : St) :
  dateNow env (tick s) <= dateNow env (S (tick s)) ->
  exists s1,
    cleanExpiredCache env s = (Ok tt, s1)
    /\ tick s1 = S (tick s) /\ probed s1 = probed s
    /\ forall key, fst (cacheLookup env key s1) = fst (cacheLookup env key (bumpTick s)).
Proof.
  intros Hclock.
  destruct (cleanExpiredCache_sweeps env s) as (s1 & Hrun & Hsw).
  assert (Hshape : tick s1 = S (tick s) /\ probed s1 = probed s).
  { revert Hrun. unfold cleanExpiredCache. mrun.
    match goal with
    | |- context [if ?b then _ else _] => destruct b
    end; intros Hrun; injection Hrun as <-; split; reflexivity. }
  destruct Hshape as [Htick Hprobed].
  exists s1. split; [exact Hrun|]. split; [exact Htick|]. split; [exact Hprobed|].
  intros key. unfold cacheLookup. mrun. cbn [probeCache].
  destruct (probeCache s !! key) as [c|] eqn:Hc.
  - destruct (Z.ltb_spec (dateNow env (tick s)) (expiry c)) as [Hlive|Hdead].
    + assert (H1 : probeCache s1 !! key = Some c) by (apply Hsw; auto).
      rewrite H1. cbn. rewrite Htick.
      destruct (dateNow env (S (tick s)) <? expiry c); reflexivity.
    + assert (H1 : probeCache s1 !! key = None).
      { destruct (probeCache s1 !! key) as [c'|] eqn:E; [|reflexivity].
        apply Hsw in E as [E1 E2]. assert (c' = c) by congruence. subst c'. lia. }
      rewrite H1. cbn.
      destruct (Z.ltb_spec (dateNow env (S (tick s))) (expiry c)); [lia|reflexivity].
  - assert (H1 : probeCache s1 !! key = None).
    { destruct (probeCache s1 !! key) as [c'|] eqn:E; [|reflexivity].
      apply Hsw in E as [E1 E2]. congruence. }
    rewrite H1. reflexivity.
Qed.

Lemma cleanExpiredCache_is_unobservable_witness :
  exists s1,
    cleanExpiredCache offlineWorld
      staleState = (Ok tt, s1)
    /\ tick s1 = 1%nat.
Proof.
  destruct (cleanExpiredCache_is_unobservable offlineWorld
              staleState)
    as (s1 & Hrun & Htick & _).
  - apply Zle_bool_imp_le. reflexivity.
  - exists s1. split; [exact Hrun|exact Htick].
Defined.

(** ** Which rules take part, and in which order *)

Lemma enabledRules_app_disabled (rules1 rules2 : list (string * Rule)) (key : string)
    (r : Rule) :
  enabled r = false ->
  enabledRules (rules1 ++ (key, r) :: rules2) = enabledRules (rules1 ++ rules2).
Proof.
  intros H. unfold enabledRules. f_equal.
  rewrite !map_app, !filter_app. cbn [map snd]. f_equal.
  apply filter_cons_False. rewrite H. discriminate.
Qed.

(** X18. A disabled rule takes no part: with or without it in the
    mapping, wherever it stands and whatever its priority and triggers,
    [evaluateRules] does the same. *)
Theorem disabled_rule_is_ignored (env : Env) (rules1 rules2 : list (string * Rule))
    (key : string) (r : Rule) (options : EvaluationOptions) (s : St) :
  enabled r = false ->
  evaluateRules env (rules1 ++ (key, r) :: rules2) options s
  = evaluateRules env (rules1 ++ rules2) options s.
Proof.
  intros H. unfold evaluateRules. rewrite (enabledRules_app_disabled _ _ _ _ H).
  reflexivity.
Qed.

Lemma disabled_rule_is_ignored_witness :
  evaluateRules offlineWorld
    ([("r1", ruleFlagOffWorkdays)]
     ++ ("r0", disabledCopy (ruleAlways "r0" 1 "first")) :: [("r2", ruleAlways "r2" 20 "home")])
    noOptions initialState
  = evaluateRules offlineWorld officeThenHome noOptions initialState.
Proof.
  exact (disabled_rule_is_ignored offlineWorld [("r1", ruleFlagOffWorkdays)]
           [("r2", ruleAlways "r2" 20 "home")] "r0"
           (disabledCopy (ruleAlways "r0" 1 "first")) noOptions initialState eq_refl).
Defined.

(** Two arrangements by ascending priority of the same rules, no two of
    which share a priority, are the same list. *)
Lemma sorted_unique (l1 : list Rule) :
  forall l2,
    StronglySorted byPriority l1 -> StronglySorted byPriority l2 ->
    Permutation l1 l2 -> NoDup (map priority l1) -> l1 = l2.
Proof.
  induction l1 as [|a l1 IH]; intros l2 S1 S2 P N.
  - apply Permutation_nil in P. subst l2. reflexivity.
  - destruct l2 as [|b l2].
    + apply Permutation_sym, Permutation_nil in P. discriminate P.
    + apply StronglySorted_inv in S1 as [S1 F1]. apply StronglySorted_inv in S2 as [S2 F2].
      apply NoDup_cons in N as [Na N].
      assert (Hab : a = b).
      { assert (Ha : In a (b :: l2)).
        { apply (Permutation_in a P). left. reflexivity. }
        assert (Hb : In b (a :: l1)).
        { apply (Permutation_in b (Permutation_sym P)). left. reflexivity. }
        destruct Ha as [Ha|Ha]; [symmetry; exact Ha|].
        destruct Hb as [Hb|Hb]; [exact Hb|].
        rewrite Forall_forall in F1, F2.
        apply list_elem_of_In in Ha as Ha', Hb as Hb'.
        pose proof (F2 a Ha') as H1. pose proof (F1 b Hb') as H2.
        unfold byPriority in H1, H2.
        exfalso. apply Na. replace (priority a) with (priority b) by lia.
        apply list_elem_of_In, in_map, Hb. }
      subst b. f_equal. apply IH; try assumption.
      eapply Permutation_cons_inv. exact P.
Qed.

Lemma enabledRules_Permutation (rules rules' : list (string * Rule)) :
  Permutation rules rules' ->
  NoDup (map priority (filter (fun r => enabled r = true) (map snd rules))) ->
  enabledRules rules = enabledRules rules'.
Proof.
  intros P N. unfold enabledRules.
  assert (P' : Permutation (filter (fun r => enabled r = true) (map snd rules))
                 (filter (fun r => enabled r = true) (map snd rules'))).
  { apply filter_Permutation, Permutation_map, P. }
  apply sorted_unique.
  - apply sortByPriority_sorted.
  - apply sortByPriority_sorted.
  - rewrite !sortByPriority_Permutation. exact P'.
  - assert (Pm : Permutation
                   (map priority
                      (sortByPriority (filter (fun r => enabled r = true) (map snd rules))))
                   (map priority (filter (fun r => enabled r = true) (map snd rules))))
      by apply Permutation_map, sortByPriority_Permutation.
    rewrite Pm. exact N.
Qed.

(** X19. When no two enabled rules share a priority, the order of the
    rule mapping is irrelevant: [evaluateRules] does the same on any
    rearrangement of it. *)
Theorem mapping_order_is_irrelevant (env : Env) (rules rules' : list (string * Rule))
    (options : EvaluationOptions) (s : St) :
  Permutation rules rules' ->
  NoDup (map priority (filter (fun r => enabled r = true) (map snd rules))) ->
  evaluateRules env rules options s = evaluateRules env rules' options s.
Proof.
  intros P N. unfold evaluateRules. rewrite (enabledRules_Permutation _ _ P N).
  reflexivity.
Qed.

Lemma mapping_order_is_irrelevant_witness :
  evaluateRules offlineWorld threeRules noOptions initialState
  = evaluateRules offlineWorld
      [("b", ruleAlways "b" 50 "fast"); ("a", ruleAlways "a" 200 "slow");
       ("c", ruleAlways "c" 100 "middle")]
      noOptions initialState.
Proof.
  apply mapping_order_is_irrelevant.
  - apply perm_swap.
  - apply (bool_decide_unpack _). vm_compute. exact I.
Defined.

(** ** What a pass never undoes *)

Lemma grows_refl (s : St) : grows s s.
Proof. split; [lia|auto]. Qed.

Lemma grows_trans (s1 s2 s3 : St) : grows s1 s2 -> grows s2 s3 -> grows s1 s3.
Proof. intros [H1 H2] [H3 H4]. split; [lia|auto]. Qed.

Lemma growing_ret {A} (a : A) : growing (ret a).
Proof. intros s. apply grows_refl. Qed.

Lemma growing_throw {A} (e : Thrown) : growing (@throw A e).
Proof. intros s. apply grows_refl. Qed.

Lemma growing_liftRes {A} (r : Res A) : growing (liftRes r).
Proof. intros s. apply grows_refl. Qed.

Lemma growing_log (c : string) (l : LogLevel) (msg : string) : growing (log c l msg).
Proof. intros s. split; cbn; [lia|auto]. Qed.

Lemma growing_recordProbe (t : string) (v : JsValue) : growing (recordProbe t v).
Proof. intros s. split; cbn; [lia|auto]. Qed.

Lemma growing_cacheGet (k : string) : growing (cacheGet k).
Proof. intros s. apply grows_refl. Qed.

Lemma growing_cacheSet (k : string) (e : CacheEntry) : growing (cacheSet k e).
Proof.
  intros s. split; cbn; [lia|]. intros k' H. apply lookup_insert_is_Some'. right. exact H.
Qed.

Lemma growing_now (env : Env) : growing (now env).
Proof. intros s. split; cbn; [lia|auto]. Qed.

Lemma growing_newDate (env : Env) : growing (newDate env).
Proof. intros s. split; cbn; [lia|auto]. Qed.

Lemma growing_doFetch (env : Env) (u m : JsValue) : growing (doFetch env u m).
Proof. intros s. split; cbn; [lia|auto]. Qed.

Lemma growing_doDnsResolve (env : Env) (h : JsValue) : growing (doDnsResolve env h).
Proof. intros s. split; cbn; [lia|auto]. Qed.

Lemma growing_doCaptivePortalGetState (env : Env) : growing (doCaptivePortalGetState env).
Proof. intros s. split; cbn; [lia|auto]. Qed.

Lemma growing_bind {A B} (m : M A) (k : A -> M B) :
  growing m -> (forall a, growing (k a)) -> growing (bind m k).
Proof.
  intros Hm Hk s. unfold bind. specialize (Hm s).
  destruct (m s) as [[a|e] s1]; cbn [snd] in *; [|exact Hm].
  eapply grows_trans; [exact Hm|apply Hk].
Qed.

Lemma growing_tryCatch {A} (body : M A) (handler : Thrown -> M A) :
  growing body -> (forall e, growing (handler e)) -> growing (tryCatch body handler).
Proof.
  intros Hb Hh s. unfold tryCatch. specialize (Hb s).
  destruct (body s) as [[a|e] s1]; cbn [snd] in *; [exact Hb|].
  eapply grows_trans; [exact Hb|apply Hh].
Qed.

Lemma growing_attempt {A} (m : M A) : growing m -> growing (attempt m).
Proof.
  intros Hm s. unfold attempt. specialize (Hm s). destruct (m s) as [r s1]. exact Hm.
Qed.

Create HintDb growing discriminated.
#[local] Hint Resolve growing_ret growing_throw growing_liftRes growing_log
  growing_recordProbe growing_cacheGet growing_cacheSet growing_now growing_newDate
  growing_doFetch growing_doDnsResolve growing_doCaptivePortalGetState : growing.

Ltac growing_step :=
  match goal with
  | |- growing (bind _ _) => apply growing_bind; [|intros]
  | |- growing (tryCatch _ _) => apply growing_tryCatch; [|intros]
  | |- growing (attempt _) => apply growing_attempt
  | |- growing (match ?x with _ => _ end) => destruct x
  | |- growing _ => solve [auto with growing]
  end.

Lemma growing_execProbe (env : Env) (t : string) (v : JsValue) :
  growing (execProbe env t v).
Proof.
  unfold execProbe, testReachability, testDnsResolve, testCaptivePortal, testIpInfo,
    testTimeWindow, testManualFlag.
  repeat growing_step.
Qed.

Lemma growing_getProbeResult (env : Env) (t : string) (v : JsValue) (o : Options) :
  growing (getProbeResult env t v o).
Proof.
  unfold getProbeResult, cacheLookup.
  pose proof (growing_execProbe env t v).
  repeat growing_step.
Qed.

Lemma growing_evaluateTrigger (env : Env) (r : Rule) (o : Options) (k : string)
    (acc : bool * gmap string ProbeResult) :
  growing (evaluateTrigger env r o k acc).
Proof.
  unfold evaluateTrigger. destruct acc as [m res].
  pose proof (fun t v => growing_getProbeResult env t v o).
  repeat growing_step.
Qed.

Lemma growing_evaluateTriggers (env : Env) (r : Rule) (o : Options) (ks : list string) :
  forall acc, growing (evaluateTriggers env r o ks acc).
Proof.
  induction ks as [|k ks IH]; intros acc; cbn [evaluateTriggers].
  - apply growing_ret.
  - apply growing_bind; [apply growing_evaluateTrigger|intros; apply IH].
Qed.

Lemma growing_evaluateRule (env : Env) (r : Rule) (o : EvaluationOptions) :
  growing (evaluateRule env r o).
Proof.
  unfold evaluateRule.
  pose proof (growing_evaluateTriggers env r (withDefaults o)).
  repeat growing_step.
Qed.

Lemma growing_ruleTurn (env : Env) (o : Options) (t0 : Z) (r : Rule)
    (acc : gmap string ProbeResult) :
  growing (ruleTurn env o t0 r acc).
Proof.
  unfold ruleTurn, ruleFailed.
  pose proof (growing_evaluateRule env r (asEvaluationOptions o)).
  repeat growing_step.
Qed.

Lemma growing_evaluateLoop (env : Env) (o : Options) (t0 : Z) (rs : list Rule) :
  forall acc, growing (evaluateLoop env o t0 rs acc).
Proof.
  induction rs as [|r rs IH]; intros acc; cbn [evaluateLoop].
  - repeat growing_step.
  - apply growing_bind; [apply growing_ruleTurn|].
    intros [acc'|res]; [apply IH|apply growing_ret].
Qed.

Lemma growing_evaluateRules (env : Env) (rules : list (string * Rule))
    (options : EvaluationOptions) :
  growing (evaluateRules env rules options).
Proof.
  unfold evaluateRules.
  pose proof (growing_evaluateLoop env (withDefaults options)) as Hl.
  apply growing_bind; [auto with growing|intros t0].
  apply growing_bind; [auto with growing|intros _].
  destruct (enabledRules rules) as [|r0 rs]; [repeat growing_step|apply Hl].
Qed.

(** The time reported by the loop is a clock reading made later than the
    state the loop started in, less the start time. *)
Lemma evaluateLoop_time (env : Env) (o : Options) (t0 : Z) (rs : list Rule) :
  forall acc s res s',
    evaluateLoop env o t0 rs acc s = (Ok res, s') ->
    exists n, (tick s <= n)%nat /\ evaluationTime res = dateNow env n - t0.
Proof.
  induction rs as [|r rs IH]; intros acc s res s' H.
  - cbn [evaluateLoop] in H. mrun. injection H as <- _.
    exists (tick s). split; [lia|reflexivity].
  - cbn [evaluateLoop] in H. unfold bind in H.
    pose proof (growing_ruleTurn env o t0 r acc s) as [Hg _].
    destruct (ruleTurn env o t0 r acc s) as [[[acc'|res0]|e] s0] eqn:Hturn;
      [| |discriminate H]; cbn [snd] in Hg.
    + destruct (IH acc' s0 res s' H) as (n & Hn & Ht).
      exists n. split; [lia|exact Ht].
    + unfold ret in H. injection H as <- <-.
      destruct (ruleTurn_Return_inv env o t0 r acc s s0 res0 Hturn)
        as (out & s2 & target & Hrun & _ & _ & ->).
      pose proof (growing_evaluateRule env r (asEvaluationOptions o) (entering s))
        as [Hg2 _].
      rewrite Hrun in Hg2. cbn [snd tick entering] in Hg2.
      exists (tick s2). split; [exact Hg2|reflexivity].
Qed.

(** X21. With a clock that never goes back, [evaluateRules] returns and
    the [evaluationTime] it reports is not negative. *)
Theorem evaluationTime_nonnegative (env : Env) (rules : list (string * Rule))
    (options : EvaluationOptions) (s : St) :
  monotoneClock env ->
  exists res s',
    evaluateRules env rules options s = (Ok res, s') /\ 0 <= evaluationTime res.
Proof.
  intros Hmono.
  destruct (evaluateRules_returns env rules options s) as (res & s' & Hrun).
  exists res, s'. split; [exact Hrun|].
  destruct (enabledRules rules) as [|r0 rs] eqn:E.
  - unfold evaluateRules in Hrun. mrun. rewrite E in Hrun. cbn in Hrun.
    injection Hrun as <- _. cbn [evaluationTime].
    pose proof (Hmono (tick s) (S (tick s)) ltac:(lia)). lia.
  - rewrite evaluateRules_loop in Hrun by (rewrite E; discriminate).
    destruct (evaluateLoop_time env _ _ _ _ _ _ _ Hrun) as (n & Hn & Ht).
    rewrite Ht. cbn [tick started] in Hn.
    pose proof (Hmono (tick s) n ltac:(lia)). lia.
Qed.

Lemma offlineWorld_monotone : monotoneClock offlineWorld.
Proof. intros n m H. cbn. lia. Qed.

Lemma evaluationTime_nonnegative_witness :
  exists res s',
    evaluateRules offlineWorld officeThenHome noOptions initialState = (Ok res, s')
    /\ 0 <= evaluationTime res.
Proof.
  exact (evaluationTime_nonnegative offlineWorld officeThenHome noOptions initialState
           offlineWorld_monotone).
Defined.

(** X20. [evaluateRules] always returns, and what it returns hangs
    together: a match names an enabled rule of the mapping and, as
    [profileId], that rule's [then.setActiveProfile]; no match carries neither
    rule nor profile. *)
Theorem evaluateRules_verdict (env : Env) (rules : list (string * Rule))
    (options : EvaluationOptions) (s : St) :
  exists res s',
    evaluateRules env rules options s = (Ok res, s')
    /\ (matched res = true ->
        exists r target,
          rule res = Some r /\ r ∈ map snd rules /\ enabled r = true
          /\ getProp (then_ r) "setActiveProfile" = Ok target
          /\ profileId res = Some target)
    /\ (matched res = false -> rule res = None /\ profileId res = None).
Proof.
  destruct (evaluateRules_returns env rules options s) as (res & s' & Hrun).
  exists res, s'. split; [exact Hrun|]. split.
  - intros Hm.
    destruct (evaluateRules_matched_inv env rules options s s' res Hrun Hm)
      as (before & r & after & acc & s1 & target & _ & _ & Hr & Hp & Ht & Hin & He).
    exists r, target. repeat split; assumption.
  - intros Hm. destruct (enabledRules rules) as [|r0 rs] eqn:E.
    + unfold evaluateRules in Hrun. mrun. rewrite E in Hrun. cbn in Hrun.
      injection Hrun as <- _. split; reflexivity.
    + rewrite evaluateRules_loop in Hrun by (rewrite E; discriminate).
      destruct (evaluateLoop_inv env _ _ _ _ _ _ _ Hrun)
        as [(Hm' & _)|(_ & Hr & Hp & _)]; [congruence|].
      split; assumption.
Qed.

(** X17. Requests of two different trigger types never share a cache
    key, whatever their parameters: a result cached for one type is never
    returned for another. *)
Theorem cacheKey_separates_types (t1 t2 : string) (v1 v2 : JsValue) :
  recognised t1 = true -> recognised t2 = true -> t1 <> t2 ->
  cacheKey t1 v1 <> cacheKey t2 v2.
Proof.
  intros H1 H2 Hne.
  destruct (recognised_cases _ H1) as [-> | [-> | [-> | [-> | [-> | ->]]]]];
    destruct (recognised_cases _ H2) as [-> | [-> | [-> | [-> | [-> | ->]]]]];
    try (contradiction Hne; reflexivity);
    unfold cacheKey; rewrite !append_cons; discriminate.
Qed.

Lemma cacheKey_separates_types_witness :
  cacheKey "ipInfo" (JObj []) <> cacheKey "reachability" (JObj []).
Proof.
  apply cacheKey_separates_types; [reflexivity|reflexivity|discriminate].
Defined.

(* ================================================================== *)
(** * The proxy service *)
(* ================================================================== *)

(** ** Host patterns *)

Lemma endsWith_spec (s t : string) :
  endsWith s t = true <-> exists p, s = p ++ t.
Proof.
  induction s as [|c r IH].
  - cbn [endsWith]. rewrite orb_false_r, String.eqb_eq. split.
    + intros <-. exists "". reflexivity.
    + intros [p Hp]. destruct p; [exact Hp|discriminate Hp].
  - cbn [endsWith]. rewrite orb_true_iff, String.eqb_eq, IH. split.
    + intros [<-|[p ->]]; [exists ""; reflexivity|].
      exists (String c p). reflexivity.
    + intros [p Hp]. destruct p as [|c' p].
      * left. exact Hp.
      * right. rewrite append_cons in Hp. injection Hp as _ ->. exists p. reflexivity.
Qed.

(** X23. The pattern [*.domain] never throws and matches exactly the
    host names that are [domain] itself or end with [.domain]: some text,
    a dot, the domain. *)
Theorem matchesHostPattern_subdomains (rt : Runtime) (hostname domain : string) :
  exists b,
    matchesHostPattern rt hostname ("*." ++ domain) = Ok b
    /\ (b = true <-> hostname = domain \/ exists sub, hostname = sub ++ "." ++ domain).
Proof.
  unfold matchesHostPattern.
  change ("*." ++ domain) with (String "*"%char (String "."%char domain)).
  assert (E1 : String.eqb (String "*"%char (String "."%char domain)) "*" = false)
    by reflexivity.
  assert (E2 : startsWith (String "*"%char (String "."%char domain)) "*." = true).
  { unfold startsWith. cbn [String.prefix].
    destruct (ascii_dec "*" "*"); [|contradiction].
    destruct (ascii_dec "." "."); [|contradiction].
    destruct domain; reflexivity. }
  rewrite E1, E2. cbn [sliceFrom]. eexists. split; [reflexivity|].
  rewrite orb_true_iff, String.eqb_eq, endsWith_spec. reflexivity.
Qed.

(** ** The first rule that applies *)

Lemma matchesHostPattern_plain (rt : Runtime) (hostname pattern : string) :
  plainPattern pattern = true -> exists b, matchesHostPattern rt hostname pattern = Ok b.
Proof.
  unfold plainPattern, matchesHostPattern. intros H.
  destruct (String.eqb pattern "*"); [eauto|].
  destruct (startsWith pattern "*."); [eauto|].
  cbn [orb] in H. apply negb_true_iff in H. rewrite H. eauto.
Qed.

(** X24. On a URL the runtime can parse and rules whose patterns need
    no regular expression, [findMatchingRule] returns the first rule, in list
    order, whose host pattern matches and whose scheme fits, and [null] only
    when no rule does. *)
Theorem findMatchingRule_first (rt : Runtime) (detailsUrl : string) (url : Url)
    (rules : list PerRequestRule) :
  newURL rt detailsUrl = Ok url ->
  Forall (fun rule => plainPattern (hostPattern rule) = true) rules ->
  exists found,
    findMatchingRule rt detailsUrl rules = Ok found
    /\ match found with
       | Some rule =>
           exists before after,
             rules = (before ++ rule :: after)%list
             /\ Forall (fun r => applies rt url r = false) before
             /\ applies rt url rule = true
       | None => Forall (fun r => applies rt url r = false) rules
       end.
Proof.
  intros Hu Hplain. unfold findMatchingRule. rewrite Hu.
  induction rules as [|rule rest IH].
  - exists None. split; [reflexivity|constructor].
  - apply Forall_cons in Hplain as [Hp Hrest]. specialize (IH Hrest).
    destruct IH as (found & Hrun & Hfound).
    destruct (matchesHostPattern_plain rt (hostname url) (hostPattern rule) Hp)
      as [b Hb].
    cbn [findRule]. rewrite Hb.
    assert (Happ : applies rt url rule = b && schemeFits url rule).
    { unfold applies. rewrite Hb. destruct b; reflexivity. }
    destruct b; cbn [andb] in Happ; [destruct (schemeFits url rule) eqn:Hs|].
    + exists (Some rule). split; [reflexivity|].
      exists [], rest. split; [reflexivity|]. split; [constructor|exact Happ].
    + exists found. split; [exact Hrun|]. destruct found as [r|].
      * destruct Hfound as (before & after & -> & Hb1 & Hr).
        exists (rule :: before), after. split; [reflexivity|].
        split; [constructor; assumption|exact Hr].
      * constructor; assumption.
    + exists found. split; [exact Hrun|]. destruct found as [r|].
      * destruct Hfound as (before & after & -> & Hb1 & Hr).
        exists (rule :: before), after. split; [reflexivity|].
        split; [constructor; assumption|exact Hr].
      * constructor; assumption.
Qed.

Lemma findMatchingRule_first_witness :
  exists found,
    findMatchingRule sampleRuntime "https://example.com/"
      (convertManualToPerRequestRules officeProxies) = Ok found
    /\ match found with
       | Some rule =>
           exists before after,
             convertManualToPerRequestRules officeProxies = (before ++ rule :: after)%list
             /\ Forall (fun r => applies sampleRuntime (mkUrl "example.com" "https:") r
                                 = false) before
             /\ applies sampleRuntime (mkUrl "example.com" "https:") rule = true
       | None =>
           Forall (fun r => applies sampleRuntime (mkUrl "example.com" "https:") r = false)
             (convertManualToPerRequestRules officeProxies)
       end.
Proof.
  apply (findMatchingRule_first sampleRuntime "https://example.com/"
           (mkUrl "example.com" "https:") (convertManualToPerRequestRules officeProxies)).
  - reflexivity.
  - repeat constructor.
Defined.

(** ** A manual configuration served per request *)

Lemma addAuthentication_server (type : string) (sch : option string) (srv : ProxyServer)
    (profile : Profile) (m : ManualProxyConfig) :
  String.eqb type "direct" = false ->
  addAuthenticationIfNeeded (proxy (serverRule sch type srv)) (manualFallback profile m)
  = viaServer type srv profile.
Proof.
  intros H. unfold addAuthenticationIfNeeded, viaServer, serverRule, manualFallback.
  cbn [proxy proxyType auth proxyHost proxyPort otherFields]. rewrite H.
  destruct (given (auth profile)); reflexivity.
Qed.

Lemma handleProxyRequest_fallback (rt : Runtime) (profile : Profile)
    (m : ManualProxyConfig) (detailsUrl : string) :
  handleProxyRequest rt (Some (manualFallback profile m)) detailsUrl
  = (match handlePerRequestRules rt (manualFallback profile m) detailsUrl
             (convertManualToPerRequestRules m) with
     | Ok info => Ok (Some info)
     | Throw e => Throw e
     end, []).
Proof. reflexivity. Qed.

(** X25. Once [setManualProxy] has fallen back to per-request rules, a
    configuration with an HTTP proxy sends every request whose protocol
    starts with [http], [https:] included, to that HTTP proxy: its rule comes
    first and [https:] starts with [http], so the rule of the HTTPS proxy is
    never reached. *)
Theorem manual_fallback_http_rule_takes_https (rt : Runtime) (profile : Profile)
    (m : ManualProxyConfig) (srv : ProxyServer) (detailsUrl : string) (url : Url) :
  manual profile = Some m ->
  http m = Some srv ->
  newURL rt detailsUrl = Ok url ->
  startsWith (protocol url) "http" = true ->
  handleProxyRequest rt (Some (manualFallback profile m)) detailsUrl
  = (Ok (Some (viaServer "http" srv profile)), []).
Proof.
  intros _ Hh Hu Hp. rewrite handleProxyRequest_fallback.
  unfold handlePerRequestRules, findMatchingRule, convertManualToPerRequestRules.
  rewrite Hu, Hh. cbn [app findRule].
  assert (Hstar : matchesHostPattern rt (hostname url)
                    (hostPattern (serverRule (Some "http") "http" srv)) = Ok true)
    by reflexivity.
  assert (Hfit : schemeFits url (serverRule (Some "http") "http" srv) = true).
  { change (false || startsWith (protocol url) "http" = true). exact Hp. }
  rewrite Hstar, Hfit, addAuthentication_server by reflexivity. reflexivity.
Qed.

Lemma manual_fallback_http_rule_takes_https_witness :
  handleProxyRequest sampleRuntime (Some (manualFallback officeProfile officeProxies))
    "https://example.com/"
  = (Ok (Some (mkProxyInfo "http" (Some "proxy.example") (Some 3128)
                 (Some "Basic dXNlcjpwdw==") [])), []).
Proof.
  exact (manual_fallback_http_rule_takes_https sampleRuntime officeProfile officeProxies
           (mkProxyServer "proxy.example" 3128) "https://example.com/"
           (mkUrl "example.com" "https:") eq_refl eq_refl eq_refl eq_refl).
Defined.

Lemma not_http_not_https (p : string) :
  startsWith p "http" = false -> startsWith p "https" = false.
Proof.
  unfold startsWith. intros H.
  destruct (String.prefix "https" p) eqn:E; [|reflexivity].
  rewrite (prefix_trans "http" "https" p eq_refl E) in H. discriminate H.
Qed.

(** X26. After the same fallback, a request whose protocol does not
    start with [http] goes through the SOCKS proxy when the configuration has
    one and neither an HTTP nor an HTTPS proxy, and direct otherwise. *)
Theorem manual_fallback_other_protocols (rt : Runtime) (profile : Profile)
    (m : ManualProxyConfig) (detailsUrl : string) (url : Url) :
  manual profile = Some m ->
  newURL rt detailsUrl = Ok url ->
  startsWith (protocol url) "http" = false ->
  handleProxyRequest rt (Some (manualFallback profile m)) detailsUrl
  = (Ok (Some match http m, https m, socks m with
              | None, None, Some srv =>
                  viaServer (if bool_decide (socksVersion m = Some 4)
                             then "socks4" else "socks") srv profile
              | _, _, _ => direct
              end), []).
Proof.
  intros _ Hu Hp. rewrite handleProxyRequest_fallback.
  pose proof (not_http_not_https _ Hp) as Hps.
  unfold handlePerRequestRules, findMatchingRule, convertManualToPerRequestRules.
  rewrite Hu.
  assert (Hstar : forall sch type srv,
             matchesHostPattern rt (hostname url) (hostPattern (serverRule sch type srv))
             = Ok true) by reflexivity.
  assert (Hno1 : forall srv, schemeFits url (serverRule (Some "http") "http" srv) = false).
  { intros srv. change (false || startsWith (protocol url) "http" = false). exact Hp. }
  assert (Hno2 : forall srv, schemeFits url (serverRule (Some "https") "https" srv) = false).
  { intros srv. change (false || startsWith (protocol url) "https" = false). exact Hps. }
  assert (Hfit : forall type srv, schemeFits url (serverRule None type srv) = true)
    by reflexivity.
  destruct (http m) as [h|], (https m) as [hs|], (socks m) as [so|];
    cbn [app findRule]; rewrite ?Hstar, ?Hno1, ?Hno2, ?Hfit; try reflexivity.
  rewrite addAuthentication_server; [reflexivity|].
  destruct (bool_decide (socksVersion m = Some 4)); reflexivity.
Qed.

Lemma manual_fallback_other_protocols_witness :
  handleProxyRequest sampleRuntime (Some (manualFallback tunnelProfile socksOnly))
    "ftp://example.com/"
  = (Ok (Some (mkProxyInfo "socks4" (Some "socks.example") (Some 1080)
                 (Some "Basic dXNlcjpwdw==") [])), [])
  /\ handleProxyRequest sampleRuntime (Some (manualFallback officeProfile officeProxies))
       "ftp://example.com/"
     = (Ok (Some direct), []).
Proof.
  split.
  - exact (manual_fallback_other_protocols sampleRuntime tunnelProfile socksOnly
             "ftp://example.com/" (mkUrl "example.com" "ftp:") eq_refl eq_refl eq_refl).
  - exact (manual_fallback_other_protocols sampleRuntime officeProfile officeProxies
             "ftp://example.com/" (mkUrl "example.com" "ftp:") eq_refl eq_refl eq_refl).
Defined.

(* ================================================================== *)
(** * The cache, the logger and the cache keys, further *)
(* ================================================================== *)

(** ** Entries that have not expired *)

Section Lasting.

Variable R : St -> St -> Prop.
Hypothesis R_refl : forall s, R s s.
Hypothesis R_trans : forall s1 s2 s3, R s1 s2 -> R s2 s3 -> R s1 s3.
Hypothesis R_quiet :
  forall s s', probeCache s' = probeCache s -> (tick s <= tick s')%nat -> R s s'.

Let lasting {A} (m : M A) : Prop := forall s, R s (snd (m s)).

Lemma lasting_quiet {A} (m : M A) : keeps m -> growing m -> lasting m.
Proof. intros Hk Hg s. apply R_quiet; [apply Hk|apply Hg]. Qed.

Lemma lasting_ret {A} (a : A) : lasting (ret a).
Proof. intros s. apply R_refl. Qed.

Lemma lasting_log (c : string) (l : LogLevel) (msg : string) : lasting (log c l msg).
Proof. apply lasting_quiet; [apply keeps_log|apply growing_log]. Qed.

Lemma lasting_liftRes {A} (r : Res A) : lasting (liftRes r).
Proof. intros s. apply R_refl. Qed.

Lemma lasting_now (env : Env) : lasting (now env).
Proof. apply lasting_quiet; [apply keeps_now|apply growing_now]. Qed.

Lemma lasting_bind {A B} (m : M A) (k : A -> M B) :
  lasting m -> (forall a, lasting (k a)) -> lasting (bind m k).
Proof.
  intros Hm Hk s. unfold bind. specialize (Hm s).
  destruct (m s) as [[a|e] s1]; cbn [snd] in *; [|exact Hm].
  eapply R_trans; [exact Hm|apply Hk].
Qed.

Lemma lasting_attempt {A} (m : M A) : lasting m -> lasting (attempt m).
Proof.
  intros Hm s. unfold attempt. specialize (Hm s). destruct (m s) as [r s1]. exact Hm.
Qed.

Ltac lasting_step :=
  match goal with
  | |- lasting (bind _ _) => apply lasting_bind; [|intros]
  | |- lasting (attempt _) => apply lasting_attempt
  | |- lasting (match ?x with _ => _ end) => destruct x
  | |- lasting (ret _) => apply lasting_ret
  | |- lasting (log _ _ _) => apply lasting_log
  | |- lasting (liftRes _) => apply lasting_liftRes
  | |- lasting (now _) => apply lasting_now
  | |- lasting _ => assumption
  end.

Variable env : Env.
Hypothesis R_probe : forall t v o, lasting (getProbeResult env t v o).

Lemma lasting_evaluateTrigger (r : Rule) (o : Options) (k : string)
    (acc : bool * gmap string ProbeResult) :
  lasting (evaluateTrigger env r o k acc).
Proof.
  unfold evaluateTrigger. destruct acc as [m res].
  repeat lasting_step. apply R_probe.
Qed.

Lemma lasting_evaluateTriggers (r : Rule) (o : Options) (ks : list string) :
  forall acc, lasting (evaluateTriggers env r o ks acc).
Proof.
  induction ks as [|k ks IH]; intros acc; cbn [evaluateTriggers].
  - apply lasting_ret.
  - apply lasting_bind; [apply lasting_evaluateTrigger|intros; apply IH].
Qed.

Lemma lasting_evaluateRule (r : Rule) (o : EvaluationOptions) :
  lasting (evaluateRule env r o).
Proof.
  unfold evaluateRule. repeat lasting_step. apply lasting_evaluateTriggers.
Qed.

Lemma lasting_ruleTurn (o : Options) (t0 : Z) (r : Rule) (acc : gmap string ProbeResult) :
  lasting (ruleTurn env o t0 r acc).
Proof.
  unfold ruleTurn, ruleFailed.
  pose proof (lasting_evaluateRule r (asEvaluationOptions o)).
  repeat lasting_step.
Qed.

Lemma lasting_evaluateLoop (o : Options) (t0 : Z) (rs : list Rule) :
  forall acc, lasting (evaluateLoop env o t0 rs acc).
Proof.
  induction rs as [|r rs IH]; intros acc; cbn [evaluateLoop].
  - repeat lasting_step.
  - apply lasting_bind; [apply lasting_ruleTurn|].
    intros [acc'|res]; [apply IH|apply lasting_ret].
Qed.

Lemma lasting_evaluateRules (rules : list (string * Rule)) (options : EvaluationOptions) :
  lasting (evaluateRules env rules options).
Proof.
  unfold evaluateRules.
  apply lasting_bind; [apply lasting_now|intros t0].
  apply lasting_bind; [apply lasting_log|intros _].
  destruct (enabledRules rules) as [|r0 rs];
    [repeat lasting_step|apply lasting_evaluateLoop].
Qed.

End Lasting.

Section Live.

Variable env : Env.
Variables (key : string) (c : CacheEntry) (upTo : nat).
Hypothesis Hlive : forall n, (n <= upTo)%nat -> dateNow env n < expiry c.

Lemma stays_refl (s : St) : stays key c upTo s s.
Proof. split; [lia|auto]. Qed.

Lemma stays_trans (s1 s2 s3 : St) :
  stays key c upTo s1 s2 -> stays key c upTo s2 s3 -> stays key c upTo s1 s3.
Proof. intros [H1 H2] [H3 H4]. split; [lia|]. intros Hn Hc. apply H4, H2; [exact Hn|lia|exact Hc]. Qed.

Lemma stays_quiet (s s' : St) :
  probeCache s' = probeCache s -> (tick s <= tick s')%nat -> stays key c upTo s s'.
Proof. intros Hc Ht. split; [exact Ht|]. intros _ H. rewrite Hc. exact H. Qed.

(** A probe request leaves a live entry alone: under its own key it is a
    hit, under another key the entry is not the one written. *)
Lemma stays_getProbeResult (t : string) (v : JsValue) (o : Options) (s : St) :
  stays key c upTo s (snd (getProbeResult env t v o s)).
Proof.
  pose proof (growing_getProbeResult env t v o s) as [Htick _].
  split; [exact Htick|]. intros Hup Hc.
  destruct (enableCache o) eqn:Ho.
  - destruct (String.eqb_spec (cacheKey t v) key) as [Hk|Hk].
    + assert (Hnow : dateNow env (tick s) < expiry c) by (apply Hlive; lia).
      rewrite <- Hk in Hc.
      rewrite (getProbeResult_hit env t v o Ho s c Hc Hnow). cbn [snd probeCache].
      rewrite Hk in Hc. exact Hc.
    + unfold getProbeResult. rewrite Ho.
      assert (Hlook : probeCache (snd (cacheLookup env (cacheKey t v) s)) = probeCache s).
      { unfold cacheLookup. mrun. destruct (probeCache s !! cacheKey t v) as [c0|];
          [|reflexivity].
        cbn. destruct (dateNow env (tick s) <? expiry c0); reflexivity. }
      unfold bind at 1.
      destruct (cacheLookup env (cacheKey t v) s) as [[[r|]|e] s0]; cbn [snd] in *;
        try (unfold ret; cbn [snd]; rewrite Hlook; exact Hc).
      unfold bind at 1.
      pose proof (cacheBlind_unchanged (execProbe env t v) s0
                    (cacheBlind_execProbe env t v)) as Hexec.
      destruct (execProbe env t v s0) as [[r|e] s1]; cbn [snd] in Hexec.
      * mrun. cbn [snd probeCache].
        rewrite lookup_insert_ne by exact Hk. rewrite Hexec, Hlook. exact Hc.
      * cbn [snd]. rewrite Hexec, Hlook. exact Hc.
  - pose proof (cacheBlind_unchanged (getProbeResult env t v o) s
                  (cacheBlind_getProbeResult env t v o Ho)) as Hsame.
    rewrite Hsame. exact Hc.
Qed.

(** A pass leaves a live entry alone. *)
Lemma stays_evaluateRules (rules : list (string * Rule)) (options : EvaluationOptions)
    (s : St) :
  stays key c upTo s (snd (evaluateRules env rules options s)).
Proof.
  apply (lasting_evaluateRules (stays key c upTo) stays_refl stays_trans stays_quiet env).
  intros t v o s0. apply stays_getProbeResult.
Qed.

End Live.

(** X22. [evaluateRules] removes no cache entry; and an entry that has not
    expired by the end of the pass, the clock never going back, is left as
    it was, result and expiry: the pass neither drops nor refreshes it. *)
Theorem evaluateRules_keeps_entries (env : Env) (rules : list (string * Rule))
    (options : EvaluationOptions) (s : St) (key : string) (c : CacheEntry) :
  probeCache s !! key = Some c ->
  is_Some (probeCache (snd (evaluateRules env rules options s)) !! key)
  /\ (monotoneClock env ->
      dateNow env (tick (snd (evaluateRules env rules options s))) < expiry c ->
      probeCache (snd (evaluateRules env rules options s)) !! key = Some c).
Proof.
  intros Hc. split.
  - apply (growing_evaluateRules env rules options s). rewrite Hc. eexists. reflexivity.
  - intros Hmono Hlive.
    set (s' := snd (evaluateRules env rules options s)) in *.
    assert (Hall : forall n, (n <= tick s')%nat -> dateNow env n < expiry c).
    { intros n Hn. pose proof (Hmono n (tick s') Hn). lia. }
    destruct (stays_evaluateRules env key c (tick s') Hall rules options s) as [_ H].
    apply H; [fold s'; lia|exact Hc].
Qed.

Lemma evaluateRules_keeps_entries_witness :
  probeCache (snd (evaluateRules offlineWorld officeThenHome noOptions warmState))
    !! cacheKey "manualFlag" flagOff
  = Some (mkCacheEntry (failure "cached" 0) 5000000).
Proof.
  refine (proj2 (evaluateRules_keeps_entries offlineWorld officeThenHome noOptions
                   warmState (cacheKey "manualFlag" flagOff)
                   (mkCacheEntry (failure "cached" 0) 5000000) _)
            offlineWorld_monotone _).
  - vm_compute. reflexivity.
  - vm_compute. reflexivity.
Defined.

(** ** What the logger stores *)

Lemma length_sliceLast {A} (n : Z) (l : list A) :
  0 < n -> Z.of_nat (length (sliceLast n l)) = Z.min (Z.of_nat (length l)) n.
Proof.
  intros Hn. unfold sliceLast. destruct (Z.ltb_spec 0 n); [|lia].
  rewrite length_drop. lia.
Qed.

Lemma sliceLast_suffix {A} (n : Z) (l : list A) :
  exists dropped, l = (dropped ++ sliceLast n l)%list.
Proof.
  unfold sliceLast. destruct (0 <? n); eexists; symmetry; apply take_drop.
Qed.

Lemma enforceStorageSize_spec (lg : Logger) :
  0 < targetSize (config lg) ->
  config (enforceStorageSize lg) = config lg
  /\ Z.of_nat (length (logEntries (enforceStorageSize lg))) <= maxEntries (config lg)
  /\ Z.of_nat (length (logEntries (enforceStorageSize lg))) * 200
     <= maxSizeBytes (config lg)
  /\ exists dropped, logEntries lg = (dropped ++ logEntries (enforceStorageSize lg))%list.
Proof.
  intros Ht. unfold enforceStorageSize. cbv zeta. fold (targetSize (config lg)).
  assert (Hdiv : maxSizeBytes (config lg) / 200 * 200 <= maxSizeBytes (config lg)).
  { pose proof (Z.mul_div_le (maxSizeBytes (config lg)) 200 ltac:(lia)). lia. }
  pose proof (length_sliceLast (targetSize (config lg)) (logEntries lg) Ht) as Hlen.
  destruct (sliceLast_suffix (targetSize (config lg)) (logEntries lg)) as [dropped Hd].
  assert (HT1 : targetSize (config lg) <= maxEntries (config lg))
    by (unfold targetSize; lia).
  assert (HT2 : targetSize (config lg) * 200 <= maxSizeBytes (config lg))
    by (unfold targetSize; lia).
  destruct (Z.ltb_spec (maxSizeBytes (config lg)) (Z.of_nat (length (logEntries lg)) * 200));
    [|destruct (Z.ltb_spec (maxEntries (config lg)) (Z.of_nat (length (logEntries lg))))];
    cbn [orb config logEntries].
  - split; [reflexivity|]. split; [lia|]. split; [lia|]. exists dropped. exact Hd.
  - split; [reflexivity|]. split; [lia|]. split; [lia|]. exists dropped. exact Hd.
  - split; [reflexivity|]. split; [lia|]. split; [lia|]. exists []. reflexivity.
Qed.

Lemma scheduleBatchedSave_spec (lg : Logger) :
  enableStorage (config lg) = true ->
  config (scheduleBatchedSave lg) = config lg
  /\ logEntries (scheduleBatchedSave lg) = logEntries lg
  /\ pendingSave (scheduleBatchedSave lg) = true
  /\ saveTimer (scheduleBatchedSave lg) = true.
Proof.
  intros H. unfold scheduleBatchedSave. rewrite H.
  cbn [negb config logEntries pendingSave saveTimer]. auto.
Qed.

Lemma addToStorage_spec (env : Env) (entry : StoredLog) (lg : Logger) :
  enableStorage (config lg) = true -> 0 < targetSize (config lg) ->
  let lg' := addToStorage env entry lg in
  Z.of_nat (length (logEntries lg')) <= maxEntries (config lg)
  /\ Z.of_nat (length (logEntries lg')) * 200 <= maxSizeBytes (config lg)
  /\ (exists dropped,
        filter (fun e => dateNow env (interactions lg) - maxAge (config lg) < entryTime e)
          (logEntries lg ++ [entry])%list
        = (dropped ++ logEntries lg')%list)
  /\ pendingSave lg' = true /\ saveTimer lg' = true.
Proof.
  intros Hs Ht lg'. subst lg'. unfold addToStorage.
  set (pushed := mkLogger (config lg) (logEntries lg ++ [entry]) (pendingSave lg)
                   (saveTimer lg) (consoleCalls lg) (interactions lg)).
  set (cleaned := cleanExpiredLogs env pushed).
  assert (Hc : config cleaned = config lg) by reflexivity.
  destruct (enforceStorageSize_spec cleaned) as (Hc' & Hn & Hb & dropped & Hd);
    [rewrite Hc; exact Ht|].
  destruct (scheduleBatchedSave_spec (enforceStorageSize cleaned))
    as (_ & He & Hp & Htm); [rewrite Hc', Hc; exact Hs|].
  rewrite He, Hp, Htm. rewrite Hc in Hn, Hb.
  split; [exact Hn|]. split; [exact Hb|]. split; [|split; reflexivity].
  exists dropped. exact Hd.
Qed.

(** X27. A [log] call that passes the level filter of a logger that
    stores, the size [enforceStorageSize] trims to being positive, leaves at
    most [maxEntries] entries, of an estimated size within [maxSizeBytes].
    What it keeps is the end of the list of the entries not yet expired, the
    new one last: the oldest go first.  A save is pending and the timer is
    armed. *)
Theorem logCall_bounds_storage (env : Env) (lg : Logger) (level : LogLevel)
    (component message : string) (data : JsValue) :
  enableStorage (config lg) = true ->
  logLevels (configLevel (config lg)) <= logLevels level ->
  0 < targetSize (config lg) ->
  let lg' := logCall env level component message data lg in
  let entry := mkStoredLog (dateNow env (interactions lg)) level component message data in
  Z.of_nat (length (logEntries lg')) <= maxEntries (config lg)
  /\ Z.of_nat (length (logEntries lg')) * 200 <= maxSizeBytes (config lg)
  /\ (exists dropped,
        filter (fun e => dateNow env (S (interactions lg)) - maxAge (config lg)
                         < entryTime e) (logEntries lg ++ [entry])%list
        = (dropped ++ logEntries lg')%list)
  /\ pendingSave lg' = true /\ saveTimer lg' = true.
Proof.
  intros Hs Hl Ht lg' entry. subst lg'. unfold logCall. cbv zeta. fold entry.
  destruct (Z.leb_spec (logLevels (configLevel (config lg))) (logLevels level)); [|lia].
  cbn [negb config].
  destruct (enableConsole (config lg)); cbn [logToConsole config]; rewrite Hs.
  - apply (addToStorage_spec env entry
             (mkLogger (config lg) (logEntries lg) (pendingSave lg) (saveTimer lg)
                (consoleCalls lg ++ [ConsoleEntry entry]) (S (interactions lg))));
      assumption.
  - apply (addToStorage_spec env entry
             (mkLogger (config lg) (logEntries lg) (pendingSave lg) (saveTimer lg)
                (consoleCalls lg) (S (interactions lg))));
      assumption.
Qed.

Lemma logCall_bounds_storage_witness :
  Z.of_nat (length (logEntries
                      (logCall offlineWorld LWarn "Probes" "fourth" JUndefined busyLogger)))
  <= 2
  /\ pendingSave (logCall offlineWorld LWarn "Probes" "fourth" JUndefined busyLogger) = true
  /\ saveTimer (logCall offlineWorld LWarn "Probes" "fourth" JUndefined busyLogger) = true.
Proof.
  destruct (logCall_bounds_storage offlineWorld busyLogger LWarn "Probes" "fourth"
              JUndefined eq_refl) as (H1 & _ & _ & H4 & H5).
  - vm_compute. discriminate.
  - reflexivity.
  - exact (conj H1 (conj H4 H5)).
Defined.

(** ** Reading the log *)

Lemma insertByTime_Permutation (e : StoredLog) (l : list StoredLog) :
  Permutation (insertByTime e l) (e :: l).
Proof.
  induction l as [|x xs IH]; [reflexivity|].
  cbn [insertByTime]. destruct (entryTime e <? entryTime x).
  - rewrite IH. apply perm_swap.
  - reflexivity.
Qed.

Lemma sortByTime_Permutation (l : list StoredLog) : Permutation (sortByTime l) l.
Proof.
  induction l as [|x xs IH]; [reflexivity|].
  cbn [sortByTime fold_right]. fold (sortByTime xs).
  rewrite insertByTime_Permutation, IH. reflexivity.
Qed.

Lemma insertByTime_sorted (e : StoredLog) (l : list StoredLog) :
  StronglySorted newerFirst l -> StronglySorted newerFirst (insertByTime e l).
Proof.
  induction 1 as [|x xs Hs IH Hx]; cbn [insertByTime].
  - repeat constructor.
  - destruct (Z.ltb_spec (entryTime e) (entryTime x)).
    + constructor; [exact IH|].
      rewrite insertByTime_Permutation. constructor; [|exact Hx].
      unfold newerFirst. lia.
    + constructor; [constructor; assumption|].
      constructor; [exact H|].
      eapply Forall_impl; [exact Hx|]. unfold newerFirst. intros y Hy. lia.
Qed.

Lemma sortByTime_sorted (l : list StoredLog) : StronglySorted newerFirst (sortByTime l).
Proof.
  induction l as [|x xs IH]; [constructor|].
  cbn [sortByTime fold_right]. apply insertByTime_sorted. exact IH.
Qed.

Lemma take_sorted {A} (R : A -> A -> Prop) (n : nat) (l : list A) :
  StronglySorted R l -> StronglySorted R (take n l).
Proof.
  intros H. revert n. induction H as [|x xs Hs IH Hx]; intros [|n]; cbn [take];
    try constructor.
  - apply IH.
  - rewrite Forall_forall in Hx. apply Forall_forall. intros y Hy.
    apply Hx. apply elem_of_take in Hy as (i & Hi & _).
    eapply list_elem_of_lookup_2. exact Hi.
Qed.

Lemma sliceFirst_take {A} (n : Z) (l : list A) : exists k, sliceFirst n l = take k l.
Proof. unfold sliceFirst. destruct (0 <=? n); eauto. Qed.

Lemma length_sliceFirst {A} (n : Z) (l : list A) :
  0 <= n -> Z.of_nat (length (sliceFirst n l)) <= n.
Proof.
  intros H. unfold sliceFirst. destruct (Z.leb_spec 0 n); [|lia].
  rewrite length_take. lia.
Qed.

(** The newest [limit] of a list of entries, newest first. *)
Lemma newest_first (limit : Z) (l : list StoredLog) :
  StronglySorted newerFirst (sliceFirst limit (sortByTime l))
  /\ (0 <= limit -> Z.of_nat (length (sliceFirst limit (sortByTime l))) <= limit)
  /\ forall e, e ∈ sliceFirst limit (sortByTime l) -> e ∈ l.
Proof.
  destruct (sliceFirst_take limit (sortByTime l)) as [k Hk].
  split; [rewrite Hk; apply take_sorted, sortByTime_sorted|].
  split; [apply length_sliceFirst|].
  intros e He. rewrite Hk in He. apply elem_of_take in He as (i & Hi & _).
  apply list_elem_of_lookup_2 in Hi. rewrite sortByTime_Permutation in Hi. exact Hi.
Qed.

(** X28. [getLogs] answers newest first, with at most [limit] entries
    when [limit] is not negative; each of them is an entry the logger holds
    once the storage calls are made and the expired entries removed, of at
    least the level asked for and of the component asked for. *)
Theorem getLogs_answer (env : Env) (store : LogStore) (level : option LogLevel)
    (component : option string) (limit : Z) (lg : Logger) :
  let answer := fst (getLogs env store level component limit lg) in
  StronglySorted newerFirst answer
  /\ (0 <= limit -> Z.of_nat (length answer) <= limit)
  /\ forall e, e ∈ answer ->
       e ∈ logEntries (settled env store lg)
       /\ (forall l, level = Some l -> logLevels l <= logLevels (entryLevel e))
       /\ (given component = true -> component = Some (entryComponent e)).
Proof.
  unfold getLogs. cbv zeta. fold (settled env store lg).
  set (lg3 := settled env store lg).
  destruct level as [l|]; destruct component as [c|];
    try destruct (given (Some c)) eqn:Hg; cbn [given default fst snd];
    unfold Datatypes.id;
    match goal with
    | |- context [sliceFirst limit (sortByTime ?F)] =>
        destruct (newest_first limit F) as (Hsorted & Hlen & Hin)
    end;
    (split; [exact Hsorted|]); (split; [exact Hlen|]);
    intros e He; apply Hin in He;
    rewrite ?list_elem_of_filter in He.
  - destruct He as (Hc & Hl & He). split; [exact He|]. split.
    + intros l0 [= <-]. exact Hl.
    + intros _. rewrite Hc. reflexivity.
  - destruct He as (Hl & He). split; [exact He|]. split.
    + intros l0 [= <-]. exact Hl.
    + discriminate.
  - destruct He as (Hl & He). split; [exact He|]. split.
    + intros l0 [= <-]. exact Hl.
    + discriminate.
  - destruct He as (Hc & He). split; [exact He|]. split.
    + discriminate.
    + intros _. rewrite Hc. reflexivity.
  - split; [exact He|]. split; discriminate.
  - split; [exact He|]. split; discriminate.
Qed.

(** X29. Called with no filter, [getLogs] leaves the logger's own list
    arranged newest first, since [sort] works on [this.logEntries] itself;
    called with a level or a component, it leaves the order of that list as
    it found it. *)
Theorem getLogs_rearranges_store (env : Env) (store : LogStore) (level : option LogLevel)
    (component : option string) (limit : Z) (lg : Logger) :
  let lg' := snd (getLogs env store level component limit lg) in
  let found := logEntries (settled env store lg) in
  (level = None /\ given component = false ->
   logEntries lg' = sortByTime found /\ StronglySorted newerFirst (logEntries lg'))
  /\ (is_Some level \/ given component = true -> logEntries lg' = found).
Proof.
  unfold getLogs. cbv zeta. fold (settled env store lg).
  set (lg3 := settled env store lg).
  split.
  - intros [-> Hg]. rewrite Hg. cbn [snd logEntries].
    split; [reflexivity|apply sortByTime_sorted].
  - intros [[l ->]|Hg].
    + destruct (given component); reflexivity.
    + rewrite Hg. reflexivity.
Qed.

(** After a call of [getLogs] with no filter the stored entries stand
    newest first, and the entry [enforceStorageSize] then drops to make room
    is the newest of them, not the oldest. *)
Example trimming_after_getLogs :
  let read := snd (getLogs offlineWorld emptyStore None None 100 busyLogger) in
  map entryMessage (logEntries read) = ["third"; "second"; "first"]
  /\ map entryMessage
       (logEntries (logCall offlineWorld LWarn "Probes" "fourth" JUndefined read))
     = ["first"; "fourth"]
  /\ map entryMessage
       (logEntries (logCall offlineWorld LWarn "Probes" "fourth" JUndefined busyLogger))
     = ["third"; "fourth"].
Proof. vm_compute. repeat split. Qed.

(** ** Reading a key back *)

Lemma append_assoc (a b c : string) : (a ++ b) ++ c = a ++ (b ++ c).
Proof.
  induction a as [|x a IH]; [reflexivity|].
  rewrite !append_cons, IH. reflexivity.
Qed.

Lemma append_inj_l (s r r' : string) : s ++ r = s ++ r' -> r = r'.
Proof.
  induction s as [|x s IH]; [auto|].
  rewrite !append_cons. intros H. injection H as H. exact (IH H).
Qed.

Lemma digits_split (d1 : string) :
  forall d2 r1 r2,
    allDigits d1 = true -> allDigits d2 = true -> stops r1 = true -> stops r2 = true ->
    d1 ++ r1 = d2 ++ r2 -> d1 = d2 /\ r1 = r2.
Proof.
  induction d1 as [|c d1 IH]; intros [|c' d2] r1 r2 H1 H2 S1 S2 E.
  - rewrite !append_nil in E. auto.
  - rewrite append_nil, append_cons in E. subst r1. cbn [stops allDigits] in *.
    apply andb_true_iff in H2 as [H2 _]. rewrite H2 in S1. discriminate S1.
  - rewrite append_nil, append_cons in E. subst r2. cbn [stops allDigits] in *.
    apply andb_true_iff in H1 as [H1 _]. rewrite H1 in S2. discriminate S2.
  - rewrite !append_cons in E. injection E as -> E. cbn [allDigits] in *.
    apply andb_true_iff in H1 as [_ H1]. apply andb_true_iff in H2 as [_ H2].
    destruct (IH d2 r1 r2 H1 H2 S1 S2 E) as [-> ->]. auto.
Qed.

Lemma allDigits_app (a b : string) : allDigits (a ++ b) = allDigits a && allDigits b.
Proof.
  induction a as [|x a IH]; [reflexivity|].
  rewrite append_cons. cbn [allDigits]. rewrite IH, andb_assoc. reflexivity.
Qed.

Lemma pretty_N_char_digit (x : N) : isDigit (pretty_N_char x) = true.
Proof. unfold pretty_N_char. repeat case_match; reflexivity. Qed.

Lemma pretty_N_go_digits (x : N) :
  forall s, exists d,
    pretty_N_go x s = d ++ s /\ allDigits d = true /\ ((0 < x)%N -> d <> "").
Proof.
  induction (N.lt_wf_0 x) as [x _ IH]. intros s.
  assert (x = 0 \/ 0 < x)%N as [->|Hx] by lia.
  - exists "". rewrite pretty_N_go_0. split; [reflexivity|]. split; [reflexivity|lia].
  - rewrite pretty_N_go_step by exact Hx.
    destruct (IH (x `div` 10)%N (N.div_lt x 10 Hx eq_refl)
                (String (pretty_N_char (x `mod` 10)) s)) as (d & Hd & Ha & _).
    exists (d ++ String (pretty_N_char (x `mod` 10)) "").
    rewrite Hd, append_assoc, append_cons, append_nil. split; [reflexivity|].
    split.
    + rewrite allDigits_app, Ha. cbn [allDigits].
      rewrite pretty_N_char_digit. reflexivity.
    + intros _. destruct d; discriminate.
Qed.

Lemma append_nil_r (s : string) : s ++ "" = s.
Proof. induction s as [|x s IH]; [reflexivity|]. rewrite append_cons, IH. reflexivity. Qed.

Lemma pretty_N_digits (x : N) : allDigits (pretty x) = true /\ pretty x <> "".
Proof.
  unfold pretty, pretty_N. destruct (decide (x = 0)%N) as [->|Hx].
  - split; [reflexivity|discriminate].
  - destruct (pretty_N_go_digits x "") as (d & Hd & Ha & Hne).
    rewrite Hd, append_nil_r. split; [exact Ha|apply Hne; lia].
Qed.

(** The decimal text of an integer: digits, after a minus sign if it is
    negative. *)
Lemma pretty_Z_shape (z : Z) :
  exists d, allDigits d = true /\ d <> ""
            /\ (pretty z = d \/ pretty z = String "-"%char d).
Proof.
  destruct z as [|p|p].
  - exists "0". split; [reflexivity|]. split; [discriminate|]. left. reflexivity.
  - destruct (pretty_N_digits (N.pos p)) as [Ha Hne].
    exists (pretty (N.pos p)). split; [exact Ha|]. split; [exact Hne|]. left. reflexivity.
  - destruct (pretty_N_digits (N.pos p)) as [Ha Hne].
    exists (pretty (N.pos p)). split; [exact Ha|]. split; [exact Hne|]. right. reflexivity.
Qed.

Lemma digit_not_dash (c : ascii) : isDigit c = true -> c <> "-"%char.
Proof. intros H ->. discriminate H. Qed.

(** A number is read back from the head of a text, whatever follows it
    that is not a digit. *)
Lemma pretty_Z_sep (a b : Z) (r r' : string) :
  stops r = true -> stops r' = true ->
  pretty a ++ r = pretty b ++ r' -> a = b /\ r = r'.
Proof.
  intros S S' E.
  destruct (pretty_Z_shape a) as (d & Hd & Hn & Ha).
  destruct (pretty_Z_shape b) as (d' & Hd' & Hn' & Hb).
  assert (Hcase : pretty a = pretty b /\ r = r').
  { destruct Ha as [Ha|Ha], Hb as [Hb|Hb]; rewrite Ha, Hb in *.
    - destruct (digits_split d d' r r' Hd Hd' S S' E) as [-> ->]. auto.
    - exfalso. destruct d as [|c d]; [contradiction|].
      rewrite !append_cons in E. injection E as -> _.
      cbn [allDigits] in Hd. apply andb_true_iff in Hd as [Hd _]. discriminate Hd.
    - exfalso. destruct d' as [|c d']; [contradiction|].
      rewrite !append_cons in E. injection E as <- _.
      cbn [allDigits] in Hd'. apply andb_true_iff in Hd' as [Hd' _]. discriminate Hd'.
    - rewrite !append_cons in E. injection E as E.
      destruct (digits_split d d' r r' Hd Hd' S S' E) as [-> ->]. auto. }
  destruct Hcase as [Hp ->]. split; [|reflexivity].
  apply (inj pretty). exact Hp.
Qed.

Lemma unescapeHead_escapeChar (c : ascii) (x : string) :
  unescapeHead (escapeChar c ++ x) = Some (c, x).
Proof.
  destruct c as [[] [] [] [] [] [] [] []]; reflexivity.
Qed.

Lemma unescapeHead_dquote (r : string) : unescapeHead (String dquote r) = None.
Proof. reflexivity. Qed.

(** An escaped string is read back up to its closing quote. *)
Lemma escapeString_sep (s : string) :
  forall t r r',
    escapeString s ++ String dquote r = escapeString t ++ String dquote r' ->
    s = t /\ r = r'.
Proof.
  induction s as [|c s IH]; intros [|c' t] r r' E; cbn [escapeString] in E.
  - rewrite !append_nil in E. injection E as ->. auto.
  - exfalso. rewrite append_nil, append_assoc in E.
    apply (f_equal unescapeHead) in E.
    rewrite unescapeHead_dquote, unescapeHead_escapeChar in E. discriminate E.
  - exfalso. rewrite append_nil, append_assoc in E.
    apply (f_equal unescapeHead) in E.
    rewrite unescapeHead_dquote, unescapeHead_escapeChar in E. discriminate E.
  - rewrite !append_assoc in E. apply (f_equal unescapeHead) in E.
    rewrite !unescapeHead_escapeChar in E. injection E as -> E.
    destruct (IH t r r' E) as [-> ->]. auto.
Qed.

Lemma quoteJSON_app (s r : string) :
  quoteJSON s ++ r = String dquote (escapeString s ++ String dquote r).
Proof.
  unfold quoteJSON. rewrite append_cons, append_assoc, append_cons, append_nil.
  reflexivity.
Qed.

Lemma quoteJSON_sep (s t r r' : string) :
  quoteJSON s ++ r = quoteJSON t ++ r' -> s = t /\ r = r'.
Proof.
  rewrite !quoteJSON_app. intros E. injection E as E.
  exact (escapeString_sep s t r r' E).
Qed.

(** ** The text of a value that is written in full *)

Lemma writable_stringify (v : JsValue) :
  writable v = true -> stringify v = Some (stringifyText v).
Proof.
  unfold stringifyText. destruct v; cbn [writable]; try discriminate;
    intros _; destruct (stringify _) eqn:E; try reflexivity; try discriminate E.
  destruct b; discriminate E.
Qed.

Lemma stringifyText_array (l : list JsValue) :
  forallb writable l = true ->
  stringifyText (JArr l) = "[" ++ String.concat "," (map stringifyText l) ++ "]".
Proof.
  intros H. unfold stringifyText at 1. cbn [stringify]. do 3 f_equal.
  apply map_ext_Forall. rewrite forallb_forall in H. apply Forall_forall.
  intros x Hx. rewrite (writable_stringify x); [reflexivity|].
  apply H, list_elem_of_In, Hx.
Qed.

Lemma stringifyText_object (props : list (string * JsValue)) :
  forallb (fun kv => writable (snd kv)) props = true ->
  stringifyText (JObj props) = "{" ++ String.concat "," (map propertyText props) ++ "}".
Proof.
  intros H. unfold stringifyText at 1. cbn [stringify]. do 3 f_equal.
  induction props as [|kv props IH]; [reflexivity|].
  cbn [forallb] in H. apply andb_true_iff in H as [Hkv H].
  cbn [omap list_omap map]. rewrite (writable_stringify _ Hkv).
  unfold propertyText at 1. f_equal. exact (IH H).
Qed.

(** The first character of the text of a value tells its kind. *)
Lemma kindOfText_stringifyText (v : JsValue) (r : string) :
  writable v = true -> kindOfText (stringifyText v ++ r) = kindOf v.
Proof.
  intros H. destruct v as [| |b|n|s|l|props]; try discriminate H.
  - reflexivity.
  - destruct b; reflexivity.
  - unfold stringifyText. cbn [stringify kindOf].
    destruct (pretty_Z_shape n) as (d & Hd & Hne & [Hp|Hp]); rewrite Hp.
    + destruct d as [|c d]; [contradiction|]. rewrite append_cons.
      cbn [allDigits] in Hd. apply andb_true_iff in Hd as [Hc _].
      cbn [kindOfText]. unfold kindOfChar. rewrite Hc.
      destruct c as [[] [] [] [] [] [] [] []]; try discriminate Hc; reflexivity.
    + reflexivity.
  - unfold stringifyText. cbn [stringify]. rewrite quoteJSON_app. reflexivity.
  - rewrite stringifyText_array by exact H. reflexivity.
  - rewrite stringifyText_object by exact H. reflexivity.
Qed.

Lemma kindOf_eq (a b : JsValue) :
  writable a = true -> writable b = true -> kindOf a = kindOf b ->
  match a, b with
  | JNull, JNull => True
  | JBool x, JBool y => x = y
  | JNum _, JNum _ => True
  | JStr _, JStr _ => True
  | JArr _, JArr _ => True
  | JObj _, JObj _ => True
  | _, _ => False
  end.
Proof.
  destruct a as [| |[]| | | |], b as [| |[]| | | |]; cbn; intros; try discriminate; auto.
Qed.

(** ** Lists of items between brackets *)

Section Joined.

Context {A : Type}.
Variables (T : A -> string) (good : A -> bool) (close : ascii).

Hypothesis close_not_digit : isDigit close = false.
Hypothesis close_not_comma : close <> ","%char.

(** The text of a good item starts with neither a comma nor the closing
    bracket. *)
Hypothesis head_good :
  forall y, good y = true ->
            exists c rest, T y = String c rest /\ c <> ","%char /\ c <> close.

Lemma concat_joinTail (x : A) (xs : list A) :
  String.concat "," (map T (x :: xs)) = T x ++ joinTail T xs.
Proof.
  destruct xs as [|y ys]; cbn [map joinTail].
  - cbn [String.concat]. rewrite append_nil_r. reflexivity.
  - apply concat_cons2.
Qed.

Lemma joinTail_stops (xs : list A) (r : string) :
  stops (joinTail T xs ++ String close r) = true.
Proof.
  destruct xs as [|y ys]; cbn [joinTail].
  - rewrite append_nil. cbn [stops]. rewrite close_not_digit. reflexivity.
  - reflexivity.
Qed.

Lemma joinTail_inj (xs : list A) :
  Forall (fun x => forall y r r',
            good y = true -> stops r = true -> stops r' = true ->
            T x ++ r = T y ++ r' -> x = y /\ r = r') xs ->
  forall xs' r r',
    forallb good xs' = true ->
    joinTail T xs ++ String close r = joinTail T xs' ++ String close r' ->
    xs = xs' /\ r = r'.
Proof.
  induction 1 as [|x xs Hx _ IH]; intros [|x' xs'] r r' Hg E.
  - cbn [joinTail] in E. rewrite !append_nil in E. injection E as ->. auto.
  - exfalso. cbn [joinTail] in E. rewrite append_nil, append_cons in E.
    injection E as E _. exact (close_not_comma E).
  - exfalso. cbn [joinTail] in E. rewrite append_nil, append_cons in E.
    injection E as E _. symmetry in E. exact (close_not_comma E).
  - cbn [forallb] in Hg. apply andb_true_iff in Hg as [Hg Hgs].
    cbn [joinTail] in E. rewrite !concat_joinTail in E.
    rewrite !append_cons, !append_nil, !append_assoc in E. injection E as E.
    destruct (Hx x' _ _ Hg (joinTail_stops xs r) (joinTail_stops xs' r') E) as [-> E'].
    destruct (IH xs' r r' Hgs E') as [-> ->]. auto.
Qed.

(** Two lists of good items with the same text between the brackets are
    the same list. *)
Lemma joined_inj (l l' : list A) (r r' : string) :
  Forall (fun x => forall y r r',
            good y = true -> stops r = true -> stops r' = true ->
            T x ++ r = T y ++ r' -> x = y /\ r = r') l ->
  forallb good l = true -> forallb good l' = true ->
  String.concat "," (map T l) ++ String close r
  = String.concat "," (map T l') ++ String close r' ->
  l = l' /\ r = r'.
Proof.
  intros Hl Hg Hg' E. destruct l as [|x xs], l' as [|x' xs'].
  - cbn [map String.concat] in E. rewrite !append_nil in E. injection E as ->. auto.
  - exfalso. cbn [forallb] in Hg'. apply andb_true_iff in Hg' as [Hg' _].
    destruct (head_good x' Hg') as (c & rest & Hc & _ & Hne).
    rewrite concat_joinTail, Hc in E. cbn [map String.concat] in E.
    rewrite append_nil, append_cons in E. injection E as E _. exact (Hne (eq_sym E)).
  - exfalso. cbn [forallb] in Hg. apply andb_true_iff in Hg as [Hg _].
    destruct (head_good x Hg) as (c & rest & Hc & _ & Hne).
    rewrite concat_joinTail, Hc in E. cbn [map String.concat] in E.
    rewrite append_nil, append_cons in E. injection E as E _. exact (Hne E).
  - apply Forall_cons in Hl as [Hx Hxs].
    cbn [forallb] in Hg'. apply andb_true_iff in Hg' as [Hg' Hgs'].
    rewrite !concat_joinTail, !append_assoc in E.
    destruct (Hx x' _ _ Hg' (joinTail_stops xs r) (joinTail_stops xs' r') E) as [-> E'].
    destruct (joinTail_inj xs Hxs xs' r r' Hgs' E') as [-> ->]. auto.
Qed.

End Joined.

(** ** The key tells the serial form *)

Lemma writable_head (v : JsValue) :
  writable v = true ->
  exists c rest, stringifyText v = String c rest /\ kindOfChar c <> 0.
Proof.
  intros H. pose proof (kindOfText_stringifyText v "" H) as Hk.
  rewrite append_nil_r in Hk.
  destruct (stringifyText v) as [|c rest].
  - destruct v as [| |[]| | | |]; discriminate.
  - exists c, rest. split; [reflexivity|]. cbn [kindOfText] in Hk. rewrite Hk.
    destruct v as [| |[]| | | |]; discriminate.
Qed.

Lemma stringifyText_sep (a : JsValue) :
  forall b r r',
    writable a = true -> writable b = true -> stops r = true -> stops r' = true ->
    stringifyText a ++ r = stringifyText b ++ r' -> a = b /\ r = r'.
Proof.
  induction a as [| |x|n|s|l IH|props IH] using JsValue_nested_ind;
    intros b r r' Wa Wb S S' E;
    try discriminate Wa;
    pose proof (f_equal kindOfText E) as Hk;
    rewrite !kindOfText_stringifyText in Hk by assumption;
    pose proof (kindOf_eq _ b Wa Wb Hk) as Hsame;
    destruct b as [| |y|m|t|l'|props']; try contradiction.
  - split; [reflexivity|]. exact (append_inj_l _ _ _ E).
  - subst y. split; [reflexivity|]. exact (append_inj_l _ _ _ E).
  - unfold stringifyText in E. cbn [stringify] in E.
    destruct (pretty_Z_sep n m r r' S S' E) as [-> ->]. auto.
  - unfold stringifyText in E. cbn [stringify] in E.
    destruct (quoteJSON_sep s t r r' E) as [-> ->]. auto.
  - cbn [writable] in Wa, Wb.
    rewrite !stringifyText_array in E by assumption.
    rewrite !append_cons, !append_nil, !append_assoc, !append_cons, !append_nil in E.
    injection E as E.
    destruct (joined_inj stringifyText writable "]"%char eq_refl ltac:(discriminate))
      with (l := l) (l' := l') (r := r) (r' := r') as [-> ->]; try assumption; auto.
    + intros y Hy. destruct (writable_head y Hy) as (c & rest & Hc & Hkind).
      exists c, rest. split; [exact Hc|].
      split; intros ->; apply Hkind; reflexivity.
    + rewrite forallb_forall in Wa. rewrite Forall_forall in IH. apply Forall_forall.
      intros x Hx y r0 r0' Wy S0 S0' E0.
      apply (IH x Hx y r0 r0'); try assumption.
      apply Wa, list_elem_of_In, Hx.
  - cbn [writable] in Wa, Wb.
    rewrite !stringifyText_object in E by assumption.
    rewrite !append_cons, !append_nil, !append_assoc, !append_cons, !append_nil in E.
    injection E as E.
    destruct (joined_inj propertyText (fun kv => writable (snd kv)) "}"%char
                eq_refl ltac:(discriminate))
      with (l := props) (l' := props') (r := r) (r' := r') as [-> ->];
      try assumption; auto.
    + intros [k v] _. unfold propertyText. cbn [fst snd].
      rewrite quoteJSON_app. eexists _, _. split; [reflexivity|].
      split; discriminate.
    + rewrite forallb_forall in Wa. rewrite Forall_forall in IH. apply Forall_forall.
      intros [k v] Hx [k' v'] r0 r0' Wy S0 S0' E0.
      unfold propertyText in E0. cbn [fst snd] in *.
      rewrite !append_assoc in E0.
      destruct (quoteJSON_sep k k' _ _ E0) as [-> E1].
      rewrite !append_cons, !append_nil in E1. injection E1 as E1.
      pose proof (IH (k', v) Hx) as IHv. cbn [snd] in IHv.
      assert (Wv : writable v = true) by (apply (Wa (k', v)), list_elem_of_In, Hx).
      destruct (IHv v' r0 r0' Wv Wy S0 S0' E1) as [-> ->]. auto.
Qed.

(** The serial form of a value is written in full. *)
Lemma serialForm_writable (v : JsValue) :
  v <> JUndefined -> writable (serialForm v) = true.
Proof.
  induction v as [| | | | |l IH|props IH] using JsValue_nested_ind; intros Hv;
    try reflexivity.
  - contradiction.
  - cbn [serialForm writable]. rewrite forallb_forall. intros y Hy.
    apply in_map_iff in Hy as (x & <- & Hx).
    rewrite Forall_forall in IH. apply list_elem_of_In in Hx.
    destruct x; try reflexivity; apply (IH _ Hx); discriminate.
  - cbn [serialForm writable]. rewrite forallb_forall. intros y Hy.
    apply list_elem_of_In, list_elem_of_omap in Hy as ([k x] & Hx & Hy).
    rewrite Forall_forall in IH. specialize (IH _ Hx). cbn [fst snd] in *.
    destruct x; try discriminate Hy; injection Hy as <-; cbn [snd];
      try reflexivity; apply IH; discriminate.
Qed.

Lemma stringifyText_serialForm (v : JsValue) :
  stringifyText (serialForm v) = stringifyText v.
Proof. unfold stringifyText. rewrite stringify_serialForm. reflexivity. Qed.

(** X30. Two requests of one trigger type share a cache key only if
    [JSON.stringify] looks at their parameters alike: the parameters are
    equal once the properties holding [undefined] are dropped and the
    [undefined] array elements read as [null], key order included. *)
Theorem cacheKey_tells_serial_form (triggerType : string) (a b : JsValue) :
  cacheKey triggerType a = cacheKey triggerType b ->
  serialForm a = serialForm b.
Proof.
  unfold cacheKey. intros E. apply append_inj_l, append_inj_l in E.
  rewrite <- (stringifyText_serialForm a), <- (stringifyText_serialForm b) in E.
  assert (Hu : forall v, v <> JUndefined -> stringifyText (serialForm v) <> "undefined").
  { intros v Hv Hs.
    destruct (writable_head _ (serialForm_writable v Hv)) as (c & rest & Hc & Hk).
    rewrite Hs in Hc. injection Hc as <- _. apply Hk. reflexivity. }
  assert (Da : a = JUndefined \/ a <> JUndefined)
    by (destruct a; [left; reflexivity|right; discriminate..]).
  assert (Db : b = JUndefined \/ b <> JUndefined)
    by (destruct b; [left; reflexivity|right; discriminate..]).
  destruct Da as [->|Ha], Db as [->|Hb].
  - reflexivity.
  - exfalso. symmetry in E. exact (Hu b Hb E).
  - exfalso. exact (Hu a Ha E).
  - apply (stringifyText_sep (serialForm a) (serialForm b) "" "");
      try reflexivity; try (apply serialForm_writable; assumption).
    rewrite !append_nil_r. exact E.
Qed.

Lemma cacheKey_tells_serial_form_witness :
  serialForm dnsTriggerHostUndefinedMatches = serialForm dnsTriggerHostOnly.
Proof.
  apply (cacheKey_tells_serial_form "dnsResolve"). vm_compute. reflexivity.
Defined.
